(** * Appinn Forum Upload Enhancer: placeholder lifecycle and text splicing

    A shallow embedding of the user script
    [Appinn Forum Upload Enhancer.js] (version 0.5.0) and the properties of
    its placeholder codec, text-splice engine, validator, error classifier
    and id generator.

    Conventions of the embedding.
    - A JavaScript string is the list of its UTF-16 code units; [js] turns
      a literal of this file (UTF-8) into that list.
    - Offsets, lengths and the scroll position are integers ([Z]); sizes,
      time stamps and the upload counter are naturals ([N]).
    - The script mutates one textarea, one registry and the page; these
      live in a [World] record threaded through a state monad [M].
    - The asynchronous transfer is cut at its [await]: [_executeUpload]
      starts the request and [_executeUpload_settled] is the rest of the
      function, run with the outcome of the transfer on whatever the
      world has become in the meantime. *)

From Stdlib Require Import ZArith NArith Lia List Bool Ascii String.
From Stdlib Require Import DecimalPos DecimalN.
From stdpp Require Import base list gmap strings.

Set Default Proof Using "Type".

(* ===================================================================== *)
(** * JavaScript strings *)
(* ===================================================================== *)

Abbreviation jsstring := (list N).

(** Decoder of the UTF-8 literals of this file into UTF-16 code units
    (code points above U+FFFF become a surrogate pair). *)
Fixpoint js (s : string) : jsstring :=
  match s with
  | EmptyString => []
  | String a s1 =>
    let b0 := N_of_ascii a in
    if (b0 <? 128)%N then b0 :: js s1
    else match s1 with
    | EmptyString => []
    | String b s2 =>
      let b1 := (N_of_ascii b mod 64)%N in
      if (b0 <? 224)%N then ((b0 mod 32) * 64 + b1)%N :: js s2
      else match s2 with
      | EmptyString => []
      | String c s3 =>
        let b2 := (N_of_ascii c mod 64)%N in
        if (b0 <? 240)%N
        then ((b0 mod 16) * 4096 + b1 * 64 + b2)%N :: js s3
        else match s3 with
        | EmptyString => []
        | String d s4 =>
          let b3 := (N_of_ascii d mod 64)%N in
          let cp :=
            ((b0 mod 8) * 262144 + b1 * 4096 + b2 * 64 + b3 - 65536)%N in
          (55296 + cp / 1024)%N :: (56320 + cp mod 1024)%N :: js s4
        end
      end
    end
  end.
Arguments js s%_string : simpl never.

(** The line feed, written ['\n'] in the script. *)
Definition LF : N := 10%N.

(** [s.length] *)
Definition jslength (s : jsstring) : Z := Z.of_nat (length s).

(** [s === t] on strings *)
Fixpoint streq (s t : jsstring) : bool :=
  match s, t with
  | [], [] => true
  | c :: s', d :: t' => (c =? d)%N && streq s' t'
  | _, _ => false
  end.

(** [s.startsWith(p)] *)
Fixpoint startsWith (s p : jsstring) {struct p} : bool :=
  match p, s with
  | [], _ => true
  | c :: p', d :: s' => (d =? c)%N && startsWith s' p'
  | _ :: _, [] => false
  end.

(** [s.endsWith(p)] *)
Definition endsWith (s p : jsstring) : bool :=
  startsWith (rev s) (rev p).

(** [s.includes(p)] *)
Fixpoint includes (s p : jsstring) : bool :=
  startsWith s p ||
  match s with
  | [] => false
  | _ :: s' => includes s' p
  end.

(** [s.substring(a, b)]: both arguments are clamped to [0, s.length] and
    swapped when the first exceeds the second. *)
Definition clampIndex (s : jsstring) (i : Z) : nat :=
  Z.to_nat (Z.min (Z.max i 0) (jslength s)).

Definition substring (s : jsstring) (a b : Z) : jsstring :=
  let from := Nat.min (clampIndex s a) (clampIndex s b) in
  let to := Nat.max (clampIndex s a) (clampIndex s b) in
  take (to - from) (drop from s).

(** [s.substring(a)] *)
Definition substringFrom (s : jsstring) (a : Z) : jsstring :=
  substring s a (jslength s).

(** [s < t] on strings: code units compared from the left, a proper
    prefix being smaller. *)
Fixpoint jsLt (s t : jsstring) : bool :=
  match s, t with
  | _, [] => false
  | [], _ :: _ => true
  | c :: s', d :: t' =>
    if (c <? d)%N then true else if (d <? c)%N then false else jsLt s' t'
  end.

(** [s.toLowerCase()], as far as a search for Basic Latin letters, digits,
    spaces or Chinese characters can tell.  [A]-[Z] become [a]-[z]; the
    Kelvin sign U+212A becomes [k]; the capital I with a dot above,
    U+0130, becomes [i] followed by the combining dot U+0307.  These are
    all the characters whose lower-case form holds a Basic Latin letter.
    Any other cased letter becomes a letter outside Basic Latin, and which
    one is left out: it is written as itself.  No character the classifier
    looks for is changed by lower-casing. *)
Definition lowerUnits (c : N) : list N :=
  if ((65 <=? c) && (c <=? 90))%N then [(c + 32)%N]
  else if (c =? 8490)%N then [107%N]
  else if (c =? 304)%N then [105%N; 775%N]
  else [c].

Definition toLowerCase (s : jsstring) : jsstring := flat_map lowerUnits s.

(** Decimal rendering of a non-negative integer, [String(n)] or [`${n}`]
    (plain digits, as JavaScript writes every integer below [10^21]). *)
Fixpoint unitsOfUint (d : Decimal.uint) : jsstring :=
  match d with
  | Decimal.Nil => []
  | Decimal.D0 d' => 48%N :: unitsOfUint d'
  | Decimal.D1 d' => 49%N :: unitsOfUint d'
  | Decimal.D2 d' => 50%N :: unitsOfUint d'
  | Decimal.D3 d' => 51%N :: unitsOfUint d'
  | Decimal.D4 d' => 52%N :: unitsOfUint d'
  | Decimal.D5 d' => 53%N :: unitsOfUint d'
  | Decimal.D6 d' => 54%N :: unitsOfUint d'
  | Decimal.D7 d' => 55%N :: unitsOfUint d'
  | Decimal.D8 d' => 56%N :: unitsOfUint d'
  | Decimal.D9 d' => 57%N :: unitsOfUint d'
  end.

Definition numberToString (n : N) : jsstring := unitsOfUint (N.to_uint n).

(** Decimal digits, and the number a run of them writes. *)
Definition isDigit (c : N) : bool := ((48 <=? c) && (c <=? 57))%N.

Definition digitsValue (s : jsstring) : N :=
  fold_left (fun acc c => (acc * 10 + (c - 48))%N) s 0%N.

(** [++n] on a Number: integers are exact up to [2^53], where adding one
    no longer changes the value. *)
Definition MAX_EXACT : N := (2 ^ 53)%N.

Definition numberInc (n : N) : N :=
  if (n <? MAX_EXACT)%N then (n + 1)%N else n.

(* ===================================================================== *)
(** * Regular expressions, as far as the script uses them *)
(* ===================================================================== *)

(** One-character matchers. *)
Inductive atom :=
| AChar (c : N)             (* a pattern character, possibly escaped *)
| ADot                       (* [.] *)
| ARange (lo hi : N).        (* [[lo-hi]] *)

Inductive regex :=
| Eps
| Atom (a : atom)
| Seq (r1 r2 : regex)
| Opt (r : regex)            (* [r?], greedy *)
| Plus (a : atom).           (* [a+], greedy *)

(** Line terminators, which [.] does not match (no [s] flag). *)
Definition isLineTerminator (c : N) : bool :=
  ((c =? 10) || (c =? 13) || (c =? 8232) || (c =? 8233))%N.

Definition atomTest (a : atom) (c : N) : bool :=
  match a with
  | AChar d => (c =? d)%N
  | ADot => negb (isLineTerminator c)
  | ARange lo hi => ((lo <=? c) && (c <=? hi))%N
  end.

(** Backtracking matcher in continuation style: [k] is what remains of
    the pattern and receives the rest of the input; the first success in
    priority order (greedy choice first) is returned. *)
Fixpoint plusLoop {R} (p : N -> bool) (s : jsstring)
    (k : jsstring -> option R) : option R :=
  match s with
  | [] => None
  | c :: s' =>
    if p c then
      match plusLoop p s' k with
      | Some r => Some r
      | None => k s'
      end
    else None
  end.

Fixpoint matchRe {R} (r : regex) (s : jsstring)
    (k : jsstring -> option R) : option R :=
  match r with
  | Eps => k s
  | Atom a =>
    match s with
    | c :: s' => if atomTest a c then k s' else None
    | [] => None
    end
  | Seq r1 r2 => matchRe r1 s (fun s1 => matchRe r2 s1 k)
  | Opt r1 =>
    match matchRe r1 s k with
    | Some x => Some x
    | None => k s
    end
  | Plus a => plusLoop (atomTest a) s k
  end.

(** The text matched at the front of [s], if any. *)
Definition matchFront (r : regex) (s : jsstring) : option jsstring :=
  match matchRe r s Some with
  | Some rest => Some (take (length s - length rest) s)
  | None => None
  end.

(** [regex.exec(text)] for a pattern without flags: the first index, from
    the left, at which the pattern matches, with the matched text. *)
Fixpoint execFrom (r : regex) (s : jsstring) (i : nat)
    : option (nat * jsstring) :=
  match matchFront r s with
  | Some m => Some (i, m)
  | None =>
    match s with
    | [] => None
    | _ :: s' => execFrom r s' (S i)
    end
  end.

Definition exec (r : regex) (text : jsstring) : option (nat * jsstring) :=
  execFrom r text 0.

(** A run of pattern characters. *)
Definition lit (w : jsstring) : regex :=
  foldr (fun c r => Seq (Atom (AChar c)) r) Eps w.

(* ===================================================================== *)
(** * CONFIG *)
(* ===================================================================== *)

(** Keys of [CONFIG.SUPPORTED_MIME_TYPES]. *)
Inductive FileType := image | video | audio | pdf.

Record File := {
  fileName : jsstring;       (* [file.name] *)
  mimeType : jsstring;       (* [file.type] *)
  fileSize : N               (* [file.size], in bytes *)
}.

Record MimeInfo := {
  test : jsstring -> bool;
  format : jsstring -> jsstring -> jsstring;
  acceptString : jsstring
}.

Definition MAX_FILE_SIZE : N := (20 * 1024 * 1024)%N.

Definition ASSETS_URL_PREFIX : jsstring := js "https://h1.appinn.me".

(** The entries in declaration order, as [Object.entries] lists them. *)
Definition SUPPORTED_MIME_TYPES : list (FileType * MimeInfo) :=
  [ (image,
     {| test := fun type => startsWith type (js "image/");
        format := fun filename url =>
          js "![" ++ filename ++ js "](" ++ url ++ js ")";
        acceptString := js "image/*" |});
    (video,
     {| test := fun type => startsWith type (js "video/");
        format := fun filename url =>
          js "![" ++ filename ++ js "|video](" ++ url ++ js ")";
        acceptString := js "video/*" |});
    (audio,
     {| test := fun type => startsWith type (js "audio/");
        format := fun filename url =>
          js "![" ++ filename ++ js "|audio](" ++ url ++ js ")";
        acceptString := js "audio/*" |});
    (pdf,
     {| test := fun type => streq type (js "application/pdf");
        format := fun filename url =>
          js "[" ++ filename ++ js "|attachment](" ++ url ++ js ")";
        acceptString := js ".pdf" |}) ].

(** [CONFIG.CONTENT_FORMAT] *)
Definition BEFORE : jsstring := [LF].
Definition AFTER : jsstring := [LF; LF].

(** [CONFIG.ERROR_TYPES]; an error type is the string itself. *)
Definition NETWORK : jsstring := js "network".
Definition SERVER : jsstring := js "server".
Definition PERMISSION : jsstring := js "permission".
Definition FORMAT : jsstring := js "format".
Definition FILETYPE : jsstring := js "filetype".
Definition FILESIZE : jsstring := js "filesize".
Definition UNKNOWN : jsstring := js "unknown".

(* ===================================================================== *)
(** * The world the script runs in *)
(* ===================================================================== *)

(** The textarea, by the properties the script reads and assigns.  An
    assignment stores the assigned number.  The browser moreover keeps
    the selection within the text and in order (an offset past the end
    becomes the length, an end before the start moves the start) and the
    scroll offset within the scrollable range, which depends on the
    layout; this is left out, so model and browser agree on the selection
    as long as the assigned offsets lie within the text, the start before
    the end.  Listeners of the page that react to the ['input'] event are
    left out as well. *)
Record Editor := {
  value : jsstring;
  selectionStart : Z;
  selectionEnd : Z;
  scrollTop : Z
}.

(** What [DOMUtils.saveEditorState] copies out of the textarea. *)
Record EditorState := {
  savedSelectionStart : Z;
  savedSelectionEnd : Z;
  savedScrollTop : Z;
  savedValue : jsstring
}.

(** An entry of [AppState.uploads]. *)
Record UploadRecord := {
  insertPosition : Z;
  placeholderText : jsstring;
  active : bool;
  timestamp : N
}.

Record World := {
  editor : Editor;
  uploads : gmap jsstring UploadRecord;      (* [AppState.uploads] *)
  uploadCounter : N;                         (* [AppState.uploadCounter] *)
  clock : nat -> N;         (* what the successive [Date.now()] return *)
  ticks : nat;              (* how many [Date.now()] were made *)
  inputEvents : nat;        (* ['input'] events dispatched on the editor *)
  alerts : list jsstring;   (* messages shown by [alert], latest first *)
  requests : list (File * jsstring)
                            (* transfers started, latest first *)
}.

Definition M (A : Type) : Type := World -> A * World.

Definition ret {A} (a : A) : M A := fun w => (a, w).

Definition bind {A B} (m : M A) (f : A -> M B) : M B :=
  fun w => let (a, w') := m w in f a w'.

Declare Scope m_scope.
Delimit Scope m_scope with M.
Notation "'do' x <- m ; k" := (bind m (fun x => k))
  (at level 10, x name, m at level 100, k at level 200,
   format "'[v' 'do'  x  <-  m ; '/' k ']'") : m_scope.
Local Open Scope m_scope.

Definition getEditor : M Editor := fun w => (editor w, w).

Definition setEditor (f : Editor -> Editor) : M unit := fun w =>
  (tt, {| editor := f (editor w); uploads := uploads w;
          uploadCounter := uploadCounter w; clock := clock w;
          ticks := ticks w; inputEvents := inputEvents w;
          alerts := alerts w; requests := requests w |}).

Definition setValue (v : jsstring) : M unit :=
  setEditor (fun e => {| value := v; selectionStart := selectionStart e;
                         selectionEnd := selectionEnd e;
                         scrollTop := scrollTop e |}).

Definition setSelectionStart (n : Z) : M unit :=
  setEditor (fun e => {| value := value e; selectionStart := n;
                         selectionEnd := selectionEnd e;
                         scrollTop := scrollTop e |}).

Definition setSelectionEnd (n : Z) : M unit :=
  setEditor (fun e => {| value := value e;
                         selectionStart := selectionStart e;
                         selectionEnd := n; scrollTop := scrollTop e |}).

Definition setScrollTop (n : Z) : M unit :=
  setEditor (fun e => {| value := value e;
                         selectionStart := selectionStart e;
                         selectionEnd := selectionEnd e; scrollTop := n |}).

(** [editor.focus()]: none of the modelled properties changes. *)
Definition focus : M unit := ret tt.

(** [Date.now()] *)
Definition dateNow : M N := fun w =>
  (clock w (ticks w),
   {| editor := editor w; uploads := uploads w;
      uploadCounter := uploadCounter w; clock := clock w;
      ticks := S (ticks w); inputEvents := inputEvents w;
      alerts := alerts w; requests := requests w |}).

(** [alert(message)] *)
Definition alert (message : jsstring) : M unit := fun w =>
  (tt, {| editor := editor w; uploads := uploads w;
          uploadCounter := uploadCounter w; clock := clock w;
          ticks := ticks w; inputEvents := inputEvents w;
          alerts := message :: alerts w; requests := requests w |}).

(** [Logger.log] and [Logger.error] print nothing: [CONFIG.DEBUG] is
    [false]. *)
Definition log : M unit := ret tt.

(** [for (const x of xs) body(x)] and [xs.forEach(body)] *)
Fixpoint forEach {A} (xs : list A) (body : A -> M unit) : M unit :=
  match xs with
  | [] => ret tt
  | x :: xs' => do _ <- body x; forEach xs' body
  end.

(* ===================================================================== *)
(** * AppState *)
(* ===================================================================== *)

Definition generateUploadId : M jsstring :=
  do now <- dateNow;
  fun w =>
    let counter := numberInc (uploadCounter w) in
    (numberToString now ++ js "-" ++ numberToString counter,
     {| editor := editor w; uploads := uploads w;
        uploadCounter := counter; clock := clock w;
        ticks := ticks w; inputEvents := inputEvents w;
        alerts := alerts w; requests := requests w |}).

Definition setUploads
    (f : gmap jsstring UploadRecord -> gmap jsstring UploadRecord)
    : M unit := fun w =>
  (tt, {| editor := editor w; uploads := f (uploads w);
          uploadCounter := uploadCounter w; clock := clock w;
          ticks := ticks w; inputEvents := inputEvents w;
          alerts := alerts w; requests := requests w |}).

Definition addUpload (uploadId : jsstring) (position : Z)
    (placeholderText : jsstring) : M unit :=
  do now <- dateNow;
  setUploads (insert uploadId
    {| insertPosition := position; placeholderText := placeholderText;
       active := true; timestamp := now |}).

Definition removeUpload (uploadId : jsstring) : M unit :=
  setUploads (delete uploadId).

(* ===================================================================== *)
(** * DOMUtils *)
(* ===================================================================== *)

Definition saveEditorState : M EditorState :=
  do e <- getEditor;
  ret {| savedSelectionStart := selectionStart e;
         savedSelectionEnd := selectionEnd e;
         savedScrollTop := scrollTop e;
         savedValue := value e |}.

Definition triggerInputEvent : M unit := fun w =>
  (tt, {| editor := editor w; uploads := uploads w;
          uploadCounter := uploadCounter w; clock := clock w;
          ticks := ticks w; inputEvents := S (inputEvents w);
          alerts := alerts w; requests := requests w |}).

(* ===================================================================== *)
(** * FileUtils *)
(* ===================================================================== *)

Definition getFileType (file : File) : option FileType :=
  match
    List.find (fun entry => test (snd entry) (mimeType file))
      SUPPORTED_MIME_TYPES
  with
  | Some entry => Some (fst entry)
  | None => None
  end.

Record Validation := {
  valid : bool;
  error : option jsstring
}.

Definition validateFile (file : File) : Validation :=
  match getFileType file with
  | None => {| valid := false; error := Some FILETYPE |}
  | Some _ =>
    if (MAX_FILE_SIZE <? fileSize file)%N
    then {| valid := false; error := Some FILESIZE |}
    else {| valid := true; error := None |}
  end.

Definition showFileError (file : File) (errorType : option jsstring)
    : M unit :=
  let message :=
    match errorType with
    | Some t =>
      if streq t FILETYPE
      then js "不支持的文件类型: " ++ mimeType file
      else if streq t FILESIZE
      then js "文件" ++ [34%N] ++ fileName file ++ [34%N] ++ js "超过"
           ++ numberToString (MAX_FILE_SIZE / (1024 * 1024))
           ++ js "MB大小限制，无法上传。"
      else js "文件" ++ [34%N] ++ fileName file ++ [34%N]
           ++ js "无法上传: 未知错误"
    | None =>
      js "文件" ++ [34%N] ++ fileName file ++ [34%N]
      ++ js "无法上传: 未知错误"
    end in
  do _ <- alert message; log.

(* ===================================================================== *)
(** * MarkdownFormatter *)
(* ===================================================================== *)

#[global] Instance FileType_eq_dec : EqDecision FileType.
Proof. solve_decision. Defined.

(** [CONFIG.SUPPORTED_MIME_TYPES[fileType]] *)
Definition mimeInfoOf (fileType : FileType) : option MimeInfo :=
  match
    List.find (fun entry => bool_decide (fst entry = fileType))
      SUPPORTED_MIME_TYPES
  with
  | Some entry => Some (snd entry)
  | None => None
  end.

(** A [File] always has a name, so the default [file_${Date.now()}] of
    the destructuring is never taken. *)
Definition getMarkdownLink (file : File) (url : jsstring) : jsstring :=
  let filename := fileName file in
  match getFileType file with
  | Some fileType =>
    match mimeInfoOf fileType with
    | Some info => format info filename url
    | None => js "[" ++ filename ++ js "](" ++ url ++ js ")"
    end
  | None => js "[" ++ filename ++ js "](" ++ url ++ js ")"
  end.

Definition getPlaceholderText (file : File) (uploadId : jsstring)
    : jsstring :=
  let fileType := getFileType file in
  let prefix :=
    match fileType with
    | Some image | Some video | Some audio => js "!"
    | _ => []
    end in
  let suffix :=
    match fileType with
    | Some video => js "|video"
    | Some audio => js "|audio"
    | Some pdf => js "|attachment"
    | _ => []
    end in
  prefix ++ js "[上传中..." ++ uploadId ++ suffix ++ js "]".

(** What reading a property of an object literal can give: the literals
    of the script hold strings, and every object literal inherits the
    properties of [Object.prototype]. *)
Inductive jsvalue :=
| VUndefined
| VString (s : jsstring)
| VFunction (name : jsstring)      (* a built-in function *)
| VObjectPrototype.                (* [Object.prototype] itself *)

(** The methods of [Object.prototype], by property key, with the name of
    the function found there. *)
Definition objectPrototypeMethods : list (jsstring * jsstring) :=
  [ (js "constructor", js "Object");
    (js "hasOwnProperty", js "hasOwnProperty");
    (js "isPrototypeOf", js "isPrototypeOf");
    (js "propertyIsEnumerable", js "propertyIsEnumerable");
    (js "toLocaleString", js "toLocaleString");
    (js "toString", js "toString");
    (js "valueOf", js "valueOf");
    (js "__defineGetter__", js "__defineGetter__");
    (js "__defineSetter__", js "__defineSetter__");
    (js "__lookupGetter__", js "__lookupGetter__");
    (js "__lookupSetter__", js "__lookupSetter__") ].

(** [obj[key]] for an object literal [obj] with the given own properties:
    own properties first, then the prototype ([__proto__] is the accessor
    that returns the prototype). *)
Definition getProperty (own : list (jsstring * jsstring)) (key : jsstring)
    : jsvalue :=
  match List.find (fun p => streq (fst p) key) own with
  | Some p => VString (snd p)
  | None =>
    match List.find (fun p => streq (fst p) key) objectPrototypeMethods with
    | Some p => VFunction (snd p)
    | None =>
      if streq key (js "__proto__") then VObjectPrototype else VUndefined
    end
  end.

(** Truthiness, as [||] tests it. *)
Definition truthy (v : jsvalue) : bool :=
  match v with
  | VUndefined => false
  | VString s => negb (streq s [])
  | VFunction _ => true
  | VObjectPrototype => true
  end.

(** The text a template literal gives for a value. *)
Definition valueToString (v : jsvalue) : jsstring :=
  match v with
  | VUndefined => js "undefined"
  | VString s => s
  | VFunction name => js "function " ++ name ++ js "() { [native code] }"
  | VObjectPrototype => js "[object Object]"
  end.

(** The literal [errorMessages] of [getFailureText]. *)
Definition errorMessages : list (jsstring * jsstring) :=
  [ (NETWORK, js "网络错误");
    (SERVER, js "服务器错误");
    (PERMISSION, js "权限错误");
    (FORMAT, js "格式错误");
    (FILETYPE, js "类型不支持");
    (FILESIZE, js "文件过大");
    (UNKNOWN, js "未知错误") ].

Definition getFailureText (uploadId errorType : jsstring) : jsstring :=
  let found := getProperty errorMessages errorType in
  let errorMessage :=
    if truthy found then found else VString (js "未知错误") in
  js "[上传失败(" ++ valueToString errorMessage ++ js ")-" ++ uploadId
  ++ js "]".

Definition formatContent (content : jsstring) : jsstring :=
  BEFORE ++ content ++ AFTER.

(* ===================================================================== *)
(** * PlaceholderManager *)
(* ===================================================================== *)

(** What [findPlaceholder] returns for a match. *)
Record Span := {
  start : Z;
  end_ : Z;
  text : jsstring
}.

Definition ch (s : string) : N :=
  match js s with
  | c :: _ => c
  | [] => 0%N
  end.
Arguments ch s%_string : simpl never.

(** The pattern [(!)?\[上传中...${uploadId}(\|[a-z]+)?\]].  The id is pasted
    into the pattern text as it is; the ids of [generateUploadId] are made
    of decimal digits and [-], which stand for themselves in a pattern, so
    the pasted text is the run of the id's characters.  The three dots are
    not escaped and stay wildcards. *)
Definition placeholderPattern (uploadId : jsstring) : regex :=
  Seq (Opt (Atom (AChar (ch "!"))))
  (Seq (Atom (AChar (ch "[")))
  (Seq (lit (js "上传中"))
  (Seq (Atom ADot)
  (Seq (Atom ADot)
  (Seq (Atom ADot)
  (Seq (lit uploadId)
  (Seq (Opt (Seq (Atom (AChar (ch "|"))) (Plus (ARange (ch "a") (ch "z")))))
       (Atom (AChar (ch "]")))))))))).

Definition findPlaceholder (text : jsstring) (uploadId : jsstring)
    : option Span :=
  let regex := placeholderPattern uploadId in
  match exec regex text with
  | Some (index, matched) =>
    Some {| start := Z.of_nat index;
            end_ := Z.of_nat index + jslength matched;
            text := matched |}
  | None => None
  end.

Definition insertPlaceholder (editorState : EditorState)
    (placeholderText uploadId : jsstring)
    (onInserted : option (jsstring -> Z -> M unit)) : M unit :=
  let position := savedSelectionStart editorState in
  let scrollTop := savedScrollTop editorState in
  do e <- getEditor;
  let currentText := value e in
  let completeText := formatContent placeholderText in
  do _ <- setValue (substring currentText 0 position ++ completeText
                    ++ substringFrom currentText position);
  do _ <- triggerInputEvent;
  let newCursorPosition := (position + jslength completeText)%Z in
  do _ <- setSelectionStart newCursorPosition;
  do _ <- setSelectionEnd newCursorPosition;
  do _ <- setScrollTop scrollTop;
  do _ <- focus;
  do _ <- addUpload uploadId position placeholderText;
  match onInserted with
  | Some callback => callback uploadId position
  | None => ret tt
  end.

Definition _adjustCursorPosition (currentState : EditorState)
    (placeholder : Span) (lengthDiff : Z) : M unit :=
  let selectionStart := savedSelectionStart currentState in
  let selectionEnd := savedSelectionEnd currentState in
  let scrollTop := savedScrollTop currentState in
  let '(newSelectionStart, newSelectionEnd) :=
    if (selectionStart <? start placeholder)%Z then
      (selectionStart, selectionEnd)
    else if ((start placeholder <=? selectionStart)
             && (selectionStart <=? end_ placeholder))%Z then
      let newSelectionStart :=
        (start placeholder + (end_ placeholder - start placeholder)
         + lengthDiff)%Z in
      (newSelectionStart, newSelectionStart)
    else if (end_ placeholder <? selectionStart)%Z then
      ((selectionStart + lengthDiff)%Z, (selectionEnd + lengthDiff)%Z)
    else (selectionStart, selectionEnd) in
  do _ <- setSelectionStart newSelectionStart;
  do _ <- setSelectionEnd newSelectionEnd;
  do _ <- setScrollTop scrollTop;
  focus.

Definition _appendToEditor (content : jsstring)
    (onAppended : option (bool -> M unit)) : M unit :=
  do e <- getEditor;
  let currentText := value e in
  let newText :=
    if (0 <? jslength currentText)%Z && negb (endsWith currentText [LF])
    then currentText ++ [LF]
    else currentText in
  let newText := newText ++ formatContent content in
  do _ <- setValue newText;
  do _ <- triggerInputEvent;
  do _ <- setSelectionStart (jslength newText);
  do _ <- setSelectionEnd (jslength newText);
  do _ <- focus;
  match onAppended with
  | Some callback => callback false
  | None => ret tt
  end.

Definition replacePlaceholder (uploadId markdownLink : jsstring)
    (onReplaced : option (bool -> M unit)) : M unit :=
  do currentState <- saveEditorState;
  let currentText := savedValue currentState in
  match findPlaceholder currentText uploadId with
  | None =>
    do _ <- log;
    _appendToEditor markdownLink onReplaced
  | Some placeholder =>
    let originalLength := (end_ placeholder - start placeholder)%Z in
    let newLength := jslength markdownLink in
    let lengthDiff := (newLength - originalLength)%Z in
    let newText :=
      substring currentText 0 (start placeholder) ++ markdownLink
      ++ substringFrom currentText (end_ placeholder) in
    do _ <- setValue newText;
    do _ <- triggerInputEvent;
    do _ <- _adjustCursorPosition currentState placeholder lengthDiff;
    match onReplaced with
    | Some callback => callback true
    | None => ret tt
    end
  end.

(* ===================================================================== *)
(** * UploadService *)
(* ===================================================================== *)

(** What a transfer rejects with: a string, or an [Error] object. *)
Inductive JsError :=
| ErrString (s : jsstring)
| ErrObject (name message : jsstring).

(** [error.toString()] *)
Definition errorToString (error : JsError) : jsstring :=
  match error with
  | ErrString s => s
  | ErrObject name message =>
    if streq name [] then message
    else if streq message [] then name
    else name ++ js ": " ++ message
  end.

Definition _categorizeError (error : JsError) : jsstring :=
  let errorStr := toLowerCase (errorToString error) in
  if includes errorStr (js "network")
     || includes errorStr (js "failed to fetch")
     || includes errorStr (js "网络请求失败")
  then NETWORK
  else if includes errorStr (js "401") || includes errorStr (js "403")
          || includes errorStr (js "permission")
  then PERMISSION
  else if includes errorStr (js "500") || includes errorStr (js "503")
          || includes errorStr (js "服务器")
  then SERVER
  else if includes errorStr (js "解析") || includes errorStr (js "parse")
          || includes errorStr (js "format")
  then FORMAT
  else UNKNOWN.

(** How the request of [performUpload] ends: [onerror], or [onload] with
    a status and the [src] of the first entry of the body, if there is
    one; reading the body may also throw. *)
Inductive Response :=
| OnError
| OnLoad (status : N) (src : option jsstring)
| OnLoadThrows (status : N).

Inductive Settled :=
| Resolved (url : jsstring)
| Rejected (error : JsError).

(** The promise of [performUpload], once the request has ended. *)
Definition performUpload (response : Response) : Settled :=
  match response with
  | OnError => Rejected (ErrString (js "网络请求失败"))
  | OnLoad status src =>
    if negb (status =? 200)%N
    then Rejected (ErrString (js "HTTP错误: " ++ numberToString status))
    else
      match src with
      | Some s =>
        if streq s []
        then Rejected (ErrString (js "无效的响应数据"))
        else Resolved (ASSETS_URL_PREFIX ++ s)
      | None => Rejected (ErrString (js "无效的响应数据"))
      end
  | OnLoadThrows status =>
    if negb (status =? 200)%N
    then Rejected (ErrString (js "HTTP错误: " ++ numberToString status))
    else Rejected (ErrString (js "解析响应数据失败"))
  end.

(** [_executeUpload] up to its [await]: the request is sent. *)
Definition _executeUpload (file : File) (uploadId : jsstring) : M unit :=
  fun w =>
  (tt, {| editor := editor w; uploads := uploads w;
          uploadCounter := uploadCounter w; clock := clock w;
          ticks := ticks w; inputEvents := inputEvents w;
          alerts := alerts w;
          requests := (file, uploadId) :: requests w |}).

(** [_executeUpload] after its [await]. *)
Definition _executeUpload_settled (file : File) (uploadId : jsstring)
    (outcome : Settled) : M unit :=
  match outcome with
  | Resolved url =>
    let markdownLink := getMarkdownLink file url in
    replacePlaceholder uploadId markdownLink
      (Some (fun success =>
         do _ <- log;
         removeUpload uploadId))
  | Rejected error =>
    do _ <- log;
    let errorType := _categorizeError error in
    let failureText := getFailureText uploadId errorType in
    replacePlaceholder uploadId failureText
      (Some (fun _ => removeUpload uploadId))
  end.

Definition uploadFile (file : File) : M unit :=
  do uploadId <- generateUploadId;
  let placeholderText := getPlaceholderText file uploadId in
  do editorState <- saveEditorState;
  insertPlaceholder editorState placeholderText uploadId
    (Some (fun _ _ => _executeUpload file uploadId)).

Definition processFiles (files : list File) : M unit :=
  match files with
  | [] => ret tt
  | _ =>
    forEach files (fun file =>
      let validation := validateFile file in
      if valid validation
      then uploadFile file
      else showFileError file (error validation))
  end.

(* ===================================================================== *)
(** * EventHandlers *)
(* ===================================================================== *)

(** [pasteHandler], given the file found in the clipboard, if any. *)
Definition pasteHandler (clipboardFile : option File) : M unit :=
  match clipboardFile with
  | None => ret tt
  | Some file =>
    let validation := validateFile file in
    if valid validation
    then uploadFile file
    else showFileError file (error validation)
  end.

(* ===================================================================== *)
(** * Notions used to state the properties *)
(* ===================================================================== *)

(** The ids [generateUploadId] makes: decimal digits and [-]. *)
Definition plainChar (c : N) : bool := isDigit c || (c =? ch "-")%N.

Definition plainId (uploadId : jsstring) : bool := forallb plainChar uploadId.

Definition isLower (c : N) : bool := ((ch "a" <=? c) && (c <=? ch "z"))%N.

(** The characters that can follow the three wildcards in a text the
    lookup accepts. *)
Definition tailChar (c : N) : bool :=
  isDigit c || (c =? ch "-")%N || (c =? ch "|")%N || isLower c
  || (c =? ch "]")%N.

(** The words of a regular expression. *)
Fixpoint lang (r : regex) (w : jsstring) : Prop :=
  match r with
  | Eps => w = []
  | Atom a => exists c, w = [c] /\ atomTest a c = true
  | Seq r1 r2 => exists w1 w2, w = w1 ++ w2 /\ lang r1 w1 /\ lang r2 w2
  | Opt r1 => w = [] \/ lang r1 w
  | Plus a => w <> [] /\ Forall (fun c => atomTest a c = true) w
  end.

(** What may stand before [\[上传中] and after the id in a text the lookup
    accepts. *)
Definition okBang (bang : jsstring) : Prop := bang = [] \/ bang = js "!".

Definition okSuffix (suffix : jsstring) : Prop :=
  suffix = [] \/
  exists letters, letters <> [] /\
    Forall (fun c => isLower c = true) letters /\ suffix = ch "|" :: letters.

(** The texts the lookup accepts for an id: an optional [!], [\[上传中],
    any three characters that are not line terminators, the id, an
    optional [|] with one or more lower-case letters, and [\]]. *)
Definition placeholderForm (uploadId w : jsstring) : Prop :=
  exists bang x y z suffix,
    okBang bang /\
    isLineTerminator x = false /\
    isLineTerminator y = false /\
    isLineTerminator z = false /\
    okSuffix suffix /\
    w = bang ++ js "[上传中" ++ [x; y; z] ++ uploadId ++ suffix ++ js "]".

(** [w] occurs in [text] at offset [i]. *)
Definition occursAt (text : jsstring) (i : nat) (w : jsstring) : Prop :=
  exists before after, text = before ++ w ++ after /\ length before = i.

(** The newline [_appendToEditor] puts between the buffer and what it
    appends. *)
Definition separator (buffer : jsstring) : jsstring :=
  if (0 <? jslength buffer)%Z && negb (endsWith buffer [LF])
  then [LF] else [].

(** The counter written after the last [-] of an id. *)
Fixpoint leadingDigits (s : jsstring) : jsstring :=
  match s with
  | c :: s' => if isDigit c then c :: leadingDigits s' else []
  | [] => []
  end.

Definition idCounter (uploadId : jsstring) : N :=
  digitsValue (rev (leadingDigits (rev uploadId))).

(** [n] calls of [generateUploadId] in a row. *)
Fixpoint generateIds (n : nat) : M (list jsstring) :=
  match n with
  | O => ret []
  | S n' =>
    do uploadId <- generateUploadId;
    do rest <- generateIds n';
    ret (uploadId :: rest)
  end.

(** A world with the given textarea, an empty registry and nothing done
    yet. *)
Definition worldOf (e : Editor) (now : nat -> N) : World :=
  {| editor := e; uploads := ∅; uploadCounter := 0%N; clock := now;
     ticks := 0; inputEvents := 0; alerts := []; requests := [] |}.

Definition editorOf (buffer : jsstring) (cursor : Z) : Editor :=
  {| value := buffer; selectionStart := cursor; selectionEnd := cursor;
     scrollTop := 0%Z |}.

(** The tests of [_categorizeError] on the lower-cased description. *)
Definition networkPhrase (s : jsstring) : bool :=
  includes s (js "network") || includes s (js "failed to fetch")
  || includes s (js "网络请求失败").

Definition permissionPhrase (s : jsstring) : bool :=
  includes s (js "401") || includes s (js "403")
  || includes s (js "permission").

Definition serverPhrase (s : jsstring) : bool :=
  includes s (js "500") || includes s (js "503")
  || includes s (js "服务器").

Definition formatPhrase (s : jsstring) : bool :=
  includes s (js "解析") || includes s (js "parse")
  || includes s (js "format").

(** The phrases [_categorizeError] looks for, group by group. *)
Definition networkPhrases : list jsstring :=
  [js "network"; js "failed to fetch"; js "网络请求失败"].
Definition permissionPhrases : list jsstring :=
  [js "401"; js "403"; js "permission"].
Definition serverPhrases : list jsstring :=
  [js "500"; js "503"; js "服务器"].
Definition formatPhrases : list jsstring :=
  [js "解析"; js "parse"; js "format"].

(** [c] is the character [d] of a phrase up to case, as lower-casing sees
    it: [d] itself, the capital letter of [d] when [d] is one of [a]-[z],
    or the Kelvin sign U+212A when [d] is [k]. *)
Definition sameUpToCase (c d : N) : Prop :=
  c = d \/
  ((97 <= d <= 122)%N /\ c = (d - 32)%N) \/
  (d = 107%N /\ c = 8490%N).

(** The phrase [p] occurs in [s] up to case. *)
Definition occursUpToCase (s p : jsstring) : Prop :=
  exists a u b, s = a ++ u ++ b /\ Forall2 sameUpToCase u p.

(** [s] holds one of the phrases up to case. *)
Definition holdsUpToCase (phrases : list jsstring) (s : jsstring) : Prop :=
  exists p, In p phrases /\ occursUpToCase s p.

(** Two characters that differ at most in the case of a Basic Latin
    letter. *)
Definition caseVariant (c d : N) : Prop :=
  c = d \/
  ((65 <= c <= 90)%N /\ d = (c + 32)%N) \/
  ((65 <= d <= 90)%N /\ c = (d + 32)%N).

(** The characters a phrase of the classifier is written in: lower-casing
    leaves them as they are, and the combining dot U+0307 is not one of
    them. *)
Definition phraseUnit (d : N) : bool :=
  negb ((65 <=? d) && (d <=? 90))%N && negb (d =? 8490)%N
  && negb (d =? 304)%N && negb (d =? 775)%N.



(** A call-back that leaves the textarea alone, as those of
    [_executeUpload_settled] do. *)
Definition keepsEditor {A} (callback : option (A -> M unit)) : Prop :=
  forall f, callback = Some f ->
    forall a w, editor (snd (f a w)) = editor w.

Definition keepsEditor2 {A B} (callback : option (A -> B -> M unit))
    : Prop :=
  forall f, callback = Some f ->
    forall a b w, editor (snd (f a b w)) = editor w.


(* ===================================================================== *)
(** * The events behind the handlers *)
(* ===================================================================== *)

(** An entry of [clipboardData.items]: its [kind] and what [getAsFile()]
    returns. *)
Record ClipboardItem := {
  kind : jsstring;
  getAsFile : option File
}.

(** The loop of [FileUtils.getFileFromClipboard]. *)
Fixpoint firstFileItem (items : list ClipboardItem) : option File :=
  match items with
  | [] => None
  | item :: rest =>
    if streq (kind item) (js "file") then getAsFile item
    else firstFileItem rest
  end.

(** [FileUtils.getFileFromClipboard]; [None] stands for a missing
    [clipboardData] or missing [items]. *)
Definition getFileFromClipboard (items : option (list ClipboardItem))
    : option File :=
  match items with
  | None => None
  | Some l => firstFileItem l
  end.

(** [EventHandlers.pasteHandler] on a paste event; the result tells
    whether the event was taken over ([preventDefault]). *)
Definition pasteEvent (items : option (list ClipboardItem)) : M bool :=
  match getFileFromClipboard items with
  | None => ret false
  | Some file => do _ <- pasteHandler (Some file); ret true
  end.

(** [EventHandlers.dropHandler] on a drop event with the given
    [dataTransfer.files], the textarea being the cached editor; the
    result tells whether the event was taken over. *)
Definition dropEvent (files : option (list File)) : M bool :=
  match files with
  | Some (file :: rest) =>
    do _ <- processFiles (file :: rest); ret true
  | _ => ret false
  end.

(** The [change] listener that [uploadButtonClickHandler] puts on its
    file chooser, called with [this.files], the textarea being the cached
    editor. *)
Definition fileInputChange (files : option (list File)) : M unit :=
  match files with
  | Some (file :: rest) => processFiles (file :: rest)
  | _ => ret tt
  end.

(** The user types, selects or scrolls: the textarea becomes any other
    one. *)
Definition userEdit (e : Editor) : M unit := setEditor (fun _ => e).

(** The worlds the script can be in: it starts with an empty registry;
    then files are dropped, pasted or chosen, the user edits, and a
    transfer that was started ends.  (A transfer ends once; the relation
    does not keep track of that and lets it end again, so it holds of
    every world the script can be in, and of some more.) *)
Inductive reachable : World -> Prop :=
| reachable_start e now : reachable (worldOf e now)
| reachable_drop w files :
    reachable w -> reachable (snd (dropEvent files w))
| reachable_paste w items :
    reachable w -> reachable (snd (pasteEvent items w))
| reachable_choose w files :
    reachable w -> reachable (snd (fileInputChange files w))
| reachable_edit w e :
    reachable w -> reachable (snd (userEdit e w))
| reachable_settle w file uploadId response :
    reachable w -> In (file, uploadId) (requests w) ->
    reachable (snd (_executeUpload_settled file uploadId
                      (performUpload response) w)).

(** What the script keeps true of its registry, its counter and the
    transfers it has started ([requests], the newest first): every
    transfer is for a file that passed validation, under an id made of
    digits and [-]; every entry of the registry belongs to a transfer
    that was started and holds the placeholder of its file; and as long
    as the counter counts exactly it is the number of transfers started,
    the [k]-th transfer carrying the number [k] in its id. *)
Definition consistent (w : World) : Prop :=
  Forall (fun r => valid (validateFile (fst r)) = true /\
                   plainId (snd r) = true) (requests w) /\
  (forall uploadId record, uploads w !! uploadId = Some record ->
     exists file, In (file, uploadId) (requests w) /\
       placeholderText record = getPlaceholderText file uploadId /\
       active record = true) /\
  (uploadCounter w <= MAX_EXACT)%N /\
  ((uploadCounter w < MAX_EXACT)%N ->
     uploadCounter w = N.of_nat (length (requests w)) /\
     forall k r, requests w !! k = Some r ->
       idCounter (snd r) = N.of_nat (length (requests w) - k)).

(** What happens to the script, one thing after the other: files are
    dropped, the clipboard is pasted, files are chosen, the user edits,
    a transfer ends with its outcome. *)
Inductive Event :=
| FilesDropped (files : option (list File))
| ClipboardPasted (items : option (list ClipboardItem))
| FilesChosen (files : option (list File))
| UserEdits (e : Editor)
| TransferEnds (file : File) (uploadId : jsstring) (outcome : Settled).

Definition handle (event : Event) : M unit :=
  match event with
  | FilesDropped files => do _ <- dropEvent files; ret tt
  | ClipboardPasted items => do _ <- pasteEvent items; ret tt
  | FilesChosen files => fileInputChange files
  | UserEdits e => userEdit e
  | TransferEnds file uploadId outcome =>
    _executeUpload_settled file uploadId outcome
  end.

Definition run (events : list Event) : M unit := forEach events handle.

(** What a settled transfer puts in place of its placeholder. *)
Definition replacementText (file : File) (uploadId : jsstring)
    (outcome : Settled) : jsstring :=
  match outcome with
  | Resolved url => getMarkdownLink file url
  | Rejected error => getFailureText uploadId (_categorizeError error)
  end.

(** The ids of [n] uploads in a row, each of which reads the clock
    twice (for the id and for the time stamp of the registry). *)
Fixpoint batchIds (n : nat) (now : nat -> N) (tick : nat) (counter : N)
    : list jsstring :=
  match n with
  | O => []
  | S n' =>
    (numberToString (now tick) ++ js "-"
     ++ numberToString (numberInc counter))
    :: batchIds n' now (S (S tick)) (numberInc counter)
  end.

(** What a batch of uploads puts into the buffer: the wrapped placeholder
    of each file, in the order of the files. *)
Fixpoint batchText (files : list File) (ids : list jsstring) : jsstring :=
  match files, ids with
  | file :: files', uploadId :: ids' =>
    formatContent (getPlaceholderText file uploadId) ++ batchText files' ids'
  | _, _ => []
  end.

(* ===================================================================== *)
(** * Strings: basic facts *)
(* ===================================================================== *)

Ltac jsnorm :=
  repeat match goal with
  | |- context [js ?s] =>
    let v := eval vm_compute in (js s) in change (js s) with v
  | |- context [ch ?s] =>
    let v := eval vm_compute in (ch s) in change (ch s) with v
  | H : context [js ?s] |- _ =>
    let v := eval vm_compute in (js s) in change (js s) with v in H
  | H : context [ch ?s] |- _ =>
    let v := eval vm_compute in (ch s) in change (ch s) with v in H
  end.

Lemma streq_spec (s t : jsstring) : streq s t = true <-> s = t.
Proof.
  revert t. induction s as [|c s IH]; intros [|d t]; simpl; try easy.
  rewrite andb_true_iff, N.eqb_eq, IH. split.
  - intros [-> ->]. reflexivity.
  - intros [= -> ->]. auto.
Qed.

Lemma startsWith_spec (s p : jsstring) :
  startsWith s p = true <-> exists r, s = p ++ r.
Proof.
  revert s. induction p as [|c p IH]; intros s; simpl.
  - split; [intros _; exists s; reflexivity | reflexivity].
  - destruct s as [|d s].
    + split; [easy | intros [r [=]]].
    + rewrite andb_true_iff, N.eqb_eq, IH. split.
      * intros [-> [r ->]]. eauto.
      * intros [r [= -> ->]]. eauto.
Qed.

Lemma includes_spec (s p : jsstring) :
  includes s p = true <-> exists a b, s = a ++ p ++ b.
Proof.
  induction s as [|c s IH]; simpl.
  - rewrite orb_false_r, startsWith_spec. split.
    + intros [r ->]. exists [], r. reflexivity.
    + intros (a & b & H). destruct a; [eauto | discriminate].
  - rewrite orb_true_iff, startsWith_spec, IH. split.
    + intros [[r ->] | (a & b & ->)].
      * exists [], r. reflexivity.
      * exists (c :: a), b. reflexivity.
    + intros (a & b & H). destruct a as [|c' a].
      * left. eauto.
      * right. injection H as -> ->. eauto.
Qed.

Lemma includes_mid (a p b : jsstring) : includes (a ++ p ++ b) p = true.
Proof. apply includes_spec. eauto. Qed.

Lemma substring_0 (s : jsstring) (n : Z) :
  substring s 0 n = take (clampIndex s n) s.
Proof.
  unfold substring.
  assert (clampIndex s 0 = 0%nat) as ->.
  { unfold clampIndex, jslength. lia. }
  rewrite Nat.min_0_l, Nat.max_0_l, Nat.sub_0_r. reflexivity.
Qed.

Lemma substringFrom_drop (s : jsstring) (n : Z) :
  substringFrom s n = drop (clampIndex s n) s.
Proof.
  unfold substringFrom, substring.
  assert (clampIndex s (jslength s) = length s) as ->.
  { unfold clampIndex, jslength. lia. }
  assert (clampIndex s n <= length s)%nat.
  { unfold clampIndex, jslength. lia. }
  rewrite Nat.min_l, Nat.max_r by lia.
  apply take_ge. rewrite length_drop. lia.
Qed.

Lemma clampIndex_of_nat (s : jsstring) (i : nat) :
  (i <= length s)%nat -> clampIndex s (Z.of_nat i) = i.
Proof. unfold clampIndex, jslength. lia. Qed.

(* ===================================================================== *)
(** * The matcher against the words of a pattern *)
(* ===================================================================== *)

Section Matcher.
Context {R : Type}.
Implicit Types (k : jsstring -> option R) (s w rest : jsstring).

Lemma plusLoop_sound p s k x :
  plusLoop p s k = Some x ->
  exists w rest, s = w ++ rest /\ w <> [] /\
    Forall (fun c => p c = true) w /\ k rest = Some x.
Proof.
  revert x. induction s as [|c s IH]; intros x; simpl; [easy|].
  destruct (p c) eqn:Hc; [|easy].
  destruct (plusLoop p s k) as [y|] eqn:Hloop.
  - intros [= ->]. destruct (IH _ eq_refl) as (w & rest & -> & _ & Hw & Hk).
    exists (c :: w), rest. repeat split; auto.
  - intros Hk. exists [c], s. repeat split; auto.
Qed.

Lemma plusLoop_complete p w rest k :
  w <> [] -> Forall (fun c => p c = true) w -> is_Some (k rest) ->
  is_Some (plusLoop p (w ++ rest) k).
Proof.
  induction w as [|c w IH]; [easy|]. intros _ Hw Hk.
  inversion_clear Hw as [|? ? Hc Hw']. simpl. rewrite Hc.
  destruct w as [|d w].
  - simpl in *. destruct (plusLoop p rest k); eauto.
  - destruct IH as [y ->]; eauto.
Qed.

Lemma matchRe_sound r : forall s k x,
  matchRe r s k = Some x ->
  exists w rest, s = w ++ rest /\ lang r w /\ k rest = Some x.
Proof.
  induction r as [|a|r1 IH1 r2 IH2|r1 IH1|a]; intros s k x; simpl.
  - intros Hk. exists [], s. auto.
  - destruct s as [|c s]; [easy|]. destruct (atomTest a c) eqn:Hc; [|easy].
    intros Hk. exists [c], s. eauto.
  - intros H. apply IH1 in H as (w1 & s1 & -> & Hw1 & H).
    apply IH2 in H as (w2 & rest & -> & Hw2 & Hk).
    exists (w1 ++ w2), rest. rewrite <- app_assoc. eauto 8.
  - destruct (matchRe r1 s k) as [y|] eqn:H1.
    + intros [= ->]. apply IH1 in H1 as (w & rest & -> & Hw & Hk).
      exists w, rest. auto.
    + intros Hk. exists [], s. auto.
  - intros H. apply plusLoop_sound in H as (w & rest & -> & ? & ? & ?).
    exists w, rest. auto.
Qed.

Lemma matchRe_complete r : forall w rest k,
  lang r w -> is_Some (k rest) -> is_Some (matchRe r (w ++ rest) k).
Proof.
  induction r as [|a|r1 IH1 r2 IH2|r1 IH1|a]; intros w rest k; simpl.
  - intros -> Hk. exact Hk.
  - intros (c & -> & Hc) Hk. simpl. rewrite Hc. exact Hk.
  - intros (w1 & w2 & -> & Hw1 & Hw2) Hk. rewrite <- app_assoc.
    apply IH1; [exact Hw1|]. apply IH2; assumption.
  - intros Hw Hk. destruct (matchRe r1 (w ++ rest) k) eqn:H1; [eauto|].
    destruct Hw as [->|Hw]; [exact Hk|].
    pose proof (IH1 w rest k Hw Hk) as [y Hy]. congruence.
  - intros [Hne Hw] Hk. apply plusLoop_complete; assumption.
Qed.
End Matcher.

Lemma matchFront_sound r s m :
  matchFront r s = Some m -> lang r m /\ exists rest, s = m ++ rest.
Proof.
  unfold matchFront. destruct (matchRe r s Some) as [rest|] eqn:H; [|easy].
  intros [= <-]. apply matchRe_sound in H as (w & rest' & -> & Hw & [= ->]).
  rewrite length_app, Nat.add_sub, take_app_length. eauto.
Qed.

Lemma matchFront_complete r w rest :
  lang r w -> is_Some (matchFront r (w ++ rest)).
Proof.
  intros Hw. unfold matchFront.
  destruct (matchRe_complete r w rest Some Hw) as [y ->]; eauto.
Qed.

Lemma execFrom_Some r s i j m :
  execFrom r s i = Some (j, m) ->
  exists d, j = (i + d)%nat /\ (d <= length s)%nat /\
    matchFront r (drop d s) = Some m /\
    forall d', (d' < d)%nat -> matchFront r (drop d' s) = None.
Proof.
  revert i. induction s as [|c s IH]; intros i; simpl.
  - destruct (matchFront r []) as [m'|] eqn:H0; [|easy].
    intros [= <- <-]. exists 0%nat. repeat split; auto; lia.
  - destruct (matchFront r (c :: s)) as [m'|] eqn:H0.
    + intros [= <- <-]. exists 0%nat. repeat split; auto; lia.
    + intros H. apply IH in H as (d & -> & Hd & Hm & Hmin).
      exists (S d). repeat split; auto; try lia.
      intros [|d'] Hlt; [exact H0|]. apply Hmin. lia.
Qed.

Lemma execFrom_None r s i :
  execFrom r s i = None ->
  forall d, (d <= length s)%nat -> matchFront r (drop d s) = None.
Proof.
  revert i. induction s as [|c s IH]; intros i; simpl.
  - destruct (matchFront r []) eqn:H0; [easy|].
    intros _ d Hd. replace d with 0%nat by lia. exact H0.
  - destruct (matchFront r (c :: s)) eqn:H0; [easy|].
    intros H [|d] Hd; [exact H0|]. simpl. eapply IH; [exact H|lia].
Qed.

(** [exec] finds the leftmost occurrence of a word of the pattern. *)
Lemma exec_Some r text i m :
  exec r text = Some (i, m) ->
  lang r m /\ occursAt text i m /\
  forall j w, lang r w -> occursAt text j w -> (i <= j)%nat.
Proof.
  intros H. apply execFrom_Some in H as (d & -> & Hd & Hm & Hmin).
  simpl. apply matchFront_sound in Hm as [Hlang [rest Hrest]].
  split; [exact Hlang|]. split.
  - exists (take d text), rest. rewrite <- Hrest, take_drop.
    split; [reflexivity|]. rewrite length_take. lia.
  - intros j w Hw (a & b & -> & <-).
    destruct (decide (length a < d)%nat) as [Hlt|]; [|lia].
    specialize (Hmin _ Hlt). rewrite drop_app_length in Hmin.
    destruct (matchFront_complete r w b Hw) as [y Hy]. congruence.
Qed.

Lemma exec_None r text :
  exec r text = None -> forall j w, lang r w -> ~ occursAt text j w.
Proof.
  intros H j w Hw (a & b & -> & <-).
  eapply execFrom_None with (d := length a) in H.
  - rewrite drop_app_length in H.
    destruct (matchFront_complete r w b Hw) as [y Hy]. congruence.
  - rewrite length_app. lia.
Qed.

(* ===================================================================== *)
(** * The words of the placeholder pattern *)
(* ===================================================================== *)

Lemma lang_lit u w : lang (lit u) w <-> w = u.
Proof.
  revert w. induction u as [|c u IH]; intros w; simpl; [easy|].
  split.
  - intros (w1 & w2 & -> & (d & -> & Hd) & Hw2).
    apply N.eqb_eq in Hd as ->. apply IH in Hw2 as ->. reflexivity.
  - intros ->. exists [c], u. split; [reflexivity|]. split.
    + exists c. split; [reflexivity|]. apply N.eqb_refl.
    + apply IH. reflexivity.
Qed.

Lemma lang_char c w : lang (Atom (AChar c)) w <-> w = [c].
Proof.
  simpl. split.
  - intros (d & -> & Hd). apply N.eqb_eq in Hd as ->. reflexivity.
  - intros ->. exists c. split; [reflexivity|]. apply N.eqb_refl.
Qed.

Lemma lang_placeholderPattern uploadId w :
  lang (placeholderPattern uploadId) w <-> placeholderForm uploadId w.
Proof.
  unfold placeholderPattern, placeholderForm. split.
  - intros (w1 & r1 & -> & H1 & w2 & r2 & -> & H2 & w3 & r3 & -> & H3
            & w4 & r4 & -> & (x & -> & Hx) & w5 & r5 & -> & (y & -> & Hy)
            & w6 & r6 & -> & (z & -> & Hz) & w7 & r7 & -> & H7
            & w8 & w9 & -> & H8 & H9).
    apply lang_char in H2 as ->. apply lang_lit in H3 as ->.
    apply lang_lit in H7 as ->. apply lang_char in H9 as ->.
    simpl in Hx, Hy, Hz. apply negb_true_iff in Hx, Hy, Hz.
    exists w1, x, y, z, w8. repeat split; try assumption.
    + destruct H1 as [->|H1]; [left; reflexivity|].
      apply lang_char in H1 as ->. right. reflexivity.
    + destruct H8 as [->|(u & v & -> & Hu & Hne & Hv)]; [left; reflexivity|].
      apply lang_char in Hu as ->. right. exists v. auto.
  - intros (bang & x & y & z & suffix & Hbang & Hx & Hy & Hz & Hsuf & ->).
    exists bang, (js "[上传中" ++ [x; y; z] ++ uploadId ++ suffix ++ js "]").
    split; [reflexivity|]. split.
    { destruct Hbang as [->| ->]; [left; reflexivity|right].
      apply lang_char. reflexivity. }
    exists [ch "["], (js "上传中" ++ [x; y; z] ++ uploadId ++ suffix ++ js "]").
    split; [reflexivity|]. split; [apply lang_char; reflexivity|].
    exists (js "上传中"), ([x; y; z] ++ uploadId ++ suffix ++ js "]").
    split; [reflexivity|]. split; [apply lang_lit; reflexivity|].
    exists [x], ([y; z] ++ uploadId ++ suffix ++ js "]").
    split; [reflexivity|]. split.
    { exists x. simpl. rewrite Hx. auto. }
    exists [y], ([z] ++ uploadId ++ suffix ++ js "]").
    split; [reflexivity|]. split.
    { exists y. simpl. rewrite Hy. auto. }
    exists [z], (uploadId ++ suffix ++ js "]").
    split; [reflexivity|]. split.
    { exists z. simpl. rewrite Hz. auto. }
    exists uploadId, (suffix ++ js "]").
    split; [reflexivity|]. split; [apply lang_lit; reflexivity|].
    exists suffix, (js "]").
    split; [reflexivity|]. split; [|apply lang_char; reflexivity].
    destruct Hsuf as [->|(letters & Hne & Hl & ->)]; [left; reflexivity|].
    right. exists [ch "|"], letters. split; [reflexivity|].
    split; [apply lang_char; reflexivity|]. split; assumption.
Qed.

Lemma terminated_inj (P : N -> bool) a1 x1 r1 a2 x2 r2 :
  Forall (fun c => P c = true) a1 -> Forall (fun c => P c = true) a2 ->
  P x1 = false -> P x2 = false ->
  a1 ++ x1 :: r1 = a2 ++ x2 :: r2 -> a1 = a2 /\ x1 = x2 /\ r1 = r2.
Proof.
  intros H1. revert a2. induction H1 as [|c a1 Hc H1 IH]; intros a2 H2 Hx1 Hx2.
  - destruct H2 as [|d a2 Hd H2]; simpl.
    + intros [= -> ->]. auto.
    + intros [= -> _]. congruence.
  - destruct H2 as [|d a2 Hd H2]; simpl.
    + intros [= -> _]. congruence.
    + intros [= -> H]. destruct (IH a2 H2 Hx1 Hx2 H) as (-> & -> & ->). auto.
Qed.

Lemma placeholderForm_unique uploadId w1 w2 r1 r2 :
  placeholderForm uploadId w1 -> placeholderForm uploadId w2 ->
  w1 ++ r1 = w2 ++ r2 -> w1 = w2.
Proof.
  intros (bang1 & x1 & y1 & z1 & suf1 & Hb1 & _ & _ & _ & Hs1 & ->)
         (bang2 & x2 & y2 & z2 & suf2 & Hb2 & _ & _ & _ & Hs2 & ->) H.
  rewrite <- !app_assoc in H. jsnorm.
  assert (bang1 = bang2 /\
          [x1; y1; z1] ++ uploadId ++ suf1 ++ [93%N] ++ r1 =
          [x2; y2; z2] ++ uploadId ++ suf2 ++ [93%N] ++ r2) as [-> H'].
  { destruct Hb1 as [->| ->], Hb2 as [->| ->]; simpl in H;
      try discriminate; (split; [reflexivity | simpl; congruence]). }
  clear H. injection H' as -> -> -> H. apply app_inv_head in H.
  f_equal. f_equal. f_equal.
  destruct Hs1 as [->|(l1 & _ & Hl1 & ->)], Hs2 as [->|(l2 & _ & Hl2 & ->)];
    simpl in H; try discriminate; [reflexivity|].
  injection H as H.
  apply (terminated_inj isLower) in H as (-> & _); auto.
Qed.

Lemma plainId_Forall uploadId :
  plainId uploadId = true -> Forall (fun c => plainChar c = true) uploadId.
Proof.
  unfold plainId. induction uploadId as [|c u IH]; simpl; [constructor|].
  rewrite andb_true_iff. intros [Hc Hu]. constructor; auto.
Qed.

Lemma plainChar_tailChar c : plainChar c = true -> tailChar c = true.
Proof. unfold plainChar, tailChar. intros ->. reflexivity. Qed.

Lemma isLower_tailChar c : isLower c = true -> tailChar c = true.
Proof.
  unfold tailChar. intros ->. rewrite !orb_true_r. reflexivity.
Qed.

Lemma okSuffix_tailChar suffix :
  okSuffix suffix -> Forall (fun c => tailChar c = true) suffix.
Proof.
  intros [->|(letters & _ & Hl & ->)]; constructor; [reflexivity|].
  eapply Forall_impl; [exact Hl|]. apply isLower_tailChar.
Qed.

Lemma tail_tailChar uploadId suffix :
  plainId uploadId = true -> okSuffix suffix ->
  Forall (fun c => tailChar c = true) (uploadId ++ suffix ++ js "]").
Proof.
  intros Hid Hsuf. apply Forall_app. split.
  - eapply Forall_impl; [apply plainId_Forall, Hid|]. apply plainChar_tailChar.
  - apply Forall_app. split; [apply okSuffix_tailChar, Hsuf|].
    constructor; [reflexivity|constructor].
Qed.

(** Inside the text that follows [\[上传中] and three characters, a second
    [\[上传中] cannot begin. *)
Lemma core_inside x y z tail B d rest :
  tail <> [] -> Forall (fun c => tailChar c = true) tail -> d <> [] ->
  js "[上传中" ++ [x; y; z] ++ tail ++ B = d ++ js "[上传中" ++ rest ->
  exists d', d = js "[上传中" ++ [x; y; z] ++ tail ++ d'.
Proof.
  intros Hne Htail Hd. jsnorm.
  destruct d as [|d0 [|d1 [|d2 [|d3 [|d4 [|d5 [|d6 d]]]]]]]; simpl;
    intros H; try congruence;
    try (destruct tail as [|t tail]; [congruence|];
         inversion Htail as [|? ? Ht _]; simplify_eq/=;
         vm_compute in Ht; discriminate).
  injection H as <- <- <- <- <- <- <- H.
  apply app_eq_inv in H as [(k & -> & Hk)|(k & -> & _)].
  - destruct k as [|c k].
    + exists []. rewrite !app_nil_r. reflexivity.
    + injection Hk as <- _. apply Forall_app in Htail as [_ Ht].
      inversion Ht as [|? ? Hc _]. vm_compute in Hc. discriminate.
  - exists k. reflexivity.
Qed.

Lemma suffix_terminates suffix B :
  okSuffix suffix ->
  exists t r, suffix ++ js "]" ++ B = t :: r /\ plainChar t = false.
Proof.
  intros [->|(letters & _ & _ & ->)]; simpl; eauto.
Qed.

Lemma aligned_same_id id1 id2 x1 y1 z1 suf1 b1 x2 y2 z2 suf2 b2 :
  plainId id1 = true -> plainId id2 = true ->
  okSuffix suf1 -> okSuffix suf2 ->
  js "[上传中" ++ [x1; y1; z1] ++ id1 ++ suf1 ++ js "]" ++ b1 =
  js "[上传中" ++ [x2; y2; z2] ++ id2 ++ suf2 ++ js "]" ++ b2 ->
  id1 = id2.
Proof.
  intros Hid1 Hid2 Hs1 Hs2 H.
  destruct (suffix_terminates suf1 b1 Hs1) as (t1 & r1 & E1 & Ht1).
  destruct (suffix_terminates suf2 b2 Hs2) as (t2 & r2 & E2 & Ht2).
  rewrite E1, E2 in H. apply app_inv_head in H. injection H as _ _ _ H.
  apply (terminated_inj plainChar) in H as [-> _];
    auto using plainId_Forall.
Qed.

Lemma forms_ordered id1 id2 bang1 x1 y1 z1 suf1 bang2 x2 y2 z2 suf2
    a1 b1 a2 b2 :
  plainId id1 = true -> plainId id2 = true -> id1 <> id2 ->
  okBang bang1 -> okBang bang2 -> okSuffix suf1 -> okSuffix suf2 ->
  a1 ++ (bang1 ++ js "[上传中" ++ [x1; y1; z1] ++ id1 ++ suf1 ++ js "]") ++ b1
  = a2 ++ (bang2 ++ js "[上传中" ++ [x2; y2; z2] ++ id2 ++ suf2 ++ js "]")
    ++ b2 ->
  (length (a1 ++ bang1) <= length (a2 ++ bang2))%nat ->
  exists m,
    a2 = a1 ++ (bang1 ++ js "[上传中" ++ [x1; y1; z1] ++ id1 ++ suf1 ++ js "]")
         ++ m.
Proof.
  intros Hid1 Hid2 Hne Hb1 Hb2 Hs1 Hs2 H Hlen.
  assert ((a1 ++ bang1) ++ js "[上传中" ++ [x1; y1; z1] ++ id1 ++ suf1
            ++ js "]" ++ b1
          = (a2 ++ bang2) ++ js "[上传中" ++ [x2; y2; z2] ++ id2 ++ suf2
            ++ js "]" ++ b2) as H'.
  { rewrite <- !app_assoc in H. rewrite <- !app_assoc. exact H. }
  clear H. apply app_eq_inv in H' as [(k & E & Hk)|(k & E & Hk)].
  - (* the first one starts later: then both start together *)
    assert (k = []) as ->.
    { apply (f_equal length) in E.
      rewrite (length_app (a2 ++ bang2)) in E.
      destruct k; [reflexivity|simpl in E; lia]. }
    change ([] ++ ?l) with l in Hk. symmetry in Hk.
    exfalso. apply Hne.
    exact (aligned_same_id _ _ _ _ _ _ _ _ _ _ _ _ Hid1 Hid2 Hs1 Hs2 Hk).
  - destruct k as [|c k].
    { change ([] ++ ?l) with l in Hk.
      exfalso. apply Hne.
      exact (aligned_same_id _ _ _ _ _ _ _ _ _ _ _ _ Hid1 Hid2 Hs1 Hs2 Hk). }
    replace (js "[上传中" ++ [x1; y1; z1] ++ id1 ++ suf1 ++ js "]" ++ b1)
      with (js "[上传中" ++ [x1; y1; z1] ++ (id1 ++ suf1 ++ js "]") ++ b1)
      in Hk by (rewrite <- !app_assoc; reflexivity).
    apply core_inside in Hk as [d Hd]; [| |apply tail_tailChar; auto|easy].
    2:{ destruct id1; [destruct suf1|]; discriminate. }
    rewrite Hd in E. clear Hd.
    destruct Hb2 as [->| ->].
    + rewrite app_nil_r in E. exists d. rewrite E, <- !app_assoc. reflexivity.
    + destruct d as [|e d _] using rev_ind.
      * exfalso. rewrite app_nil_r in E.
        change (js "]") with [ch "]"] in E.
        rewrite !app_assoc in E. apply app_inj_tail in E as [_ E].
        vm_compute in E. discriminate.
      * exists d. rewrite !app_assoc in E. apply app_inj_tail in E as [E _].
        rewrite E, <- !app_assoc. reflexivity.
Qed.

(** Placeholders of two different ids never overlap. *)
Lemma forms_disjoint id1 id2 w1 w2 a1 b1 a2 b2 :
  plainId id1 = true -> plainId id2 = true -> id1 <> id2 ->
  placeholderForm id1 w1 -> placeholderForm id2 w2 ->
  a1 ++ w1 ++ b1 = a2 ++ w2 ++ b2 ->
  (exists m, a2 = a1 ++ w1 ++ m) \/ (exists m, a1 = a2 ++ w2 ++ m).
Proof.
  intros Hid1 Hid2 Hne
    (bang1 & x1 & y1 & z1 & suf1 & Hb1 & _ & _ & _ & Hs1 & ->)
    (bang2 & x2 & y2 & z2 & suf2 & Hb2 & _ & _ & _ & Hs2 & ->) H.
  destruct (decide (length (a1 ++ bang1) <= length (a2 ++ bang2))%nat).
  - left.
    apply (forms_ordered id1 id2 bang1 x1 y1 z1 suf1 bang2 x2 y2 z2 suf2
             a1 b1 a2 b2); auto.
  - right.
    apply (forms_ordered id2 id1 bang2 x2 y2 z2 suf2 bang1 x1 y1 z1 suf1
             a2 b2 a1 b1); auto; lia.
Qed.

(* ===================================================================== *)
(** * findPlaceholder and replacePlaceholder *)
(* ===================================================================== *)

Lemma findPlaceholder_Some buffer uploadId sp :
  findPlaceholder buffer uploadId = Some sp ->
  placeholderForm uploadId (text sp) /\
  (exists a b, buffer = a ++ text sp ++ b /\
     start sp = Z.of_nat (length a) /\
     end_ sp = Z.of_nat (length a + length (text sp))) /\
  forall j w, placeholderForm uploadId w -> occursAt buffer j w ->
    (start sp <= Z.of_nat j)%Z.
Proof.
  unfold findPlaceholder.
  destruct (exec (placeholderPattern uploadId) buffer) as [[i m]|] eqn:H;
    [|easy].
  intros [= <-]. simpl.
  apply exec_Some in H as (Hlang & (a & b & -> & <-) & Hmin).
  split; [apply lang_placeholderPattern, Hlang|]. split.
  - exists a, b. unfold jslength. repeat split; lia.
  - intros j w Hw Hocc. apply lang_placeholderPattern in Hw.
    specialize (Hmin j w Hw Hocc). lia.
Qed.

Lemma findPlaceholder_None buffer uploadId :
  findPlaceholder buffer uploadId = None ->
  forall j w, placeholderForm uploadId w -> ~ occursAt buffer j w.
Proof.
  unfold findPlaceholder.
  destruct (exec (placeholderPattern uploadId) buffer) as [[i m]|] eqn:H;
    [easy|].
  intros _ j w Hw. apply (exec_None _ _ H).
  apply lang_placeholderPattern, Hw.
Qed.

Lemma findPlaceholder_found buffer uploadId j w :
  placeholderForm uploadId w -> occursAt buffer j w ->
  is_Some (findPlaceholder buffer uploadId).
Proof.
  intros Hw Hocc. destruct (findPlaceholder buffer uploadId) eqn:H; [eauto|].
  exfalso. eapply findPlaceholder_None; eauto.
Qed.

(** The textarea after a replacement that found its placeholder. *)
Lemma replacePlaceholder_found uploadId markdownLink onReplaced w sp :
  keepsEditor onReplaced ->
  findPlaceholder (value (editor w)) uploadId = Some sp ->
  let e := editor w in
  let lengthDiff :=
    (jslength markdownLink - (end_ sp - start sp))%Z in
  editor (snd (replacePlaceholder uploadId markdownLink onReplaced w)) =
  {| value := substring (value e) 0 (start sp) ++ markdownLink
              ++ substringFrom (value e) (end_ sp);
     selectionStart :=
       if (selectionStart e <? start sp)%Z then selectionStart e
       else if (selectionStart e <=? end_ sp)%Z
       then (start sp + jslength markdownLink)%Z
       else (selectionStart e + lengthDiff)%Z;
     selectionEnd :=
       if (selectionStart e <? start sp)%Z then selectionEnd e
       else if (selectionStart e <=? end_ sp)%Z
       then (start sp + jslength markdownLink)%Z
       else (selectionEnd e + lengthDiff)%Z;
     scrollTop := scrollTop e |}.
Proof.
  intros Hcb Hfind. unfold replacePlaceholder, bind, saveEditorState, getEditor, ret.
  simpl. rewrite Hfind. simpl.
  assert (forall w', editor (snd (match onReplaced with
            | Some callback => callback true
            | None => fun w0 => (tt, w0) end w')) = editor w') as Hk.
  { intros w'. destruct onReplaced as [f|]; [|reflexivity].
    apply (Hcb f eq_refl). }
  unfold _adjustCursorPosition. simpl.
  destruct (selectionStart (editor w) <? start sp)%Z eqn:Hlt.
  - simpl. unfold bind, focus, ret. simpl. rewrite Hk. reflexivity.
  - assert ((start sp <=? selectionStart (editor w))%Z = true) as -> by lia.
    simpl.
    destruct (selectionStart (editor w) <=? end_ sp)%Z eqn:Hle.
    + unfold bind, focus, ret. simpl. rewrite Hk. simpl. f_equal; lia.
    + assert ((end_ sp <? selectionStart (editor w))%Z = true) as -> by lia.
      unfold bind, focus, ret. simpl. rewrite Hk. reflexivity.
Qed.

Lemma replacePlaceholder_missing uploadId markdownLink onReplaced w :
  keepsEditor onReplaced ->
  findPlaceholder (value (editor w)) uploadId = None ->
  let e := editor w in
  let newText := value e ++ separator (value e) ++ formatContent markdownLink in
  editor (snd (replacePlaceholder uploadId markdownLink onReplaced w)) =
  {| value := newText;
     selectionStart := jslength newText;
     selectionEnd := jslength newText;
     scrollTop := scrollTop e |}.
Proof.
  intros Hcb Hfind.
  unfold replacePlaceholder, bind, saveEditorState, getEditor, ret.
  simpl. rewrite Hfind. unfold log, _appendToEditor, bind, getEditor, ret.
  simpl.
  assert (forall w', editor (snd (match onReplaced with
            | Some callback => callback false
            | None => fun w0 => (tt, w0) end w')) = editor w') as Hk.
  { intros w'. destruct onReplaced as [f|]; [|reflexivity].
    apply (Hcb f eq_refl). }
  unfold focus, ret. simpl. rewrite Hk. simpl. unfold separator.
  destruct ((0 <? jslength (value (editor w)))%Z
            && negb (endsWith (value (editor w)) [LF]));
    rewrite <- ?app_assoc; reflexivity.
Qed.

Lemma removeUpload_keepsEditor uploadId :
  keepsEditor (Some (fun _ : bool => removeUpload uploadId)).
Proof. intros f [= <-] a w. reflexivity. Qed.

Lemma logRemove_keepsEditor uploadId :
  keepsEditor (Some (fun _ : bool => do _ <- log; removeUpload uploadId)).
Proof. intros f [= <-] a w. reflexivity. Qed.

Lemma none_keepsEditor {A} : keepsEditor (@None (A -> M unit)).
Proof. intros f [=]. Qed.

(** The textarea after [uploadFile]. *)
Lemma uploadFile_editor file w :
  let e := editor w in
  let uploadId := fst (generateUploadId w) in
  let completeText := formatContent (getPlaceholderText file uploadId) in
  editor (snd (uploadFile file w)) =
  {| value := substring (value e) 0 (selectionStart e) ++ completeText
              ++ substringFrom (value e) (selectionStart e);
     selectionStart := (selectionStart e + jslength completeText)%Z;
     selectionEnd := (selectionStart e + jslength completeText)%Z;
     scrollTop := scrollTop e |}.
Proof. reflexivity. Qed.

Lemma insertPlaceholder_editor editorState placeholderText uploadId
    onInserted w :
  keepsEditor2 onInserted ->
  let e := editor w in
  let position := savedSelectionStart editorState in
  let completeText := formatContent placeholderText in
  editor (snd (insertPlaceholder editorState placeholderText uploadId
                 onInserted w)) =
  {| value := substring (value e) 0 position ++ completeText
              ++ substringFrom (value e) position;
     selectionStart := (position + jslength completeText)%Z;
     selectionEnd := (position + jslength completeText)%Z;
     scrollTop := savedScrollTop editorState |}.
Proof.
  intros Hcb. unfold insertPlaceholder, bind, getEditor, ret. simpl.
  destruct onInserted as [f|]; [|reflexivity].
  rewrite (Hcb f eq_refl). reflexivity.
Qed.

Lemma getPlaceholderText_cases file uploadId :
  exists bang suffix,
    getPlaceholderText file uploadId =
      bang ++ js "[上传中" ++ js "..." ++ uploadId ++ suffix ++ js "]" /\
    okBang bang /\ okSuffix suffix.
Proof.
  unfold getPlaceholderText.
  destruct (getFileType file) as [[]|].
  - exists (js "!"), []. split; [reflexivity|]. split; [right|left]; reflexivity.
  - exists (js "!"), (js "|video"). split; [reflexivity|].
    split; [right; reflexivity|]. right. exists (js "video").
    split; [easy|]. split; [|reflexivity].
    jsnorm. repeat constructor.
  - exists (js "!"), (js "|audio"). split; [reflexivity|].
    split; [right; reflexivity|]. right. exists (js "audio").
    split; [easy|]. split; [|reflexivity].
    jsnorm. repeat constructor.
  - exists [], (js "|attachment"). split; [reflexivity|].
    split; [left; reflexivity|]. right. exists (js "attachment").
    split; [easy|]. split; [|reflexivity].
    jsnorm. repeat constructor.
  - exists [], []. split; [reflexivity|]. split; left; reflexivity.
Qed.

(** A generated placeholder is a text the lookup accepts. *)
Lemma getPlaceholderText_form file uploadId :
  placeholderForm uploadId (getPlaceholderText file uploadId).
Proof.
  destruct (getPlaceholderText_cases file uploadId)
    as (bang & suffix & -> & Hb & Hs).
  exists bang, (ch "."), (ch "."), (ch "."), suffix.
  repeat split; auto.
Qed.

Lemma tailChar_not_LT c : tailChar c = true -> isLineTerminator c = false.
Proof.
  unfold tailChar, isLineTerminator, isDigit, isLower. jsnorm.
  rewrite !orb_true_iff, !andb_true_iff, !orb_false_iff.
  rewrite !N.leb_le, !N.eqb_eq, !N.eqb_neq. lia.
Qed.

(** No line terminator occurs in a text the lookup accepts. *)
Lemma placeholderForm_no_LT uploadId w :
  plainId uploadId = true -> placeholderForm uploadId w ->
  Forall (fun c => isLineTerminator c = false) w.
Proof.
  intros Hid (bang & x & y & z & suffix & Hb & Hx & Hy & Hz & Hs & ->).
  apply Forall_app. split.
  { destruct Hb as [->| ->]; repeat constructor. }
  jsnorm. repeat (constructor; [first [reflexivity|assumption]|]).
  eapply Forall_impl; [apply (tail_tailChar uploadId suffix Hid Hs)|].
  apply tailChar_not_LT.
Qed.

(* ===================================================================== *)
(** * The text-splice engine *)
(* ===================================================================== *)

Lemma substring_span (buffer a t b : jsstring) :
  buffer = a ++ t ++ b ->
  substring buffer 0 (Z.of_nat (length a)) = a /\
  substringFrom buffer (Z.of_nat (length a + length t)) = b.
Proof.
  intros ->. rewrite substring_0, substringFrom_drop.
  rewrite !clampIndex_of_nat by (rewrite !length_app; lia).
  rewrite take_app_length. split; [reflexivity|].
  rewrite app_assoc, <- length_app. apply drop_app_length.
Qed.

(** The buffer after a replacement that found its placeholder: the
    matched span is cut out and the replacement put in its place. *)
Lemma replacePlaceholder_found_value uploadId markdownLink onReplaced w sp :
  keepsEditor onReplaced ->
  findPlaceholder (value (editor w)) uploadId = Some sp ->
  exists before rest,
    value (editor w) = before ++ text sp ++ rest /\
    start sp = Z.of_nat (length before) /\
    end_ sp = Z.of_nat (length before + length (text sp)) /\
    value (editor (snd (replacePlaceholder uploadId markdownLink
                          onReplaced w)))
    = before ++ markdownLink ++ rest.
Proof.
  intros Hcb Hfind.
  rewrite (replacePlaceholder_found _ _ _ _ _ Hcb Hfind). simpl.
  apply findPlaceholder_Some in Hfind as (_ & (a & b & Hv & Hs & He) & _).
  exists a, b. repeat split; auto.
  destruct (substring_span _ _ _ _ Hv) as [E1 E2].
  rewrite Hs, He, E1, E2. reflexivity.
Qed.




Lemma endsWith_LF (buffer : jsstring) :
  endsWith buffer [LF] = true <-> exists p, buffer = p ++ [LF].
Proof.
  unfold endsWith. rewrite startsWith_spec. simpl. split.
  - intros [r Hr]. exists (rev r).
    rewrite <- (rev_involutive buffer), Hr. reflexivity.
  - intros [p ->]. exists (rev p). rewrite rev_app_distr. reflexivity.
Qed.

(** The separating newline is there exactly when the buffer is not empty
    and does not end in a newline. *)
Lemma separator_spec (buffer : jsstring) :
  (separator buffer = [] /\ (buffer = [] \/ exists p, buffer = p ++ [LF]))
  \/ (separator buffer = [LF] /\ buffer <> [] /\
      forall p, buffer <> p ++ [LF]).
Proof.
  unfold separator.
  destruct (0 <? jslength buffer)%Z eqn:Hlen; simpl.
  - destruct (endsWith buffer [LF]) eqn:Hend; simpl.
    + left. split; [reflexivity|]. right. apply endsWith_LF, Hend.
    + right. split; [reflexivity|]. split.
      * intros ->. discriminate Hlen.
      * intros p Hp. assert (endsWith buffer [LF] = true); [|congruence].
        apply endsWith_LF. eauto.
  - left. split; [reflexivity|]. left.
    destruct buffer; [reflexivity|].
    exfalso. unfold jslength in Hlen. cbn [length] in Hlen.
    apply Z.ltb_ge in Hlen. lia.
Qed.

(** The lookup fails exactly when no text it accepts occurs in the
    buffer. *)
Lemma findPlaceholder_None_iff buffer uploadId :
  findPlaceholder buffer uploadId = None <->
  forall j w, placeholderForm uploadId w -> ~ occursAt buffer j w.
Proof.
  split; [apply findPlaceholder_None|].
  intros H. destruct (findPlaceholder buffer uploadId) as [sp|] eqn:E;
    [|reflexivity].
  apply findPlaceholder_Some in E as (Hform & (a & b & Hv & _) & _).
  exfalso. apply (H (length a) (text sp) Hform). exists a, b. auto.
Qed.

(** C3, as the script behaves.  When the lookup finds no placeholder for
    [uploadId], [replacePlaceholder] appends to the buffer: a separating
    newline if the buffer is not empty and does not end in one, then the
    replacement wrapped as [formatContent] wraps it, that is one newline
    before it and two after it; selection start and end are then the
    length of the new buffer. *)
Theorem replacePlaceholder_fallback uploadId markdownLink onReplaced w :
  plainId uploadId = true ->
  keepsEditor onReplaced ->
  findPlaceholder (value (editor w)) uploadId = None ->
  let buffer := value (editor w) in
  let after :=
    editor (snd (replacePlaceholder uploadId markdownLink onReplaced w)) in
  value after
    = buffer ++ separator buffer ++ [LF] ++ markdownLink ++ [LF; LF] /\
  selectionStart after = jslength (value after) /\
  selectionEnd after = jslength (value after) /\
  ((separator buffer = [] /\ (buffer = [] \/ exists p, buffer = p ++ [LF]))
   \/ (separator buffer = [LF] /\ buffer <> [] /\
       forall p, buffer <> p ++ [LF])).
Proof.
  intros _ Hcb Hfind buffer after. subst after.
  rewrite (replacePlaceholder_missing _ _ _ _ Hcb Hfind). simpl.
  repeat split; auto. apply separator_spec.
Qed.

(** C3 on a buffer without placeholder. *)
Lemma replacePlaceholder_fallback_witness :
  let w := worldOf (editorOf (js "abc") 1) (fun _ => 0%N) in
  value (editor (snd (replacePlaceholder (js "1-1") (js "x") None w)))
  = js "abc" ++ [LF] ++ [LF] ++ js "x" ++ [LF; LF].
Proof.
  intros w.
  destruct (replacePlaceholder_fallback (js "1-1") (js "x") None w)
    as (H & _).
  - reflexivity.
  - intros f Hf. discriminate Hf.
  - vm_compute. reflexivity.
  - rewrite H. vm_compute. reflexivity.
Defined.

(** C3 as stated fails: what is appended is not the bare replacement. *)
Lemma replacePlaceholder_fallback_bare_counterexample :
  let w := worldOf (editorOf (js "abc") 1) (fun _ => 0%N) in
  findPlaceholder (value (editor w)) (js "1-1") = None /\
  value (editor (snd (replacePlaceholder (js "1-1") (js "x") None w)))
  <> js "abc" ++ separator (js "abc") ++ js "x".
Proof.
  split; [vm_compute; reflexivity|]. vm_compute. discriminate.
Qed.

(** C4. In a buffer that holds the placeholders of two different ids,
    [replacePlaceholder] for the first id finds a span and rewrites that
    span only: the text before it and the text after it are kept as they
    are, and the placeholder of the second id lies entirely in one of
    these two kept parts. *)
Theorem replacePlaceholder_frame id1 id2 file1 file2 markdownLink onReplaced
    w j1 a2 b2 :
  plainId id1 = true -> plainId id2 = true -> id1 <> id2 ->
  keepsEditor onReplaced ->
  occursAt (value (editor w)) j1 (getPlaceholderText file1 id1) ->
  value (editor w) = a2 ++ getPlaceholderText file2 id2 ++ b2 ->
  exists sp before rest,
    findPlaceholder (value (editor w)) id1 = Some sp /\
    value (editor w) = before ++ text sp ++ rest /\
    start sp = Z.of_nat (length before) /\
    end_ sp = Z.of_nat (length before + length (text sp)) /\
    value (editor (snd (replacePlaceholder id1 markdownLink onReplaced w)))
      = before ++ markdownLink ++ rest /\
    ((exists m, before = a2 ++ getPlaceholderText file2 id2 ++ m) \/
     (exists m, rest = m ++ getPlaceholderText file2 id2 ++ b2)).
Proof.
  intros Hid1 Hid2 Hne Hcb Hocc1 Hv2.
  destruct (findPlaceholder_found _ id1 _ _
              (getPlaceholderText_form file1 id1) Hocc1) as [sp Hfind].
  destruct (replacePlaceholder_found_value id1 markdownLink onReplaced w sp
              Hcb Hfind) as (before & rest & Hv & Hs & He & Hafter).
  exists sp, before, rest. repeat split; auto.
  apply findPlaceholder_Some in Hfind as (Hform & _ & _).
  pose proof (getPlaceholderText_form file2 id2) as Hform2.
  rewrite Hv in Hv2.
  destruct (forms_disjoint id1 id2 _ _ _ _ _ _ Hid1 Hid2 Hne Hform Hform2 Hv2)
    as [[m Hm]|[m Hm]].
  - right. exists m. rewrite Hm in Hv2. rewrite <- !app_assoc in Hv2.
    apply app_inv_head in Hv2. apply app_inv_head in Hv2. exact Hv2.
  - left. exists m. exact Hm.
Qed.

(** C4 when the second of two uploads is the first to end. *)
Lemma replacePlaceholder_frame_witness :
  let image := {| fileName := js "a.png"; mimeType := js "image/png";
                  fileSize := 1%N |} in
  let w := worldOf (editorOf (js "![上传中...7-1]--![上传中...7-2]") 0)
             (fun _ => 7%N) in
  exists before rest,
    value (editor (snd (replacePlaceholder (js "7-2") (js "XY") None w)))
      = before ++ js "XY" ++ rest /\
    ((exists m, before = [] ++ getPlaceholderText image (js "7-1") ++ m) \/
     (exists m, rest = m ++ getPlaceholderText image (js "7-1")
                       ++ js "--![上传中...7-2]")).
Proof.
  intros image w.
  destruct (replacePlaceholder_frame (js "7-2") (js "7-1") image image
              (js "XY") None w 14 [] (js "--![上传中...7-2]"))
    as (sp & before & rest & _ & _ & _ & _ & Hafter & Hkept).
  - reflexivity.
  - reflexivity.
  - discriminate.
  - intros f Hf. discriminate Hf.
  - exists (js "![上传中...7-1]--"), []. split; reflexivity.
  - reflexivity.
  - exists before, rest. split; assumption.
Defined.

(** C10. The three dots of the search pattern are wildcards: whenever the
    buffer holds, anywhere, a text made of an optional [!], [\[上传中], any
    three characters other than line terminators, the id, an optional [|]
    followed by lower-case letters, and [\]], the lookup succeeds; what it
    returns is the leftmost such text of the buffer, and
    [replacePlaceholder] puts the replacement in its place. *)
Theorem findPlaceholder_wildcards uploadId markdownLink onReplaced w j wd :
  plainId uploadId = true ->
  keepsEditor onReplaced ->
  placeholderForm uploadId wd ->
  occursAt (value (editor w)) j wd ->
  exists sp before rest,
    findPlaceholder (value (editor w)) uploadId = Some sp /\
    placeholderForm uploadId (text sp) /\
    value (editor w) = before ++ text sp ++ rest /\
    start sp = Z.of_nat (length before) /\
    end_ sp = Z.of_nat (length before + length (text sp)) /\
    (length before <= j)%nat /\
    (forall j' w', placeholderForm uploadId w' ->
       occursAt (value (editor w)) j' w' ->
       (length before <= j')%nat /\ (j' = length before -> w' = text sp)) /\
    value (editor (snd (replacePlaceholder uploadId markdownLink
                          onReplaced w)))
      = before ++ markdownLink ++ rest.
Proof.
  intros _ Hcb Hwd Hocc.
  destruct (findPlaceholder_found _ _ _ _ Hwd Hocc) as [sp Hfind].
  destruct (replacePlaceholder_found_value uploadId markdownLink onReplaced
              w sp Hcb Hfind) as (before & rest & Hv & Hs & He & Hafter).
  exists sp, before, rest.
  destruct (findPlaceholder_Some _ _ _ Hfind) as (Hform & _ & Hmin).
  assert (forall j' w', placeholderForm uploadId w' ->
            occursAt (value (editor w)) j' w' ->
            (length before <= j')%nat /\
            (j' = length before -> w' = text sp)) as Hleft.
  { intros j' w' Hw' Hocc'. split.
    - specialize (Hmin j' w' Hw' Hocc'). lia.
    - intros ->. destruct Hocc' as (a' & b' & Hv' & Hlen).
      rewrite Hv in Hv'.
      apply app_inj_1 in Hv' as [_ Hv']; [|congruence].
      symmetry. eapply placeholderForm_unique; eauto. }
  exact (conj Hfind (conj Hform (conj Hv (conj Hs (conj He
    (conj (proj1 (Hleft j wd Hwd Hocc)) (conj Hleft Hafter))))))).
Qed.

(** C10 on a placeholder whose dots were overwritten. *)
Lemma findPlaceholder_wildcards_witness :
  let w := worldOf (editorOf (js "see [上传中abc1000-1|video] and more") 3)
             (fun _ => 1000%N) in
  exists before rest,
    (length before <= 4)%nat /\
    value (editor (snd (replacePlaceholder (js "1000-1") (js "XY") None w)))
      = before ++ js "XY" ++ rest.
Proof.
  intros w.
  assert (placeholderForm (js "1000-1") (js "[上传中abc1000-1|video]"))
    as Hform.
  { exists [], (ch "a"), (ch "b"), (ch "c"), (js "|video").
    split; [left; reflexivity|]. do 3 (split; [reflexivity|]).
    split; [|reflexivity].
    right. exists (js "video"). split; [discriminate|].
    split; [|reflexivity]. vm_compute. repeat constructor. }
  assert (occursAt (value (editor w)) 4 (js "[上传中abc1000-1|video]"))
    as Hocc.
  { exists (js "see "), (js " and more"). split; reflexivity. }
  destruct (findPlaceholder_wildcards (js "1000-1") (js "XY") None w 4
              (js "[上传中abc1000-1|video]") eq_refl none_keepsEditor
              Hform Hocc)
    as (sp & before & rest & _ & _ & _ & _ & _ & Hle & _ & Hafter).
  exists before, rest. split; assumption.
Defined.

(** The same buffer, computed: the edited dots are matched and the whole
    text is replaced. *)
Example findPlaceholder_edited_dots :
  findPlaceholder (js "see [上传中abc1000-1|video] and more") (js "1000-1")
    = Some {| start := 4; end_ := 24; text := js "[上传中abc1000-1|video]" |}
  /\ value (editor (snd (replacePlaceholder (js "1000-1") (js "XY") None
        (worldOf (editorOf (js "see [上传中abc1000-1|video] and more") 3)
           (fun _ => 1000%N)))))
     = js "see XY and more".
Proof. split; vm_compute; reflexivity. Qed.

(* ===================================================================== *)
(** * Inserting a placeholder and finding it again *)
(* ===================================================================== *)

Lemma placeholderForm_no_LF_inside uploadId t u v :
  plainId uploadId = true -> placeholderForm uploadId t ->
  t <> u ++ LF :: v.
Proof.
  intros Hid Hform ->. apply (placeholderForm_no_LT _ _ Hid) in Hform.
  apply Forall_app in Hform as [_ H]. inversion H as [|? ? Hc _].
  discriminate Hc.
Qed.

(** After a newline that follows a text without placeholder, the lookup
    finds the placeholder that comes next. *)
Lemma findPlaceholder_after_newline uploadId p placeholder rest :
  plainId uploadId = true ->
  placeholderForm uploadId placeholder ->
  findPlaceholder p uploadId = None ->
  findPlaceholder (p ++ [LF] ++ placeholder ++ rest) uploadId
  = Some {| start := Z.of_nat (length p) + 1;
            end_ := Z.of_nat (length p) + 1 + jslength placeholder;
            text := placeholder |}.
Proof.
  intros Hid Hform Hnone.
  assert (occursAt (p ++ [LF] ++ placeholder ++ rest) (S (length p))
            placeholder) as Hocc.
  { exists (p ++ [LF]), rest. rewrite <- !app_assoc. split; [reflexivity|].
    rewrite length_app. simpl. lia. }
  destruct (findPlaceholder_found _ _ _ _ Hform Hocc) as [sp Hfind].
  rewrite Hfind.
  apply findPlaceholder_Some in Hfind
    as (Hformt & (a & b & Hv & Hs & He) & Hmin).
  specialize (Hmin _ _ Hform Hocc).
  assert (a = p ++ [LF] /\ text sp = placeholder) as [-> Ht].
  { apply app_eq_inv in Hv as [(k & Hp & Hk)|(k & Ha & Hk)].
    - (* the match begins inside [p] *)
      exfalso.
      apply app_eq_inv in Hk as [(k2 & Ht & Hk2)|(k2 & Hkk & _)].
      + destruct k2 as [|c k2].
        * rewrite app_nil_r in Ht. subst k.
          apply (findPlaceholder_None _ _ Hnone (length a) (text sp) Hformt).
          exists a, []. rewrite app_nil_r. auto.
        * simpl in Hk2. injection Hk2 as <- _.
          exact (placeholderForm_no_LF_inside _ _ _ _ Hid Hformt Ht).
      + subst k.
        apply (findPlaceholder_None _ _ Hnone (length a) (text sp) Hformt).
        exists a, k2. auto.
    - destruct k as [|c k].
      + (* the match begins at the newline *)
        exfalso. simpl in Hk.
        destruct (text sp) as [|c t'] eqn:Et; simpl in *.
        * destruct Hformt as (bang & ? & ? & ? & ? & _ & _ & _ & _ & _ & E).
          destruct bang; discriminate E.
        * injection Hk as <- Hk.
          apply (placeholderForm_no_LF_inside uploadId (LF :: t') [] t'
                   Hid Hformt). reflexivity.
      + injection Hk as <- Hk. subst a.
        rewrite Hs, length_app in Hmin. simpl in Hmin.
        destruct k as [|c k]; [|simpl in Hmin; lia].
        split; [reflexivity|]. simpl in Hk. symmetry.
        eapply placeholderForm_unique; eauto. }
  destruct sp as [s e t]. simpl in *. subst t.
  rewrite Hs, He, !length_app. simpl. unfold jslength. f_equal. f_equal; lia.
Qed.


Lemma executeUpload_keepsEditor2 file uploadId :
  keepsEditor2 (Some (fun (_ : jsstring) (_ : Z) =>
                        _executeUpload file uploadId)).
Proof. intros f [= <-] a b w. reflexivity. Qed.

Lemma none_keepsEditor2 {A B} : keepsEditor2 (@None (A -> B -> M unit)).
Proof. intros f [=]. Qed.

(** C2, as the script behaves.  Insert the placeholder generated for a
    file and an id at the cursor of any buffer, wrapped in its newlines,
    and look the id up: the lookup always succeeds, and what it returns is
    the inserted placeholder, at the place it was inserted, whenever the
    text before the cursor holds nothing that the lookup accepts for this
    id (otherwise the lookup returns that earlier text, the leftmost
    one). *)
Theorem insertPlaceholder_findPlaceholder file uploadId onInserted w :
  plainId uploadId = true ->
  keepsEditor2 onInserted ->
  let e := editor w in
  let placeholder := getPlaceholderText file uploadId in
  let after :=
    editor (snd (insertPlaceholder (fst (saveEditorState w)) placeholder
                   uploadId onInserted w)) in
  let before := substring (value e) 0 (selectionStart e) in
  value after
    = before ++ [LF] ++ placeholder ++ [LF; LF]
      ++ substringFrom (value e) (selectionStart e) /\
  is_Some (findPlaceholder (value after) uploadId) /\
  (findPlaceholder before uploadId = None ->
   findPlaceholder (value after) uploadId
   = Some {| start := jslength before + 1;
             end_ := jslength before + 1 + jslength placeholder;
             text := placeholder |}).
Proof.
  intros Hid Hcb e placeholder after before. subst after.
  rewrite (insertPlaceholder_editor _ _ _ _ _ Hcb). simpl.
  fold e placeholder before. unfold formatContent, BEFORE, AFTER.
  rewrite <- !app_assoc.
  pose proof (getPlaceholderText_form file uploadId) as Hform.
  fold placeholder in Hform.
  split; [reflexivity|]. split.
  - apply (findPlaceholder_found _ _ (length (before ++ [LF])) placeholder
             Hform).
    exists (before ++ [LF]), ([LF; LF] ++ substringFrom (value e)
                                (selectionStart e)).
    rewrite <- !app_assoc. auto.
  - intros Hnone.
    apply (findPlaceholder_after_newline uploadId before placeholder _
             Hid Hform Hnone).
Qed.

(** C2 on a buffer without placeholder. *)
Lemma insertPlaceholder_findPlaceholder_witness :
  let image := {| fileName := js "a.png"; mimeType := js "image/png";
                  fileSize := 1%N |} in
  let w := worldOf (editorOf (js "hello world") 5) (fun _ => 1000%N) in
  findPlaceholder
    (value (editor (snd (insertPlaceholder (fst (saveEditorState w))
                           (getPlaceholderText image (js "1000-1"))
                           (js "1000-1") None w))))
    (js "1000-1")
  = Some {| start := 6; end_ := 21; text := js "![上传中...1000-1]" |}.
Proof.
  intros image w.
  destruct (insertPlaceholder_findPlaceholder image (js "1000-1") None w)
    as (_ & _ & H).
  - reflexivity.
  - apply none_keepsEditor2.
  - rewrite H; [reflexivity|]. vm_compute. reflexivity.
Defined.

(** C2 as stated fails: a buffer that already holds, before the cursor, a
    text the lookup accepts for the id makes the lookup return that text
    and not the inserted placeholder. *)
Lemma insertPlaceholder_findPlaceholder_counterexample :
  let image := {| fileName := js "a.png"; mimeType := js "image/png";
                  fileSize := 1%N |} in
  let w := worldOf (editorOf (js "[上传中...1000-1|x]") 16)
             (fun _ => 1000%N) in
  let placeholder := getPlaceholderText image (js "1000-1") in
  let after :=
    editor (snd (insertPlaceholder (fst (saveEditorState w)) placeholder
                   (js "1000-1") None w)) in
  plainId (js "1000-1") = true /\
  placeholder = js "![上传中...1000-1]" /\
  findPlaceholder (value after) (js "1000-1")
  = Some {| start := 0; end_ := 16; text := js "[上传中...1000-1|x]" |} /\
  js "[上传中...1000-1|x]" <> placeholder.
Proof.
  repeat split; try (vm_compute; reflexivity). vm_compute. discriminate.
Qed.

(* ===================================================================== *)
(** * The upload registry: ids *)
(* ===================================================================== *)

Lemma unitsOfUint_digits d :
  Forall (fun c => isDigit c = true) (unitsOfUint d).
Proof. induction d; simpl; constructor; auto. Qed.

Lemma numberToString_digits n :
  Forall (fun c => isDigit c = true) (numberToString n).
Proof. apply unitsOfUint_digits. Qed.

Lemma digitsValue_unitsOfUint d d' :
  fold_left (fun acc c => (acc * 10 + (c - 48))%N) (unitsOfUint d)
    (DecimalPos.Unsigned.of_lu d')
  = DecimalPos.Unsigned.of_lu (Decimal.revapp d d').
Proof.
  revert d'. induction d; intros d'; simpl; [reflexivity|..];
    rewrite <- IHd; f_equal; simpl DecimalPos.Unsigned.of_lu; lia.
Qed.

(** Reading the rendering of a number back gives the number. *)
Lemma digitsValue_numberToString n : digitsValue (numberToString n) = n.
Proof.
  unfold digitsValue, numberToString.
  change 0%N with (DecimalPos.Unsigned.of_lu Decimal.Nil).
  rewrite digitsValue_unitsOfUint.
  change (Decimal.revapp (N.to_uint n) Decimal.Nil)
    with (Decimal.rev (N.to_uint n)).
  rewrite <- DecimalPos.Unsigned.of_uint_alt.
  apply DecimalN.Unsigned.of_to.
Qed.

Lemma leadingDigits_app ds c rest :
  Forall (fun c => isDigit c = true) ds -> isDigit c = false ->
  leadingDigits (ds ++ c :: rest) = ds.
Proof.
  intros Hds Hc. induction Hds as [|d ds Hd _ IH]; simpl.
  - rewrite Hc. reflexivity.
  - rewrite Hd, IH. reflexivity.
Qed.

(** The counter of an id is the number rendered after its last [-]. *)
Lemma idCounter_render (t : jsstring) (c : N) :
  idCounter (t ++ js "-" ++ numberToString c) = c.
Proof.
  unfold idCounter. rewrite !rev_app_distr. simpl.
  rewrite <- app_assoc. simpl.
  rewrite leadingDigits_app.
  - rewrite rev_involutive. apply digitsValue_numberToString.
  - apply Forall_rev, numberToString_digits.
  - reflexivity.
Qed.

Lemma plainId_render (t c : N) :
  plainId (numberToString t ++ js "-" ++ numberToString c) = true.
Proof.
  unfold plainId. rewrite !forallb_app. 
  assert (forall n, forallb plainChar (numberToString n) = true) as H.
  { intros n. apply forallb_forall. intros x Hx.
    pose proof (numberToString_digits n) as Hd.
    rewrite Forall_forall in Hd. unfold plainChar.
    rewrite (Hd x); [reflexivity|]. apply list_elem_of_In, Hx. }
  rewrite !H. reflexivity.
Qed.

Lemma numberInc_exact (n : N) :
  (n < MAX_EXACT)%N -> numberInc n = (n + 1)%N.
Proof.
  intros H. unfold numberInc. apply N.ltb_lt in H. rewrite H. reflexivity.
Qed.

Lemma generateUploadId_spec w :
  generateUploadId w =
  (numberToString (clock w (ticks w)) ++ js "-"
     ++ numberToString (numberInc (uploadCounter w)),
   {| editor := editor w; uploads := uploads w;
      uploadCounter := numberInc (uploadCounter w); clock := clock w;
      ticks := S (ticks w); inputEvents := inputEvents w;
      alerts := alerts w; requests := requests w |}).
Proof. reflexivity. Qed.

(** The ids of [n] calls in a row, while the counter is exact. *)
Lemma generateIds_lookup n : forall w k uploadId,
  (uploadCounter w + N.of_nat n <= MAX_EXACT)%N ->
  fst (generateIds n w) !! k = Some uploadId ->
  (k < n)%nat /\
  uploadId = numberToString (clock w (ticks w + k)) ++ js "-"
             ++ numberToString (uploadCounter w + N.of_nat k + 1).
Proof.
  induction n as [|n IH]; intros w k uploadId Hbound; [easy|].
  cbn [generateIds]. unfold bind at 1. rewrite generateUploadId_spec.
  unfold bind at 1.
  match goal with |- context [generateIds n ?x] => set (w1 := x) end.
  pose proof (IH w1) as IH1.
  destruct (generateIds n w1) as [rest w'] eqn:Hrest.
  assert (numberInc (uploadCounter w) = (uploadCounter w + 1)%N) as Hinc.
  { apply numberInc_exact. lia. }
  unfold ret. cbn [fst]. rewrite lookup_cons.
  destruct k as [|k].
  - intros H. split; [lia|].
    replace (ticks w + 0)%nat with (ticks w) by lia.
    replace (uploadCounter w + N.of_nat 0 + 1)%N
      with (uploadCounter w + 1)%N by lia.
    rewrite <- Hinc. congruence.
  - intros Hk.
    destruct (IH1 k uploadId) as [Hlt ->];
      [subst w1; cbn [uploadCounter]; rewrite Hinc; lia|exact Hk|].
    split; [lia|]. subst w1. cbn [clock ticks uploadCounter]. rewrite Hinc.
    replace (S (ticks w) + k)%nat with (ticks w + S k)%nat by lia.
    replace (uploadCounter w + 1 + N.of_nat k + 1)%N
      with (uploadCounter w + N.of_nat (S k) + 1)%N by lia.
    reflexivity.
Qed.

Lemma generateIds_length n : forall w, length (fst (generateIds n w)) = n.
Proof.
  induction n as [|n IH]; intros w; [reflexivity|].
  cbn [generateIds]. unfold bind at 1. rewrite generateUploadId_spec.
  unfold bind at 1. specialize (IH {| editor := editor w; uploads := uploads w;
      uploadCounter := numberInc (uploadCounter w); clock := clock w;
      ticks := S (ticks w); inputEvents := inputEvents w;
      alerts := alerts w; requests := requests w |}).
  destruct (generateIds n _) as [rest w'] eqn:Hrest.
  unfold ret. cbn [fst length] in *. lia.
Qed.

(** Every id [generateUploadId] returns is made of digits and [-]. *)
Lemma generateUploadId_plain w : plainId (fst (generateUploadId w)) = true.
Proof. rewrite generateUploadId_spec. apply plainId_render. Qed.

(** C9, as the script behaves.  An id is the text
    [`${Date.now()}-${counter}`].  For any run of calls, whatever the
    clock returns, and as long as the counter stays within the exact
    integers of a Number: the [k]-th id carries the counter value
    [uploadCounter + k + 1] after its hyphen, so the counter carried by a
    later id is strictly greater than the one carried by any earlier id,
    and the ids are pairwise distinct.  (The ids themselves are strings
    and are not increasing as strings.) *)
Theorem generateUploadId_counter_increasing n w :
  (uploadCounter w + N.of_nat n <= MAX_EXACT)%N ->
  let ids := fst (generateIds n w) in
  length ids = n /\
  (forall k uploadId, ids !! k = Some uploadId ->
     uploadId = numberToString (clock w (ticks w + k)) ++ js "-"
                ++ numberToString (uploadCounter w + N.of_nat k + 1) /\
     idCounter uploadId = (uploadCounter w + N.of_nat k + 1)%N) /\
  (forall i j a b, (i < j)%nat -> ids !! i = Some a -> ids !! j = Some b ->
     (idCounter a < idCounter b)%N /\ a <> b) /\
  NoDup ids.
Proof.
  intros Hbound ids.
  assert (forall k uploadId, ids !! k = Some uploadId ->
     uploadId = numberToString (clock w (ticks w + k)) ++ js "-"
                ++ numberToString (uploadCounter w + N.of_nat k + 1) /\
     idCounter uploadId = (uploadCounter w + N.of_nat k + 1)%N) as Hk.
  { intros k uploadId H.
    destruct (generateIds_lookup n w k uploadId Hbound H) as [_ ->].
    split; [reflexivity|]. apply idCounter_render. }
  assert (forall i j a b, (i < j)%nat -> ids !! i = Some a ->
            ids !! j = Some b -> (idCounter a < idCounter b)%N /\ a <> b)
    as Hlt.
  { intros i j a b Hij Ha Hb.
    destruct (Hk i a Ha) as [_ Hca]. destruct (Hk j b Hb) as [_ Hcb].
    assert (idCounter a < idCounter b)%N as H by lia.
    split; [exact H|]. intros ->. lia. }
  split; [apply generateIds_length|]. split; [exact Hk|].
  split; [exact Hlt|].
  apply NoDup_alt. intros i j a Ha Hb.
  destruct (Nat.lt_trichotomy i j) as [H|[H|H]]; [|exact H|].
  - destruct (Hlt i j a a H Ha Hb) as [_ Hne]. congruence.
  - destruct (Hlt j i a a H Hb Ha) as [_ Hne]. congruence.
Qed.

(** C9 on ten calls within one millisecond. *)
Lemma generateUploadId_counter_increasing_witness :
  let w := worldOf (editorOf [] 0) (fun _ => 1000%N) in
  NoDup (fst (generateIds 10 w)).
Proof.
  intros w.
  destruct (generateUploadId_counter_increasing 10 w) as (_ & _ & _ & H).
  - vm_compute. discriminate.
  - exact H.
Defined.

(** C9 as stated fails for the ids themselves: the tenth id of a burst
    within one millisecond is smaller, as a string, than the ninth. *)
Lemma generateUploadId_string_order_counterexample :
  let w := worldOf (editorOf [] 0) (fun _ => 1730000000000%N) in
  let ids := fst (generateIds 10 w) in
  ids !! 8%nat = Some (js "1730000000000-9") /\
  ids !! 9%nat = Some (js "1730000000000-10") /\
  jsLt (js "1730000000000-9") (js "1730000000000-10") = false /\
  jsLt (js "1730000000000-10") (js "1730000000000-9") = true.
Proof. repeat split; vm_compute; reflexivity. Qed.


Lemma numberInc_min (n : N) :
  (n <= MAX_EXACT)%N -> numberInc n = N.min (n + 1) MAX_EXACT.
Proof.
  intros H. unfold numberInc. destruct (n <? MAX_EXACT)%N eqn:E.
  - apply N.ltb_lt in E. lia.
  - apply N.ltb_ge in E. lia.
Qed.

(** The ids of [n] calls in a row, however many: the counter stops at
    [2^53]. *)
Lemma generateIds_lookup_saturating n : forall w k uploadId,
  (uploadCounter w <= MAX_EXACT)%N ->
  fst (generateIds n w) !! k = Some uploadId ->
  uploadId = numberToString (clock w (ticks w + k)) ++ js "-"
             ++ numberToString
                  (N.min (uploadCounter w + N.of_nat k + 1) MAX_EXACT).
Proof.
  induction n as [|n IH]; intros w k uploadId Hbound; [easy|].
  cbn [generateIds]. unfold bind at 1. rewrite generateUploadId_spec.
  unfold bind at 1.
  match goal with |- context [generateIds n ?x] => set (w1 := x) end.
  pose proof (IH w1) as IH1.
  destruct (generateIds n w1) as [rest w'] eqn:Hrest.
  pose proof (numberInc_min _ Hbound) as Hinc.
  unfold ret. cbn [fst]. rewrite lookup_cons.
  destruct k as [|k].
  - intros H.
    replace (ticks w + 0)%nat with (ticks w) by lia.
    replace (uploadCounter w + N.of_nat 0 + 1)%N
      with (uploadCounter w + 1)%N by lia.
    rewrite <- Hinc. congruence.
  - intros Hk.
    rewrite (IH1 k uploadId); [|subst w1; cbn [uploadCounter]; lia|exact Hk].
    subst w1. cbn [clock ticks uploadCounter]. rewrite Hinc.
    replace (S (ticks w) + k)%nat with (ticks w + S k)%nat by lia.
    replace (N.min (N.min (uploadCounter w + 1) MAX_EXACT + N.of_nat k + 1)
               MAX_EXACT)
      with (N.min (uploadCounter w + N.of_nat (S k) + 1) MAX_EXACT) by lia.
    reflexivity.
Qed.

(** Why the bound of [2^53] is there: once the counter has reached it,
    two calls within one millisecond return the same id. *)
Lemma generateUploadId_collision_at_2_53 :
  let w := worldOf (editorOf [] 0) (fun _ => 1000%N) in
  ~ NoDup (fst (generateIds (N.to_nat MAX_EXACT + 1) w)).
Proof.
  intros w Hnodup.
  set (m := N.to_nat MAX_EXACT) in *.
  assert (N.of_nat m = MAX_EXACT) as Hm by apply N2Nat.id.
  assert (0 < m)%nat as Hpos.
  { assert (0 < N.of_nat m)%N; [rewrite Hm; reflexivity|lia]. }
  pose proof (generateIds_length (m + 1) w) as Hlen.
  destruct (lookup_lt_is_Some_2 (fst (generateIds (m + 1) w)) (m - 1))
    as [a Ha]; [lia|].
  destruct (lookup_lt_is_Some_2 (fst (generateIds (m + 1) w)) m)
    as [b Hb]; [lia|].
  assert (a = b) as ->.
  { rewrite (generateIds_lookup_saturating (m + 1) w (m - 1) a);
      [|discriminate|exact Ha].
    rewrite (generateIds_lookup_saturating (m + 1) w m b);
      [|discriminate|exact Hb].
    subst w. cbn [clock uploadCounter worldOf].
    replace (N.min (0 + N.of_nat (m - 1) + 1) MAX_EXACT) with MAX_EXACT by lia.
    replace (N.min (0 + N.of_nat m + 1) MAX_EXACT) with MAX_EXACT by lia.
    reflexivity. }
  rewrite NoDup_alt in Hnodup. specialize (Hnodup _ _ _ Ha Hb). lia.
Qed.

(* ===================================================================== *)
(** * The placeholder codec and the validator *)
(* ===================================================================== *)

(** The category of a file, by its MIME type, in declaration order. *)
Lemma getFileType_spec file :
  getFileType file =
  if startsWith (mimeType file) (js "image/") then Some image
  else if startsWith (mimeType file) (js "video/") then Some video
  else if startsWith (mimeType file) (js "audio/") then Some audio
  else if streq (mimeType file) (js "application/pdf") then Some pdf
  else None.
Proof.
  unfold getFileType, SUPPORTED_MIME_TYPES. cbn [List.find test snd fst].
  destruct (startsWith (mimeType file) (js "image/")); [reflexivity|].
  destruct (startsWith (mimeType file) (js "video/")); [reflexivity|].
  destruct (startsWith (mimeType file) (js "audio/")); [reflexivity|].
  destruct (streq (mimeType file) (js "application/pdf")); reflexivity.
Qed.

(** C6. The placeholder of a file and an id is
    prefix + [\[上传中...] + id + suffix + [\]], with prefix [!] for the
    image, video and audio categories and none otherwise, and suffix
    [|video], [|audio], [|attachment] (for pdf) or none; the id is a
    substring of it. *)
Theorem getPlaceholderText_shape file uploadId :
  let prefix :=
    match getFileType file with
    | Some image | Some video | Some audio => js "!"
    | Some pdf | None => []
    end in
  let suffix :=
    match getFileType file with
    | Some video => js "|video"
    | Some audio => js "|audio"
    | Some pdf => js "|attachment"
    | Some image | None => []
    end in
  getPlaceholderText file uploadId
    = prefix ++ js "[上传中..." ++ uploadId ++ suffix ++ js "]" /\
  includes (getPlaceholderText file uploadId) uploadId = true /\
  (exists before after,
     getPlaceholderText file uploadId = before ++ uploadId ++ after).
Proof.
  intros prefix suffix.
  assert (getPlaceholderText file uploadId
          = prefix ++ js "[上传中..." ++ uploadId ++ suffix ++ js "]") as E.
  { unfold getPlaceholderText, prefix, suffix.
    destruct (getFileType file) as [[]|]; reflexivity. }
  split; [exact E|]. rewrite E.
  replace (prefix ++ js "[上传中..." ++ uploadId ++ suffix ++ js "]")
    with ((prefix ++ js "[上传中...") ++ uploadId ++ (suffix ++ js "]"))
    by (rewrite <- !app_assoc; reflexivity).
  split; [apply includes_mid|]. eauto.
Qed.

(** The placeholders of the five classifications, written out. *)
Example getPlaceholderText_examples :
  let file t := {| fileName := js "f"; mimeType := js t; fileSize := 1%N |} in
  getPlaceholderText (file "image/png") (js "1000-1")
    = js "![上传中...1000-1]" /\
  getPlaceholderText (file "video/mp4") (js "1000-1")
    = js "![上传中...1000-1|video]" /\
  getPlaceholderText (file "audio/ogg") (js "1000-1")
    = js "![上传中...1000-1|audio]" /\
  getPlaceholderText (file "application/pdf") (js "1000-1")
    = js "[上传中...1000-1|attachment]" /\
  getPlaceholderText (file "text/plain") (js "1000-1")
    = js "[上传中...1000-1]".
Proof. repeat split; vm_compute; reflexivity. Qed.


(** What the handlers do with a file that fails validation: one [alert],
    and nothing else. *)
Lemma rejected_only_alerts file w :
  valid (validateFile file) = false ->
  exists message,
    snd (processFiles [file] w) = snd (alert message w) /\
    snd (pasteHandler (Some file) w) = snd (alert message w).
Proof.
  intros Hv. unfold processFiles, pasteHandler, forEach. rewrite Hv.
  unfold showFileError.
  match goal with |- context [alert ?m] => exists m end.
  split; reflexivity.
Qed.

Lemma forEach_cons_run {A} (x : A) xs body w :
  forEach (x :: xs) body w = forEach xs body (snd (body x w)).
Proof.
  cbn [forEach]. unfold bind. destruct (body x w). reflexivity.
Qed.

Lemma forEach_rejected files : forall w,
  Forall (fun file => valid (validateFile file) = false) files ->
  let w' := snd (processFiles files w) in
  editor w' = editor w /\ uploads w' = uploads w /\
  requests w' = requests w /\ uploadCounter w' = uploadCounter w.
Proof.
  assert (forall w,
    Forall (fun file => valid (validateFile file) = false) files ->
    let w' := snd (forEach files (fun file =>
      let validation := validateFile file in
      if valid validation then uploadFile file
      else showFileError file (error validation)) w) in
    editor w' = editor w /\ uploads w' = uploads w /\
    requests w' = requests w /\ uploadCounter w' = uploadCounter w) as H.
  { induction files as [|file files IH]; intros w Hall; [easy|].
    inversion_clear Hall as [|? ? Hv Hrest].
    rewrite forEach_cons_run. cbv zeta. rewrite Hv.
    destruct (IH (snd (showFileError file (error (validateFile file)) w))
                Hrest) as (E1 & E2 & E3 & E4).
    cbv zeta in E1, E2, E3, E4. rewrite E1, E2, E3, E4.
    repeat split; reflexivity. }
  intros w Hall. destruct files as [|file files]; [easy|].
  exact (H w Hall).
Qed.

(** C7. [validateFile] answers [filetype] when the MIME type belongs to
    no supported category, [filesize] when it belongs to one and the size
    exceeds the maximum of 20 MiB, and valid otherwise.  A file that fails
    validation is only announced by an [alert]: no placeholder is
    inserted, the buffer and the rest of the textarea stay as they are, no
    upload is registered and no transfer is started. *)
Theorem validateFile_rejects_before_insertion file :
  MAX_FILE_SIZE = (20 * 2 ^ 20)%N /\
  (getFileType file = None ->
   validateFile file = {| valid := false; error := Some FILETYPE |}) /\
  (getFileType file <> None -> (MAX_FILE_SIZE < fileSize file)%N ->
   validateFile file = {| valid := false; error := Some FILESIZE |}) /\
  (getFileType file <> None -> (fileSize file <= MAX_FILE_SIZE)%N ->
   validateFile file = {| valid := true; error := None |}) /\
  (valid (validateFile file) = false ->
   forall w,
     let dropped := snd (processFiles [file] w) in
     let pasted := snd (pasteHandler (Some file) w) in
     editor dropped = editor w /\ uploads dropped = uploads w /\
     requests dropped = requests w /\
     uploadCounter dropped = uploadCounter w /\
     editor pasted = editor w /\ uploads pasted = uploads w /\
     requests pasted = requests w /\
     uploadCounter pasted = uploadCounter w /\
     length (alerts dropped) = S (length (alerts w))).
Proof.
  split; [reflexivity|]. unfold validateFile.
  split; [intros ->; reflexivity|].
  split.
  { intros Ht Hs. destruct (getFileType file); [|congruence].
    apply N.ltb_lt in Hs. rewrite Hs. reflexivity. }
  split.
  { intros Ht Hs. destruct (getFileType file); [|congruence].
    apply N.ltb_ge in Hs. rewrite Hs. reflexivity. }
  intros Hv w.
  destruct (rejected_only_alerts file w Hv) as (message & -> & ->).
  repeat split; reflexivity.
Qed.

(** C7 on a file of 25 MB: rejected for its size, the buffer untouched. *)
Lemma validateFile_25MB_witness :
  let file := {| fileName := js "big.png"; mimeType := js "image/png";
                 fileSize := (25 * 1024 * 1024)%N |} in
  let w := worldOf (editorOf (js "hello") 2) (fun _ => 1000%N) in
  validateFile file = {| valid := false; error := Some FILESIZE |} /\
  editor (snd (processFiles [file] w)) = editor w.
Proof.
  intros file w.
  destruct (validateFile_rejects_before_insertion file)
    as (_ & _ & Hsize & _ & Hkept).
  split.
  - apply Hsize; [vm_compute; discriminate|vm_compute; reflexivity].
  - apply Hkept. vm_compute. reflexivity.
Defined.

(* ===================================================================== *)
(** * Failure markers and the error classifier *)
(* ===================================================================== *)




(** The messages of the seven error types. *)
Lemma getFailureText_taxonomy uploadId :
  getFailureText uploadId NETWORK
    = js "[上传失败(网络错误)-" ++ uploadId ++ js "]" /\
  getFailureText uploadId SERVER
    = js "[上传失败(服务器错误)-" ++ uploadId ++ js "]" /\
  getFailureText uploadId PERMISSION
    = js "[上传失败(权限错误)-" ++ uploadId ++ js "]" /\
  getFailureText uploadId FORMAT
    = js "[上传失败(格式错误)-" ++ uploadId ++ js "]" /\
  getFailureText uploadId FILETYPE
    = js "[上传失败(类型不支持)-" ++ uploadId ++ js "]" /\
  getFailureText uploadId FILESIZE
    = js "[上传失败(文件过大)-" ++ uploadId ++ js "]" /\
  getFailureText uploadId UNKNOWN
    = js "[上传失败(未知错误)-" ++ uploadId ++ js "]".
Proof. repeat split; reflexivity. Qed.




Lemma categorizeError_unfold error :
  let s := toLowerCase (errorToString error) in
  _categorizeError error =
  if networkPhrase s then NETWORK
  else if permissionPhrase s then PERMISSION
  else if serverPhrase s then SERVER
  else if formatPhrase s then FORMAT
  else UNKNOWN.
Proof. reflexivity. Qed.

Lemma toLowerCase_app s t :
  toLowerCase (s ++ t) = toLowerCase s ++ toLowerCase t.
Proof. apply flat_map_app. Qed.

(** After the transfer has settled, whatever the outcome and whether or
    not the placeholder was found, the upload is no longer registered. *)
Lemma settled_uploads file uploadId outcome w :
  uploads (snd (_executeUpload_settled file uploadId outcome w))
  = delete uploadId (uploads w).
Proof.
  destruct outcome as [url|error];
    cbv [_executeUpload_settled replacePlaceholder bind saveEditorState
         getEditor ret log savedValue];
    match goal with
    | |- context [findPlaceholder ?b ?i] => destruct (findPlaceholder b i)
    end;
    cbv [_adjustCursorPosition _appendToEditor bind getEditor ret focus];
    repeat match goal with
    | |- context [if ?c then _ else _] => destruct c
    end; reflexivity.
Qed.

(** The buffer after a transfer that succeeded and whose placeholder is
    found. *)
Lemma settled_resolved_value file uploadId url w sp :
  findPlaceholder (value (editor w)) uploadId = Some sp ->
  exists before rest,
    value (editor w) = before ++ text sp ++ rest /\
    start sp = Z.of_nat (length before) /\
    value (editor (snd (_executeUpload_settled file uploadId
                          (Resolved url) w)))
    = before ++ getMarkdownLink file url ++ rest.
Proof.
  intros Hfind. unfold _executeUpload_settled.
  destruct (replacePlaceholder_found_value uploadId
              (getMarkdownLink file url)
              (Some (fun _ : bool => do _ <- log; removeUpload uploadId))
              w sp (logRemove_keepsEditor uploadId) Hfind)
    as (before & rest & Hv & Hs & _ & Hafter).
  exists before, rest. auto.
Qed.

(** The buffer after a failed transfer whose placeholder is found. *)
Lemma settled_rejected_value file uploadId error w sp :
  findPlaceholder (value (editor w)) uploadId = Some sp ->
  exists before rest,
    value (editor w) = before ++ text sp ++ rest /\
    start sp = Z.of_nat (length before) /\
    value (editor (snd (_executeUpload_settled file uploadId
                          (Rejected error) w)))
    = before ++ getFailureText uploadId (_categorizeError error) ++ rest.
Proof.
  intros Hfind. unfold _executeUpload_settled.
  change (bind log ?k w) with (k tt w). cbv beta.
  destruct (replacePlaceholder_found_value uploadId
              (getFailureText uploadId (_categorizeError error))
              (Some (fun _ : bool => removeUpload uploadId)) w sp
              (removeUpload_keepsEditor uploadId) Hfind)
    as (before & rest & Hv & Hs & _ & Hafter).
  exists before, rest. auto.
Qed.



(** Which characters lower-casing turns into a character of a phrase. *)
Lemma lowerUnits_phrase c d :
  phraseUnit d = true -> (lowerUnits c = [d] <-> sameUpToCase c d).
Proof.
  unfold phraseUnit, lowerUnits, sameUpToCase. intros Hd.
  apply andb_true_iff in Hd as [Hd H775].
  apply andb_true_iff in Hd as [Hd H304].
  apply andb_true_iff in Hd as [Hup H8490].
  apply negb_true_iff in Hup, H8490, H304, H775.
  apply N.eqb_neq in H8490, H304, H775.
  assert (~ (65 <= d <= 90)%N) as Hnup.
  { intros [H1 H2]. apply N.leb_le in H1, H2. rewrite H1, H2 in Hup.
    discriminate Hup. }
  clear Hup.
  destruct ((65 <=? c) && (c <=? 90))%N eqn:Ec.
  - apply andb_true_iff in Ec as [E1 E2]. apply N.leb_le in E1, E2.
    split; [intros [= H]; lia | intros H; f_equal; lia].
  - assert (~ (65 <= c <= 90)%N) as Hc.
    { intros [H1 H2]. apply N.leb_le in H1, H2. rewrite H1, H2 in Ec.
      discriminate Ec. }
    clear Ec. destruct (c =? 8490)%N eqn:Ek.
    + apply N.eqb_eq in Ek. subst c.
      split; [intros [= H]; lia | intros H; f_equal; lia].
    + apply N.eqb_neq in Ek. destruct (c =? 304)%N eqn:Ei.
      * apply N.eqb_eq in Ei. subst c.
        split; [intros [= ] | intros H; exfalso; lia].
      * apply N.eqb_neq in Ei.
        split; [intros [= H]; lia | intros H; f_equal; lia].
Qed.

Lemma last_cons_cons {A} (x y : A) l : last (x :: y :: l) = last (y :: l).
Proof. reflexivity. Qed.

(** A phrase at the front of the lower-cased text is the phrase, up to
    case, at the front of the text. *)
Lemma startsWith_lower p : forall s,
  forallb phraseUnit p = true -> last p <> Some 105%N ->
  (startsWith (toLowerCase s) p = true <->
   exists u r, s = u ++ r /\ Forall2 sameUpToCase u p).
Proof.
  induction p as [|d p IH]; intros s Hp Hlast.
  - split; [|reflexivity]. intros _. exists [], s. split; [reflexivity|].
    constructor.
  - cbn [forallb] in Hp. apply andb_true_iff in Hp as [Hd Hp].
    assert (last p <> Some 105%N \/ p = []) as Hlast'.
    { destruct p as [|d' p']; [right; reflexivity|left].
      rewrite last_cons_cons in Hlast. exact Hlast. }
    destruct s as [|c s].
    + split; [discriminate|].
      intros (u & r & Hs & Hu). symmetry in Hs.
      apply app_eq_nil in Hs as [-> _]. inversion Hu.
    + unfold toLowerCase. cbn [flat_map]. fold (toLowerCase s).
      pose proof (lowerUnits_phrase c d Hd) as Hcd.
      assert ((exists u r, c :: s = u ++ r /\ Forall2 sameUpToCase u (d :: p))
              <-> sameUpToCase c d /\
                  exists u r, s = u ++ r /\ Forall2 sameUpToCase u p) as ->.
      { split.
        - intros (u & r & Hs & Hu). inversion Hu as [|c' d' u' p' Hc Hu'].
          subst. injection Hs as <- ->. split; [exact Hc|]. eauto.
        - intros (Hc & u & r & -> & Hu). exists (c :: u), r.
          split; [reflexivity|]. constructor; assumption. }
      destruct (lowerUnits c) as [|x [|y l]] eqn:El.
      * (* no character has an empty lower-case form *)
        exfalso. unfold lowerUnits in El.
        destruct ((65 <=? c) && (c <=? 90))%N; [discriminate|].
        destruct (c =? 8490)%N; [discriminate|].
        destruct (c =? 304)%N; discriminate.
      * cbn [app startsWith]. rewrite andb_true_iff, N.eqb_eq.
        assert (x = d <-> sameUpToCase c d) as <-.
        { rewrite <- Hcd. split; [intros ->; reflexivity|intros [= ->]].
          reflexivity. }
        destruct Hlast' as [Hl| ->].
        -- rewrite (IH s Hp Hl). reflexivity.
        -- split; [intros [-> _]|intros [-> _]]; split; try reflexivity.
           exists [], s. split; [reflexivity|constructor].
      * (* the two-character form of U+0130 *)
        assert (x = 105%N /\ y = 775%N /\ l = []) as (-> & -> & ->).
        { unfold lowerUnits in El.
          destruct ((65 <=? c) && (c <=? 90))%N; [discriminate|].
          destruct (c =? 8490)%N; [discriminate|].
          destruct (c =? 304)%N; [|discriminate].
          injection El as <- <-. auto. }
        assert (~ sameUpToCase c d) as Hno.
        { rewrite <- Hcd. discriminate. }
        split; [|tauto]. intros H. exfalso.
        cbn [app startsWith] in H. apply andb_true_iff in H as [Hx H].
        apply N.eqb_eq in Hx. subst d.
        destruct p as [|d' p'].
        -- apply Hlast. reflexivity.
        -- cbn [startsWith] in H. apply andb_true_iff in H as [Hy _].
           apply N.eqb_eq in Hy. subst d'. cbn [forallb] in Hp.
           apply andb_true_iff in Hp as [Hp _]. discriminate Hp.
Qed.

(** A phrase in the lower-cased text is the phrase, up to case, in the
    text. *)
Lemma includes_lower p s :
  p <> [] -> forallb phraseUnit p = true -> last p <> Some 105%N ->
  (includes (toLowerCase s) p = true <-> occursUpToCase s p).
Proof.
  intros Hne Hp Hlast. unfold occursUpToCase.
  induction s as [|c s IH].
  - cbn [toLowerCase flat_map includes]. rewrite orb_false_r.
    split.
    + destruct p; [congruence|discriminate].
    + intros (a & u & b & Hs & Hu). symmetry in Hs.
      apply app_eq_nil in Hs as [_ Hs]. apply app_eq_nil in Hs as [-> _].
      inversion Hu. congruence.
  - assert (includes (toLowerCase (c :: s)) p
            = startsWith (toLowerCase (c :: s)) p
              || includes (toLowerCase s) p) as ->.
    { unfold toLowerCase. cbn [flat_map]. fold (toLowerCase s).
      destruct (lowerUnits c) as [|x [|y l]] eqn:El.
      - exfalso. unfold lowerUnits in El.
        destruct ((65 <=? c) && (c <=? 90))%N; [discriminate|].
        destruct (c =? 8490)%N; [discriminate|].
        destruct (c =? 304)%N; discriminate.
      - reflexivity.
      - assert (y = 775%N /\ l = []) as (-> & ->).
        { unfold lowerUnits in El.
          destruct ((65 <=? c) && (c <=? 90))%N; [discriminate|].
          destruct (c =? 8490)%N; [discriminate|].
          destruct (c =? 304)%N; [|discriminate].
          injection El as _ <-. auto. }
        cbn [app includes]. 
        assert (startsWith (775%N :: toLowerCase s) p = false) as ->.
        { destruct p as [|d p']; [congruence|]. cbn [startsWith].
          cbn [forallb] in Hp. apply andb_true_iff in Hp as [Hd _].
          destruct (775 =? d)%N eqn:E; [|reflexivity].
          apply N.eqb_eq in E. subst d. discriminate Hd. }
        reflexivity. }
    rewrite orb_true_iff, IH, (startsWith_lower p (c :: s) Hp Hlast).
    split.
    + intros [(u & r & Hs & Hu)|(a & u & b & -> & Hu)].
      * exists [], u, r. auto.
      * exists (c :: a), u, b. auto.
    + intros ([|c' a] & u & b & Hs & Hu).
      * left. exists u, b. auto.
      * right. injection Hs as <- ->. exists a, u, b. auto.
Qed.

Lemma holdsUpToCase_three p1 p2 p3 s :
  (p1 <> [] /\ forallb phraseUnit p1 = true /\ last p1 <> Some 105%N) ->
  (p2 <> [] /\ forallb phraseUnit p2 = true /\ last p2 <> Some 105%N) ->
  (p3 <> [] /\ forallb phraseUnit p3 = true /\ last p3 <> Some 105%N) ->
  includes (toLowerCase s) p1 || includes (toLowerCase s) p2
  || includes (toLowerCase s) p3 = true
  <-> holdsUpToCase [p1; p2; p3] s.
Proof.
  intros (A1 & B1 & C1) (A2 & B2 & C2) (A3 & B3 & C3).
  rewrite !orb_true_iff, (includes_lower p1 s A1 B1 C1),
    (includes_lower p2 s A2 B2 C2), (includes_lower p3 s A3 B3 C3).
  unfold holdsUpToCase. split.
  - intros [[H|H]|H]; [exists p1|exists p2|exists p3];
      (split; [cbn [In]; tauto|exact H]).
  - intros (p & Hin & H). cbn [In] in Hin.
    destruct Hin as [<-|[<-|[<-|[]]]]; tauto.
Qed.

Ltac phrase_ok :=
  split; [vm_compute; discriminate|];
  split; [vm_compute; reflexivity | vm_compute; discriminate].

Lemma networkPhrase_lower s :
  networkPhrase (toLowerCase s) = true <-> holdsUpToCase networkPhrases s.
Proof. apply holdsUpToCase_three; phrase_ok. Qed.

Lemma permissionPhrase_lower s :
  permissionPhrase (toLowerCase s) = true
  <-> holdsUpToCase permissionPhrases s.
Proof. apply holdsUpToCase_three; phrase_ok. Qed.

Lemma serverPhrase_lower s :
  serverPhrase (toLowerCase s) = true <-> holdsUpToCase serverPhrases s.
Proof. apply holdsUpToCase_three; phrase_ok. Qed.

Lemma formatPhrase_lower s :
  formatPhrase (toLowerCase s) = true <-> holdsUpToCase formatPhrases s.
Proof. apply holdsUpToCase_three; phrase_ok. Qed.

(** Descriptions that differ only in the case of Basic Latin letters have
    the same lower-case form. *)
Lemma caseVariant_lower s t :
  Forall2 caseVariant s t -> toLowerCase s = toLowerCase t.
Proof.
  induction 1 as [|c d s t Hcd _ IH]; [reflexivity|].
  unfold toLowerCase in *. cbn [flat_map]. rewrite IH. f_equal.
  unfold caseVariant in Hcd. unfold lowerUnits.
  destruct Hcd as [->|[[Hc ->]|[Hd ->]]]; [reflexivity| |].
  - assert ((65 <=? c) && (c <=? 90) = true)%N as ->.
    { apply andb_true_iff. split; apply N.leb_le; lia. }
    assert ((65 <=? c + 32) && (c + 32 <=? 90) = false)%N as ->.
    { apply andb_false_iff. right. apply N.leb_gt. lia. }
    assert ((c + 32 =? 8490)%N = false) as -> by (apply N.eqb_neq; lia).
    assert ((c + 32 =? 304)%N = false) as -> by (apply N.eqb_neq; lia).
    reflexivity.
  - assert ((65 <=? d) && (d <=? 90) = true)%N as ->.
    { apply andb_true_iff. split; apply N.leb_le; lia. }
    assert ((65 <=? d + 32) && (d + 32 <=? 90) = false)%N as ->.
    { apply andb_false_iff. right. apply N.leb_gt. lia. }
    assert ((d + 32 =? 8490)%N = false) as -> by (apply N.eqb_neq; lia).
    assert ((d + 32 =? 304)%N = false) as -> by (apply N.eqb_neq; lia).
    reflexivity.
Qed.

Lemma categorizeError_groups error :
  let s := errorToString error in
  (_categorizeError error = NETWORK <-> holdsUpToCase networkPhrases s) /\
  (_categorizeError error = PERMISSION <->
     ~ holdsUpToCase networkPhrases s /\
     holdsUpToCase permissionPhrases s) /\
  (_categorizeError error = SERVER <->
     ~ holdsUpToCase networkPhrases s /\
     ~ holdsUpToCase permissionPhrases s /\
     holdsUpToCase serverPhrases s) /\
  (_categorizeError error = FORMAT <->
     ~ holdsUpToCase networkPhrases s /\
     ~ holdsUpToCase permissionPhrases s /\
     ~ holdsUpToCase serverPhrases s /\ holdsUpToCase formatPhrases s) /\
  (_categorizeError error = UNKNOWN <->
     ~ holdsUpToCase networkPhrases s /\
     ~ holdsUpToCase permissionPhrases s /\
     ~ holdsUpToCase serverPhrases s /\ ~ holdsUpToCase formatPhrases s).
Proof.
  intros s. rewrite categorizeError_unfold. cbv zeta. fold s.
  rewrite <- networkPhrase_lower, <- permissionPhrase_lower,
    <- serverPhrase_lower, <- formatPhrase_lower.
  destruct (networkPhrase (toLowerCase s)),
    (permissionPhrase (toLowerCase s)), (serverPhrase (toLowerCase s)),
    (formatPhrase (toLowerCase s));
    repeat split; try intros [= ]; try tauto; try easy;
    intuition discriminate.
Qed.

(** C5. [_categorizeError] looks in the description of the error for
    phrases, whatever their case, in a fixed order: the network phrases
    first, then the permission phrases, then the server phrases, then the
    format phrases; a description with none of them is [unknown].  A
    phrase counts in any mix of capital and small letters (and with the
    Kelvin sign for [k], which lower-casing turns into [k]); descriptions
    that differ only in the case of Basic Latin letters get the same
    type.  So a description that holds [403], and no network phrase, is a
    permission error, and the failed transfer puts
    [\[上传失败(权限错误)-id\]] where the placeholder of the upload was. *)
Theorem categorizeError_priority error :
  let s := errorToString error in
  ((_categorizeError error = NETWORK <-> holdsUpToCase networkPhrases s) /\
   (_categorizeError error = PERMISSION <->
      ~ holdsUpToCase networkPhrases s /\
      holdsUpToCase permissionPhrases s) /\
   (_categorizeError error = SERVER <->
      ~ holdsUpToCase networkPhrases s /\
      ~ holdsUpToCase permissionPhrases s /\
      holdsUpToCase serverPhrases s) /\
   (_categorizeError error = FORMAT <->
      ~ holdsUpToCase networkPhrases s /\
      ~ holdsUpToCase permissionPhrases s /\
      ~ holdsUpToCase serverPhrases s /\ holdsUpToCase formatPhrases s) /\
   (_categorizeError error = UNKNOWN <->
      ~ holdsUpToCase networkPhrases s /\
      ~ holdsUpToCase permissionPhrases s /\
      ~ holdsUpToCase serverPhrases s /\
      ~ holdsUpToCase formatPhrases s)) /\
  (forall error',
     Forall2 caseVariant (errorToString error') s ->
     _categorizeError error' = _categorizeError error) /\
  ((exists a b, s = a ++ js "403" ++ b) ->
   ~ holdsUpToCase networkPhrases s ->
   _categorizeError error = PERMISSION /\
   forall file uploadId w sp,
     findPlaceholder (value (editor w)) uploadId = Some sp ->
     exists before rest,
       value (editor w) = before ++ text sp ++ rest /\
       start sp = Z.of_nat (length before) /\
       value (editor (snd (_executeUpload_settled file uploadId
                             (Rejected error) w)))
       = before ++ js "[上传失败(权限错误)-" ++ uploadId ++ js "]" ++ rest).
Proof.
  intros s. split; [apply categorizeError_groups|]. split.
  { intros error' H. rewrite !categorizeError_unfold. cbv zeta.
    fold s. rewrite (caseVariant_lower _ _ H). reflexivity. }
  intros (a & b & H403) Hnet.
  assert (_categorizeError error = PERMISSION) as Hperm.
  { apply (categorizeError_groups error). split; [exact Hnet|].
    exists (js "403"). split; [right; left; reflexivity|].
    exists a, (js "403"), b. split; [exact H403|].
    jsnorm. repeat constructor; left; reflexivity. }
  split; [exact Hperm|].
  intros file uploadId w sp Hfind.
  destruct (settled_rejected_value file uploadId error w sp Hfind)
    as (before & rest & Hv & Hs & Hafter).
  exists before, rest. rewrite Hafter, Hperm.
  destruct (getFailureText_taxonomy uploadId) as (_ & _ & -> & _).
  rewrite <- !app_assoc. auto.
Qed.

(** C5 on a transfer answered with status 403. *)
Lemma categorizeError_priority_witness :
  performUpload (OnLoad 403 None)
    = Rejected (ErrString (js "HTTP错误: 403")) /\
  _categorizeError (ErrString (js "HTTP错误: 403")) = PERMISSION /\
  exists before rest,
    value (editor (worldOf (editorOf (js "x![上传中...1000-1]y") 0)
                           (fun _ => 1000%N)))
    = before ++ js "![上传中...1000-1]" ++ rest /\
    value (editor (snd (_executeUpload_settled
                          {| fileName := js "a.png";
                             mimeType := js "image/png"; fileSize := 1%N |}
                          (js "1000-1")
                          (Rejected (ErrString (js "HTTP错误: 403")))
                          (worldOf (editorOf (js "x![上传中...1000-1]y") 0)
                                   (fun _ => 1000%N)))))
    = before ++ js "[上传失败(权限错误)-" ++ js "1000-1" ++ js "]" ++ rest.
Proof.
  split; [reflexivity|].
  destruct (categorizeError_priority (ErrString (js "HTTP错误: 403")))
    as (_ & _ & H).
  destruct H as [Hperm Hbuffer].
  { exists (js "HTTP错误: "), []. reflexivity. }
  { rewrite <- networkPhrase_lower. vm_compute. discriminate. }
  split; [exact Hperm|].
  destruct (Hbuffer {| fileName := js "a.png"; mimeType := js "image/png";
                       fileSize := 1%N |}
              (js "1000-1")
              (worldOf (editorOf (js "x![上传中...1000-1]y") 0)
                       (fun _ => 1000%N))
              {| start := 1; end_ := 16; text := js "![上传中...1000-1]" |})
    as (before & rest & Hv & _ & Hafter); [reflexivity|].
  exists before, rest. split; [exact Hv|exact Hafter].
Defined.

(** A description that holds [403] and a network phrase is a network
    error, not a permission error: the network phrases are looked for
    first. *)
Lemma categorizeError_403_counterexample :
  (exists a b,
     errorToString (ErrString (js "Network Error: 403"))
     = a ++ js "403" ++ b) /\
  _categorizeError (ErrString (js "Network Error: 403")) = NETWORK /\
  _categorizeError (ErrString (js "Network Error: 403")) <> PERMISSION /\
  value (editor (snd (_executeUpload_settled
                        {| fileName := js "a.png";
                           mimeType := js "image/png"; fileSize := 1%N |}
                        (js "1000-1")
                        (Rejected (ErrString (js "Network Error: 403")))
                        (worldOf (editorOf (js "x![上传中...1000-1]y") 0)
                                 (fun _ => 1000%N)))))
  = js "x[上传失败(网络错误)-1000-1]y".
Proof.
  split; [exists (js "Network Error: "), []; reflexivity|].
  split; [vm_compute; reflexivity|].
  split; [vm_compute; discriminate|].
  vm_compute. reflexivity.
Qed.

(** The order decides when phrases of several groups occur together, and
    case does not matter. *)
Example categorizeError_examples :
  _categorizeError (ErrString (js "Network error, status 403")) = NETWORK /\
  _categorizeError (ErrString (js "403 after 500")) = PERMISSION /\
  _categorizeError (ErrString (js "500: cannot parse")) = SERVER /\
  _categorizeError (ErrObject (js "SyntaxError") (js "Unexpected token"))
    = UNKNOWN /\
  _categorizeError (ErrObject (js "TypeError") (js "Failed to fetch"))
    = NETWORK /\
  _categorizeError (ErrString (js "PERMISSION DENIED")) = PERMISSION /\
  _categorizeError (ErrString (js "解析响应数据失败")) = FORMAT /\
  _categorizeError (ErrString (js "HTTP错误: 404")) = UNKNOWN.
Proof. repeat split; vm_compute; reflexivity. Qed.

(* ===================================================================== *)
(** * The orchestrator: one upload from insertion to replacement *)
(* ===================================================================== *)

(** [uploadFile] on a buffer whose text before the cursor holds nothing
    that looks like a placeholder of the fresh id: the placeholder it
    inserts is the one the later lookup finds. *)
Lemma uploadFile_findPlaceholder file w :
  let e := editor w in
  let uploadId := fst (generateUploadId w) in
  let before := substring (value e) 0 (selectionStart e) in
  findPlaceholder before uploadId = None ->
  findPlaceholder (value (editor (snd (uploadFile file w)))) uploadId
  = Some {| start := jslength before + 1;
            end_ := jslength before + 1
                    + jslength (getPlaceholderText file uploadId);
            text := getPlaceholderText file uploadId |}.
Proof.
  intros e uploadId before Hnone. rewrite uploadFile_editor.
  cbn [value]. fold e uploadId before.
  unfold formatContent, BEFORE, AFTER. rewrite <- !app_assoc.
  apply findPlaceholder_after_newline;
    [apply generateUploadId_plain|apply getPlaceholderText_form|exact Hnone].
Qed.

(** An upload that succeeds: the placeholder inserted by [uploadFile] is
    replaced by the link, the text around it is kept, and the upload is
    no longer registered. *)
Example upload_succeeds :
  let file := {| fileName := js "cat.png"; mimeType := js "image/png";
                 fileSize := (5 * 1024 * 1024)%N |} in
  let w0 := worldOf (editorOf (js "hello world") 5) (fun _ => 1000%N) in
  let w1 := snd (processFiles [file] w0) in
  let w2 := snd (_executeUpload_settled file (js "1000-1")
                   (performUpload (OnLoad 200 (Some (js "/f/abc.png"))))
                   w1) in
  requests w1 = [(file, js "1000-1")] /\
  value (editor w1) = js "hello" ++ [LF] ++ js "![上传中...1000-1]"
                      ++ [LF; LF] ++ js " world" /\
  value (editor w2)
    = js "hello" ++ [LF] ++ js "![cat.png](https://h1.appinn.me/f/abc.png)"
      ++ [LF; LF] ++ js " world" /\
  uploads w2 = ∅.
Proof.
  repeat split; vm_compute; reflexivity.
Qed.

(* ===================================================================== *)
(** * Further properties of the script *)
(* ===================================================================== *)

Lemma substring_split (s : jsstring) (c : Z) :
  substring s 0 c ++ substringFrom s c = s.
Proof. rewrite substring_0, substringFrom_drop. apply take_drop. Qed.

(** X1. [uploadFile] never loses or doubles text of the buffer, whatever
    number the selection start is (negative, or past the end): the new
    buffer is the old one cut in two with the wrapped placeholder in
    between.  Selection start and end are both moved by the length of
    what was inserted, and when the cursor was inside the buffer it ends
    up right after the inserted text; the scroll offset is kept. *)
Theorem uploadFile_keeps_text file w :
  let e := editor w in
  let c := selectionStart e in
  let uploadId := fst (generateUploadId w) in
  let inserted := [LF] ++ getPlaceholderText file uploadId ++ [LF; LF] in
  let after := editor (snd (uploadFile file w)) in
  exists p q,
    value e = p ++ q /\
    value after = p ++ inserted ++ q /\
    jslength p = Z.max 0 (Z.min c (jslength (value e))) /\
    selectionStart after = (c + jslength inserted)%Z /\
    selectionEnd after = (c + jslength inserted)%Z /\
    scrollTop after = scrollTop e /\
    ((0 <= c <= jslength (value e))%Z ->
     selectionStart after = jslength (p ++ inserted)).
Proof.
  intros e c uploadId inserted after. subst after.
  rewrite uploadFile_editor. cbn [value selectionStart selectionEnd scrollTop].
  fold e c uploadId. unfold formatContent, BEFORE, AFTER. fold inserted.
  exists (substring (value e) 0 c), (substringFrom (value e) c).
  split; [symmetry; apply substring_split|].
  split; [reflexivity|].
  assert (jslength (substring (value e) 0 c)
          = Z.max 0 (Z.min c (jslength (value e)))) as Hp.
  { rewrite substring_0. unfold jslength. rewrite length_take.
    unfold clampIndex, jslength. lia. }
  split; [exact Hp|]. repeat split.
  intros Hc. unfold jslength in *. rewrite length_app. lia.
Qed.

(** X2. The placeholder of a file and its final link are decorated alike,
    by the category of the file: [!] in front for an image, a video and
    an audio file, and [|video], [|audio], [|attachment] before the
    closing bracket for a video, an audio file and a PDF; a file of no
    supported type gets the bare forms of both. *)
Theorem link_decorated_as_placeholder file uploadId url :
  let bang :=
    match getFileType file with
    | Some image | Some video | Some audio => js "!"
    | Some pdf | None => []
    end in
  let suffix :=
    match getFileType file with
    | Some video => js "|video"
    | Some audio => js "|audio"
    | Some pdf => js "|attachment"
    | Some image | None => []
    end in
  getPlaceholderText file uploadId
    = bang ++ js "[上传中..." ++ uploadId ++ suffix ++ js "]" /\
  getMarkdownLink file url
    = bang ++ js "[" ++ fileName file ++ suffix ++ js "](" ++ url
      ++ js ")".
Proof.
  unfold getPlaceholderText, getMarkdownLink.
  destruct (getFileType file) as [[]|]; split; reflexivity.
Qed.

(** X3. No MIME type passes the test of two categories, so the order in
    which [getFileType] tries them never decides: a file is of a category
    exactly when that category's own test accepts its type. *)
Theorem getFileType_exclusive file fileType info :
  In (fileType, info) SUPPORTED_MIME_TYPES ->
  (getFileType file = Some fileType <-> test info (mimeType file) = true).
Proof.
  intros Hin. rewrite getFileType_spec.
  assert (forall t p q : jsstring,
            startsWith t p = true -> startsWith t q = true ->
            forall c d p' q', p = c :: p' -> q = d :: q' -> c = d) as Hhead.
  { intros t p q Hp Hq c d p' q' -> ->.
    destruct t as [|x t]; [discriminate|]. simpl in Hp, Hq.
    apply andb_true_iff in Hp as [Hp _]. apply andb_true_iff in Hq as [Hq _].
    apply N.eqb_eq in Hp, Hq. congruence. }
  destruct (startsWith (mimeType file) (js "image/")) eqn:Hi;
  destruct (startsWith (mimeType file) (js "video/")) eqn:Hv;
  destruct (startsWith (mimeType file) (js "audio/")) eqn:Ha;
  destruct (streq (mimeType file) (js "application/pdf")) eqn:Hp;
  try (exfalso;
       first
         [ discriminate (Hhead _ _ _ Hi Hv _ _ _ _ eq_refl eq_refl)
         | discriminate (Hhead _ _ _ Hi Ha _ _ _ _ eq_refl eq_refl)
         | discriminate (Hhead _ _ _ Hv Ha _ _ _ _ eq_refl eq_refl)
         | apply streq_spec in Hp; rewrite Hp in *;
           first [ vm_compute in Hi; discriminate Hi
                 | vm_compute in Hv; discriminate Hv
                 | vm_compute in Ha; discriminate Ha ] ]);
  unfold SUPPORTED_MIME_TYPES in Hin; cbn [In] in Hin;
  destruct Hin as [H|[H|[H|[H|[]]]]];
  apply (f_equal (fun entry => (fst entry, test (snd entry) (mimeType file))))
    in H; cbn [fst snd test] in H;
  rewrite ?Hi, ?Hv, ?Ha, ?Hp in H; injection H as <- <-;
  split; congruence.
Qed.

Lemma getFileType_exclusive_witness :
  getFileType {| fileName := js "a.pdf"; mimeType := js "application/pdf";
                 fileSize := 1%N |} = Some pdf.
Proof.
  apply (getFileType_exclusive _ pdf
           {| test := fun type => streq type (js "application/pdf");
              format := fun filename url =>
                js "[" ++ filename ++ js "|attachment](" ++ url ++ js ")";
              acceptString := js ".pdf" |}).
  - right. right. right. left. reflexivity.
  - reflexivity.
Defined.

(** Every text the lookup accepts for an id holds the id. *)
Lemma placeholderForm_includes uploadId w :
  placeholderForm uploadId w -> includes w uploadId = true.
Proof.
  intros (bang & x & y & z & suffix & _ & _ & _ & _ & _ & ->).
  apply includes_spec.
  exists (bang ++ js "[上传中" ++ [x; y; z]), (suffix ++ js "]").
  rewrite <- !app_assoc. reflexivity.
Qed.

Lemma findPlaceholder_needs_id buffer uploadId :
  includes buffer uploadId = false -> findPlaceholder buffer uploadId = None.
Proof.
  intros Hno. destruct (findPlaceholder buffer uploadId) as [sp|] eqn:E;
    [|reflexivity].
  apply findPlaceholder_Some in E as (Hform & (a & b & -> & _) & _).
  apply placeholderForm_includes, includes_spec in Hform as (u & v & Ht).
  assert (includes (a ++ text sp ++ b) uploadId = true); [|congruence].
  apply includes_spec. exists (a ++ u), (v ++ b). rewrite Ht.
  rewrite <- !app_assoc. reflexivity.
Qed.

Lemma settled_replacement file uploadId outcome w :
  snd (_executeUpload_settled file uploadId outcome w)
  = snd (replacePlaceholder uploadId (replacementText file uploadId outcome)
           (Some (fun _ : bool => removeUpload uploadId)) w).
Proof. destruct outcome; reflexivity. Qed.

(** X4. When the id is nowhere in the buffer any more (the user deleted
    the placeholder or damaged its id), the result of the upload is not
    lost: the settled transfer appends it, wrapped in its newlines, at the
    end of the buffer, after a separating newline if the buffer is not
    empty and does not end in one; the cursor goes to the new end and the
    upload leaves the registry. *)
Theorem settled_without_id_appends file uploadId outcome w :
  includes (value (editor w)) uploadId = false ->
  let buffer := value (editor w) in
  let w' := snd (_executeUpload_settled file uploadId outcome w) in
  value (editor w')
    = buffer ++ separator buffer ++ [LF]
      ++ replacementText file uploadId outcome ++ [LF; LF] /\
  selectionStart (editor w') = jslength (value (editor w')) /\
  selectionEnd (editor w') = jslength (value (editor w')) /\
  uploads w' = delete uploadId (uploads w).
Proof.
  intros Hno buffer w'. subst w'.
  split; [|split; [|split; [|apply settled_uploads]]];
    rewrite settled_replacement,
      (replacePlaceholder_missing _ _ _ _ (removeUpload_keepsEditor uploadId)
         (findPlaceholder_needs_id _ _ Hno));
    reflexivity.
Qed.

Lemma settled_without_id_appends_witness :
  let file := {| fileName := js "cat.png"; mimeType := js "image/png";
                 fileSize := 1%N |} in
  let w := worldOf (editorOf (js "my text") 3) (fun _ => 1000%N) in
  value (editor (snd (_executeUpload_settled file (js "1000-1")
                        (Resolved (js "https://h1.appinn.me/f/a.png")) w)))
  = js "my text" ++ [LF] ++ [LF]
    ++ js "![cat.png](https://h1.appinn.me/f/a.png)" ++ [LF; LF].
Proof.
  intros file w.
  destruct (settled_without_id_appends file (js "1000-1")
              (Resolved (js "https://h1.appinn.me/f/a.png")) w)
    as (H & _).
  - vm_compute. reflexivity.
  - rewrite H. vm_compute. reflexivity.
Defined.








Lemma includes_cons c (s p : jsstring) :
  includes (c :: s) p = startsWith (c :: s) p || includes s p.
Proof. reflexivity. Qed.

Lemma toLowerCase_digits d :
  Forall (fun c => isDigit c = true) d -> toLowerCase d = d.
Proof.
  induction 1 as [|c d Hc _ IH]; [reflexivity|].
  unfold toLowerCase in *. cbn [flat_map]. rewrite IH.
  unfold lowerUnits, isDigit in *.
  apply andb_true_iff in Hc as [H1 H2]. apply N.leb_le in H1, H2.
  assert ((65 <=? c)%N = false) as -> by (apply N.leb_gt; lia).
  assert ((c =? 8490)%N = false) as -> by (apply N.eqb_neq; lia).
  assert ((c =? 304)%N = false) as -> by (apply N.eqb_neq; lia).
  reflexivity.
Qed.

Lemma includes_digits_false d h p :
  Forall (fun c => isDigit c = true) d -> isDigit h = false ->
  includes d (h :: p) = false.
Proof.
  intros Hd Hh. induction Hd as [|c d Hc _ IH]; [reflexivity|].
  rewrite includes_cons, IH, orb_false_r. cbn [startsWith].
  destruct (c =? h)%N eqn:E; [|reflexivity].
  apply N.eqb_eq in E. congruence.
Qed.

Ltac no_phrase digits Hd c :=
  let h := eval vm_compute in c in
  rewrite !(includes_digits_false digits h _ Hd eq_refl).

(** The type of the rejection for a status other than 200. *)
Lemma categorizeError_status status :
  let digits := numberToString status in
  _categorizeError (ErrString (js "HTTP错误: " ++ digits))
  = if includes digits (js "401") || includes digits (js "403")
    then PERMISSION
    else if includes digits (js "500") || includes digits (js "503")
    then SERVER
    else UNKNOWN.
Proof.
  intros digits. rewrite categorizeError_unfold. cbv zeta.
  pose proof (numberToString_digits status) as Hd. fold digits in Hd.
  cbn [errorToString]. rewrite toLowerCase_app, (toLowerCase_digits _ Hd).
  change (toLowerCase (js "HTTP错误: ")) with (js "http错误: ").
  unfold networkPhrase, permissionPhrase, serverPhrase, formatPhrase.
  jsnorm. cbn [app]. rewrite !includes_cons.
  cbn [startsWith N.eqb Pos.eqb andb orb].
  no_phrase digits Hd (ch "n"). no_phrase digits Hd (ch "f").
  no_phrase digits Hd (ch "网"). no_phrase digits Hd (ch "p").
  no_phrase digits Hd (ch "服"). no_phrase digits Hd (ch "解").
  cbn [orb]. rewrite !orb_false_r. reflexivity.
Qed.

(** X7. What the classifier makes of every way the transport can fail.
    A transport error is [network]; an answer with a status other than 200
    is [permission] when the digits of the status hold [401] or [403],
    else [server] when they hold [500] or [503], and [unknown] for every
    other status (404, 429, 502, ...); an answer 200 whose body cannot be
    read is [format], and an answer 200 without a [src] is [unknown].
    The transfer succeeds only on status 200 with a non-empty [src], and
    the address is then the asset prefix followed by that [src]. *)
Theorem performUpload_classified response :
  match performUpload response with
  | Resolved url =>
    exists src, response = OnLoad 200 (Some src) /\ src <> [] /\
                url = ASSETS_URL_PREFIX ++ src
  | Rejected error =>
    _categorizeError error =
    match response with
    | OnError => NETWORK
    | OnLoad status _ | OnLoadThrows status =>
      if (status =? 200)%N then
        match response with
        | OnLoadThrows _ => FORMAT
        | _ => UNKNOWN
        end
      else
        let digits := numberToString status in
        if includes digits (js "401") || includes digits (js "403")
        then PERMISSION
        else if includes digits (js "500") || includes digits (js "503")
        then SERVER
        else UNKNOWN
    end
  end.
Proof.
  destruct response as [|status src|status]; cbn [performUpload].
  - reflexivity.
  - destruct (status =? 200)%N eqn:E; cbn [negb].
    + apply N.eqb_eq in E. subst status.
      destruct src as [src|]; [|reflexivity].
      destruct (streq src []) eqn:Es; [reflexivity|].
      exists src. repeat split. intros ->. discriminate Es.
    + apply categorizeError_status.
  - destruct (status =? 200)%N eqn:E; cbn [negb].
    + reflexivity.
    + apply categorizeError_status.
Qed.

(** Some statuses, computed. *)
Example performUpload_statuses :
  map (fun status =>
         match performUpload (OnLoad status None) with
         | Rejected error => _categorizeError error
         | Resolved _ => []
         end)
      [401; 403; 404; 429; 500; 502; 503; 200]%N
  = [PERMISSION; PERMISSION; UNKNOWN; UNKNOWN; SERVER; UNKNOWN; SERVER;
     UNKNOWN].
Proof. vm_compute. reflexivity. Qed.

Lemma then_ret {A B} (m : M A) (b : B) w :
  (do _ <- m; ret b) w = (b, snd (m w)).
Proof. unfold bind, ret. destruct (m w). reflexivity. Qed.

(** X8. A paste is taken over exactly when the clipboard holds an item of
    kind [file] whose file can be read, and only the first item of kind
    [file] counts: what comes after it in the clipboard changes nothing,
    and when its file cannot be read nothing happens at all, even if
    later items hold files.  A clipboard without such an item leaves the
    world as it is. *)
Theorem pasteEvent_first_file before item after w :
  Forall (fun i => streq (kind i) (js "file") = false) before ->
  streq (kind item) (js "file") = true ->
  getFileFromClipboard (Some (before ++ item :: after)) = getAsFile item /\
  pasteEvent (Some (before ++ item :: after)) w = pasteEvent (Some [item]) w /\
  (getAsFile item = None ->
   pasteEvent (Some (before ++ item :: after)) w = (false, w)) /\
  (forall file, getAsFile item = Some file ->
   pasteEvent (Some (before ++ item :: after)) w
   = (true, snd (pasteHandler (Some file) w))) /\
  pasteEvent (Some before) w = (false, w) /\
  pasteEvent None w = (false, w).
Proof.
  intros Hbefore Hitem.
  assert (forall rest, firstFileItem (before ++ rest) = firstFileItem rest)
    as Hskip.
  { intros rest. induction Hbefore as [|i l Hi _ IH]; [reflexivity|].
    cbn [app firstFileItem]. rewrite Hi. exact IH. }
  assert (getFileFromClipboard (Some (before ++ item :: after))
          = getAsFile item) as Hfirst.
  { cbn [getFileFromClipboard]. rewrite Hskip. cbn [firstFileItem].
    rewrite Hitem. reflexivity. }
  assert (getFileFromClipboard (Some [item]) = getAsFile item) as Hone.
  { cbn [getFileFromClipboard firstFileItem]. rewrite Hitem. reflexivity. }
  assert (getFileFromClipboard (Some before) = None) as Hnone.
  { cbn [getFileFromClipboard]. rewrite <- (app_nil_r before), Hskip.
    reflexivity. }
  unfold pasteEvent. rewrite Hfirst, Hone, Hnone.
  split; [reflexivity|]. split; [reflexivity|].
  split; [intros ->; reflexivity|].
  split; [|split; reflexivity].
  intros file Hfile. rewrite Hfile.
  exact (then_ret (pasteHandler (Some file)) true w).
Qed.

Lemma pasteEvent_first_file_witness :
  pasteEvent
    (Some ([{| kind := js "string"; getAsFile := None |}]
           ++ {| kind := js "file";
                 getAsFile := Some {| fileName := js "a.png";
                                      mimeType := js "image/png";
                                      fileSize := 1%N |} |}
           :: [{| kind := js "file";
                  getAsFile := Some {| fileName := js "b.pdf";
                                       mimeType := js "application/pdf";
                                       fileSize := 1%N |} |}]))
    (worldOf (editorOf (js "hello") 5) (fun _ => 1000%N))
  = pasteEvent
      (Some [{| kind := js "file";
                getAsFile := Some {| fileName := js "a.png";
                                     mimeType := js "image/png";
                                     fileSize := 1%N |} |}])
      (worldOf (editorOf (js "hello") 5) (fun _ => 1000%N)).
Proof.
  refine (proj1 (proj2 (pasteEvent_first_file _ _ _ _ _ _))).
  - repeat constructor.
  - reflexivity.
Defined.

(** X9. A file that fails validation is announced with one of two
    messages and never with the "unknown error" one: the message about
    its type when no category accepts the type, else the message that it
    exceeds 20MB. *)
Theorem rejected_file_message file w :
  valid (validateFile file) = false ->
  alerts (snd (processFiles [file] w))
  = (match getFileType file with
     | None => js "不支持的文件类型: " ++ mimeType file
     | Some _ =>
       js "文件" ++ [34%N] ++ fileName file ++ [34%N]
       ++ js "超过20MB大小限制，无法上传。"
     end) :: alerts w.
Proof.
  intros Hv. unfold processFiles, forEach. rewrite Hv.
  unfold validateFile in *.
  destruct (getFileType file) as [t|].
  - destruct (MAX_FILE_SIZE <? fileSize file)%N; [|discriminate].
    cbn [error]. unfold showFileError.
    replace (streq FILESIZE FILETYPE) with false by (vm_compute; reflexivity).
    replace (streq FILESIZE FILESIZE) with true by (vm_compute; reflexivity).
    replace (js "超过" ++ numberToString (MAX_FILE_SIZE / (1024 * 1024))
             ++ js "MB大小限制，无法上传。")
      with (js "超过20MB大小限制，无法上传。") by (vm_compute; reflexivity).
    reflexivity.
  - cbn [error]. unfold showFileError.
    replace (streq FILETYPE FILETYPE) with true by (vm_compute; reflexivity).
    reflexivity.
Qed.

Lemma rejected_file_message_witness :
  let file := {| fileName := js "a.txt"; mimeType := js "text/plain";
                 fileSize := 1%N |} in
  let w := worldOf (editorOf (js "hello") 5) (fun _ => 1000%N) in
  alerts (snd (processFiles [file] w)) = [js "不支持的文件类型: text/plain"].
Proof.
  intros file w. rewrite (rejected_file_message file w).
  - vm_compute. reflexivity.
  - vm_compute. reflexivity.
Defined.

(** The world after [uploadFile]. *)
Lemma uploadFile_run file w :
  let e := editor w in
  let c := selectionStart e in
  let uploadId := fst (generateUploadId w) in
  let placeholder := getPlaceholderText file uploadId in
  snd (uploadFile file w) =
  {| editor :=
       {| value := substring (value e) 0 c ++ formatContent placeholder
                   ++ substringFrom (value e) c;
          selectionStart := (c + jslength (formatContent placeholder))%Z;
          selectionEnd := (c + jslength (formatContent placeholder))%Z;
          scrollTop := scrollTop e |};
     uploads :=
       <[uploadId := {| insertPosition := c; placeholderText := placeholder;
                        active := true;
                        timestamp := clock w (S (ticks w)) |}]> (uploads w);
     uploadCounter := numberInc (uploadCounter w);
     clock := clock w;
     ticks := S (S (ticks w));
     inputEvents := S (inputEvents w);
     alerts := alerts w;
     requests := (file, uploadId) :: requests w |}.
Proof. reflexivity. Qed.

(** What a settled transfer leaves alone. *)
Lemma settled_frame file uploadId outcome w :
  let w' := snd (_executeUpload_settled file uploadId outcome w) in
  requests w' = requests w /\ uploadCounter w' = uploadCounter w /\
  clock w' = clock w /\ ticks w' = ticks w /\ alerts w' = alerts w.
Proof.
  destruct outcome as [url|error];
    cbv [_executeUpload_settled replacePlaceholder bind saveEditorState
         getEditor ret log savedValue];
    match goal with
    | |- context [findPlaceholder ?b ?i] => destruct (findPlaceholder b i)
    end;
    cbv [_adjustCursorPosition _appendToEditor bind getEditor ret focus];
    repeat match goal with
    | |- context [if ?c then _ else _] => destruct c
    end; repeat split; reflexivity.
Qed.

(** A transfer ends while its placeholder stands where it was put and
    the cursor is still right after it. *)
Lemma settled_in_place file uploadId outcome w1 before placeholder rest :
  plainId uploadId = true ->
  placeholderForm uploadId placeholder ->
  findPlaceholder before uploadId = None ->
  value (editor w1) = before ++ [LF] ++ placeholder ++ [LF; LF] ++ rest ->
  selectionStart (editor w1)
    = jslength (before ++ [LF] ++ placeholder ++ [LF; LF]) ->
  selectionEnd (editor w1)
    = jslength (before ++ [LF] ++ placeholder ++ [LF; LF]) ->
  let result := [LF] ++ replacementText file uploadId outcome ++ [LF; LF] in
  let w2 := snd (_executeUpload_settled file uploadId outcome w1) in
  value (editor w2) = before ++ result ++ rest /\
  selectionStart (editor w2) = jslength (before ++ result) /\
  selectionEnd (editor w2) = jslength (before ++ result) /\
  scrollTop (editor w2) = scrollTop (editor w1).
Proof.
  intros Hid Hform Hnone Hv Hs He result w2.
  assert (findPlaceholder (value (editor w1)) uploadId
          = Some {| start := Z.of_nat (length before) + 1;
                    end_ := Z.of_nat (length before) + 1
                            + jslength placeholder;
                    text := placeholder |}) as Hfind.
  { rewrite Hv. apply findPlaceholder_after_newline; assumption. }
  assert (editor w2 =
          editor (snd (replacePlaceholder uploadId
                         (replacementText file uploadId outcome)
                         (Some (fun _ : bool => removeUpload uploadId)) w1)))
    as Hw2.
  { unfold w2. rewrite settled_replacement. reflexivity. }
  rewrite Hw2.
  rewrite (replacePlaceholder_found _ _ _ _ _
             (removeUpload_keepsEditor uploadId) Hfind).
  cbn [value selectionStart selectionEnd scrollTop start end_].
  assert (value (editor w1)
          = (before ++ [LF]) ++ placeholder ++ [LF; LF] ++ rest) as Hv'.
  { rewrite Hv, <- !app_assoc. reflexivity. }
  destruct (substring_span (value (editor w1)) (before ++ [LF]) placeholder
              ([LF; LF] ++ rest) Hv') as (Hsub1 & Hsub2).
  assert (Z.of_nat (length before) + 1
          = Z.of_nat (length (before ++ [LF])))%Z as E1.
  { rewrite length_app. cbn [length]. lia. }
  assert (Z.of_nat (length (before ++ [LF])) + jslength placeholder
          = Z.of_nat (length (before ++ [LF]) + length placeholder))%Z as E2.
  { unfold jslength. lia. }
  rewrite E1, E2, Hsub1, Hsub2, Hs, He.
  assert ((jslength (before ++ [LF] ++ placeholder ++ [LF; LF])
           <? Z.of_nat (length (before ++ [LF])))%Z = false) as ->.
  { apply Z.ltb_ge. unfold jslength. rewrite !length_app.
    cbn [length]. lia. }
  assert ((jslength (before ++ [LF] ++ placeholder ++ [LF; LF])
           <=? Z.of_nat (length (before ++ [LF]) + length placeholder))%Z
          = false) as ->.
  { apply Z.leb_gt. unfold jslength. rewrite !length_app.
    cbn [length]. lia. }
  assert (jslength (before ++ [LF] ++ placeholder ++ [LF; LF])
          + (jslength (replacementText file uploadId outcome)
             - (Z.of_nat (length (before ++ [LF]) + length placeholder)
                - Z.of_nat (length (before ++ [LF]))))
          = jslength (before ++ result))%Z as ->.
  { unfold result, jslength. rewrite !length_app. cbn [length]. lia. }
  split; [unfold result; rewrite <- !app_assoc; reflexivity|].
  split; [reflexivity|]. split; reflexivity.
Qed.

(** After [uploadFile] the placeholder stands on a line of its own at
    the place of the cursor, and the cursor is right after its newlines. *)
Lemma uploadFile_in_place file w :
  let e := editor w in
  let c := selectionStart e in
  let uploadId := fst (generateUploadId w) in
  let before := substring (value e) 0 c in
  let rest := substringFrom (value e) c in
  let placeholder := getPlaceholderText file uploadId in
  let w1 := snd (uploadFile file w) in
  (0 <= c <= jslength (value e))%Z ->
  value (editor w1) = before ++ [LF] ++ placeholder ++ [LF; LF] ++ rest /\
  selectionStart (editor w1)
    = jslength (before ++ [LF] ++ placeholder ++ [LF; LF]) /\
  selectionEnd (editor w1)
    = jslength (before ++ [LF] ++ placeholder ++ [LF; LF]).
Proof.
  intros e c uploadId before rest placeholder w1 Hc. subst w1.
  rewrite uploadFile_run. cbn [editor value selectionStart selectionEnd].
  fold e c uploadId before rest placeholder.
  assert (jslength before = c) as Hlen.
  { unfold before. rewrite substring_0. unfold jslength in *.
    rewrite length_take. unfold clampIndex, jslength. lia. }
  assert (jslength (before ++ [LF] ++ placeholder ++ [LF; LF])
          = c + jslength (formatContent placeholder))%Z as ->.
  { unfold formatContent, BEFORE, AFTER, jslength in *.
    rewrite !length_app. cbn [length]. lia. }
  split; [|split; reflexivity].
  unfold formatContent, BEFORE, AFTER. rewrite <- !app_assoc. reflexivity.
Qed.



Lemma processFiles_forEach files w :
  processFiles files w
  = forEach files (fun file =>
      let validation := validateFile file in
      if valid validation
      then uploadFile file
      else showFileError file (error validation)) w.
Proof. destruct files; reflexivity. Qed.

(** Where the cursor is after an insertion, seen from the new buffer. *)
Lemma substring_after_insert (v : jsstring) (c : Z) (inserted : jsstring) :
  (0 <= c)%Z ->
  let p := substring v 0 c in
  let q := substringFrom v c in
  substring (p ++ inserted ++ q) 0 (c + jslength inserted) = p ++ inserted /\
  substringFrom (p ++ inserted ++ q) (c + jslength inserted) = q.
Proof.
  intros Hc p q.
  assert (length p = Z.to_nat (Z.min c (jslength v))) as Hp.
  { unfold p. rewrite substring_0, length_take.
    unfold clampIndex, jslength. lia. }
  assert (length q = (length v - length p)%nat) as Hq.
  { unfold q. rewrite substringFrom_drop, length_drop, Hp.
    unfold clampIndex, jslength. lia. }
  assert (clampIndex (p ++ inserted ++ q) (c + jslength inserted)
          = length (p ++ inserted)) as Hclamp.
  { unfold clampIndex, jslength in *. rewrite !length_app. lia. }
  rewrite substring_0, substringFrom_drop, Hclamp, app_assoc.
  split; [apply take_app_length | apply drop_app_length].
Qed.

Lemma showFileError_run file errorType w :
  exists message, showFileError file errorType w = alert message w.
Proof.
  unfold showFileError.
  match goal with |- context [alert ?m] => exists m end.
  reflexivity.
Qed.

Lemma forEach_keeps_registry files uploadId : forall w,
  is_Some (uploads w !! uploadId) ->
  is_Some (uploads (snd (forEach files (fun file =>
      let validation := validateFile file in
      if valid validation
      then uploadFile file
      else showFileError file (error validation)) w)) !! uploadId).
Proof.
  induction files as [|file files IH]; intros w Hin; [exact Hin|].
  rewrite forEach_cons_run. apply IH. cbv zeta.
  destruct (valid (validateFile file)).
  - rewrite uploadFile_run. cbn [uploads].
    destruct (decide (fst (generateUploadId w) = uploadId)) as [->|Hne].
    + rewrite lookup_insert_eq. eauto.
    + rewrite lookup_insert_ne by exact Hne. exact Hin.
  - destruct (showFileError_run file (error (validateFile file)) w)
      as (message & ->).
    exact Hin.
Qed.

Lemma forEach_batch files : forall w,
  (0 <= selectionStart (editor w))%Z ->
  let e := editor w in
  let c := selectionStart e in
  let accepted := List.filter (fun file => valid (validateFile file)) files in
  let ids :=
    batchIds (length accepted) (clock w) (ticks w) (uploadCounter w) in
  let w' := snd (forEach files (fun file =>
      let validation := validateFile file in
      if valid validation
      then uploadFile file
      else showFileError file (error validation)) w) in
  value (editor w')
    = substring (value e) 0 c ++ batchText accepted ids
      ++ substringFrom (value e) c /\
  selectionStart (editor w') = (c + jslength (batchText accepted ids))%Z /\
  scrollTop (editor w') = scrollTop e /\
  requests w' = rev (combine accepted ids) ++ requests w /\
  length (alerts w')
    = (length (alerts w) + (length files - length accepted))%nat /\
  (forall uploadId, In uploadId ids -> is_Some (uploads w' !! uploadId)).
Proof.
  induction files as [|file files IH]; intros w Hc; cbv zeta.
  - cbn [List.filter length batchIds batchText combine rev app forEach].
    unfold ret. cbn [snd]. rewrite substring_split, Z.add_0_r.
    repeat split; try reflexivity; try lia. intros uploadId [].
  - rewrite forEach_cons_run. cbv zeta. cbn [List.filter].
    destruct (valid (validateFile file)) eqn:Hvalid.
    + pose proof (uploadFile_run file w) as Hrun. cbv zeta in Hrun.
      rewrite generateUploadId_spec in Hrun. cbn [fst] in Hrun.
      remember (snd (uploadFile file w)) as w1 eqn:Hw1. clear Hw1.
      set (uploadId1 := numberToString (clock w (ticks w)) ++ js "-"
                        ++ numberToString (numberInc (uploadCounter w))) in *.
      set (block := formatContent (getPlaceholderText file uploadId1)) in *.
      assert (value (editor w1)
              = substring (value (editor w)) 0 (selectionStart (editor w))
                ++ block
                ++ substringFrom (value (editor w))
                     (selectionStart (editor w))) as Hv
        by (rewrite Hrun; reflexivity).
      assert (selectionStart (editor w1)
              = (selectionStart (editor w) + jslength block)%Z) as Hs
        by (rewrite Hrun; reflexivity).
      assert (scrollTop (editor w1) = scrollTop (editor w)) as Hsc
        by (rewrite Hrun; reflexivity).
      assert (clock w1 = clock w) as Hcl by (rewrite Hrun; reflexivity).
      assert (ticks w1 = S (S (ticks w))) as Ht
        by (rewrite Hrun; reflexivity).
      assert (uploadCounter w1 = numberInc (uploadCounter w)) as Hu
        by (rewrite Hrun; reflexivity).
      assert (requests w1 = (file, uploadId1) :: requests w) as Hr
        by (rewrite Hrun; reflexivity).
      assert (alerts w1 = alerts w) as Ha by (rewrite Hrun; reflexivity).
      assert (is_Some (uploads w1 !! uploadId1)) as Hreg.
      { rewrite Hrun. cbn [uploads]. rewrite lookup_insert_eq. eauto. }
      assert (0 <= selectionStart (editor w1))%Z as Hc1.
      { rewrite Hs. unfold jslength. lia. }
      specialize (IH w1 Hc1). cbv zeta in IH.
      rewrite Hv, Hs, Hsc, Hcl, Ht, Hu, Hr, Ha in IH.
      destruct (substring_after_insert (value (editor w))
                  (selectionStart (editor w)) block Hc) as (Hp & Hq).
      rewrite Hp, Hq in IH.
      destruct IH as (IH1 & IH2 & IH3 & IH4 & IH5 & IH6).
      cbn [length batchIds batchText combine rev].
      fold uploadId1. fold block.
      split; [rewrite IH1, <- !app_assoc; reflexivity|].
      split.
      { rewrite IH2. unfold jslength. rewrite length_app. lia. }
      split; [exact IH3|].
      split; [rewrite IH4, <- app_assoc; reflexivity|].
      split; [rewrite IH5; cbn [length]; lia|].
      intros uploadId [<-|Hin]; [|apply IH6, Hin].
      apply forEach_keeps_registry, Hreg.
    + destruct (showFileError_run file (error (validateFile file)) w)
        as (message & ->).
      remember (snd (alert message w)) as w1 eqn:Hw1.
      assert (editor w1 = editor w) as He by (rewrite Hw1; reflexivity).
      assert (clock w1 = clock w) as Hcl by (rewrite Hw1; reflexivity).
      assert (ticks w1 = ticks w) as Ht by (rewrite Hw1; reflexivity).
      assert (uploadCounter w1 = uploadCounter w) as Hu
        by (rewrite Hw1; reflexivity).
      assert (requests w1 = requests w) as Hr by (rewrite Hw1; reflexivity).
      assert (alerts w1 = message :: alerts w) as Ha
        by (rewrite Hw1; reflexivity).
      clear Hw1. specialize (IH w1). cbv zeta in IH.
      rewrite He, Hcl, Ht, Hu, Hr, Ha in IH. specialize (IH Hc).
      destruct IH as (IH1 & IH2 & IH3 & IH4 & IH5 & IH6).
      split; [exact IH1|]. split; [exact IH2|]. split; [exact IH3|].
      split; [exact IH4|]. split; [|exact IH6].
      rewrite IH5. cbn [length].
      pose proof (filter_length_le
                    (fun file => valid (validateFile file)) files).
      lia.
Qed.

Lemma dropEvent_processFiles files w :
  dropEvent (Some files) w
  = (match files with [] => false | _ :: _ => true end,
     snd (processFiles files w)).
Proof.
  destruct files as [|file rest]; [reflexivity|].
  cbn [dropEvent]. rewrite then_ret. reflexivity.
Qed.

Lemma fileInputChange_processFiles files w :
  snd (fileInputChange (Some files) w) = snd (processFiles files w).
Proof. destruct files; reflexivity. Qed.

(** X11. A batch of files, dropped on the editor or picked in the file
    chooser.  The files that pass validation get their placeholders put
    in one after the other at the place of the cursor, in the order of
    the files, each wrapped in its newlines and each with an id of its
    own; the text around the cursor is kept, the cursor ends up after the
    last placeholder, one transfer is started per accepted file (the
    newest first in the list of requests), every id of the batch is in
    the registry, and each file that fails validation costs one alert and
    nothing else. *)
Theorem processFiles_batch files w :
  (0 <= selectionStart (editor w))%Z ->
  let e := editor w in
  let c := selectionStart e in
  let accepted := List.filter (fun file => valid (validateFile file)) files in
  let ids :=
    batchIds (length accepted) (clock w) (ticks w) (uploadCounter w) in
  let w' := snd (processFiles files w) in
  snd (dropEvent (Some files) w) = w' /\
  snd (fileInputChange (Some files) w) = w' /\
  value (editor w')
    = substring (value e) 0 c ++ batchText accepted ids
      ++ substringFrom (value e) c /\
  selectionStart (editor w') = (c + jslength (batchText accepted ids))%Z /\
  scrollTop (editor w') = scrollTop e /\
  requests w' = rev (combine accepted ids) ++ requests w /\
  length (alerts w')
    = (length (alerts w) + (length files - length accepted))%nat /\
  (forall uploadId, In uploadId ids -> is_Some (uploads w' !! uploadId)).
Proof.
  intros Hc e c accepted ids w'.
  split; [rewrite dropEvent_processFiles; reflexivity|].
  split; [apply fileInputChange_processFiles|].
  unfold w'. rewrite processFiles_forEach.
  exact (forEach_batch files w Hc).
Qed.

Lemma processFiles_batch_witness :
  value (editor (snd (processFiles
    [{| fileName := js "cat.png"; mimeType := js "image/png";
        fileSize := 1%N |};
     {| fileName := js "notes.txt"; mimeType := js "text/plain";
        fileSize := 1%N |};
     {| fileName := js "paper.pdf"; mimeType := js "application/pdf";
        fileSize := 1%N |}]
    (worldOf (editorOf (js "ab") 1) (fun _ => 1000%N)))))
  = js "a" ++ [LF] ++ js "![上传中...1000-1]" ++ [LF; LF]
    ++ [LF] ++ js "[上传中...1000-2|attachment]" ++ [LF; LF] ++ js "b".
Proof.
  destruct (processFiles_batch
    [{| fileName := js "cat.png"; mimeType := js "image/png";
        fileSize := 1%N |};
     {| fileName := js "notes.txt"; mimeType := js "text/plain";
        fileSize := 1%N |};
     {| fileName := js "paper.pdf"; mimeType := js "application/pdf";
        fileSize := 1%N |}]
    (worldOf (editorOf (js "ab") 1) (fun _ => 1000%N)))
    as (_ & _ & H & _).
  - vm_compute. discriminate.
  - vm_compute in H. vm_compute. exact H.
Defined.

Lemma consistent_same w w' :
  requests w' = requests w -> uploads w' = uploads w ->
  uploadCounter w' = uploadCounter w -> consistent w -> consistent w'.
Proof. unfold consistent. intros -> -> ->. exact id. Qed.

Lemma consistent_uploadFile file w :
  valid (validateFile file) = true ->
  consistent w -> consistent (snd (uploadFile file w)).
Proof.
  intros Hvalid (Hreq & Hreg & Hmax & Hcount).
  rewrite uploadFile_run. unfold consistent.
  cbn [requests uploads uploadCounter].
  pose proof (generateUploadId_plain w) as Hplain.
  set (uploadId := fst (generateUploadId w)) in *.
  split; [constructor; [split; assumption | exact Hreq]|].
  split.
  { intros uploadId' record.
    destruct (decide (uploadId = uploadId')) as [<-|Hne].
    - rewrite lookup_insert_eq. intros [= <-]. exists file.
      split; [left; reflexivity|]. split; reflexivity.
    - rewrite lookup_insert_ne by exact Hne. intros Hin.
      destruct (Hreg _ _ Hin) as (file' & Hin' & Hrest).
      exists file'. split; [right; exact Hin' | exact Hrest]. }
  split.
  { unfold numberInc. destruct (uploadCounter w <? MAX_EXACT)%N eqn:E;
      [apply N.ltb_lt in E; lia | exact Hmax]. }
  intros Hlt.
  assert (uploadCounter w < MAX_EXACT)%N as Hlt0.
  { unfold numberInc in Hlt.
    destruct (uploadCounter w <? MAX_EXACT)%N eqn:E;
      [apply N.ltb_lt in E; exact E | exact Hlt]. }
  destruct (Hcount Hlt0) as (Hn & Hk).
  rewrite (numberInc_exact _ Hlt0). cbn [length].
  split; [lia|].
  intros [|k] r.
  - intros [= <-]. cbn [snd]. unfold uploadId.
    rewrite generateUploadId_spec. cbn [fst].
    rewrite idCounter_render, (numberInc_exact _ Hlt0). lia.
  - cbn [lookup list_lookup]. intros Hr. rewrite (Hk _ _ Hr).
    f_equal.
Qed.

Lemma consistent_showFileError file errorType w :
  consistent w -> consistent (snd (showFileError file errorType w)).
Proof.
  destruct (showFileError_run file errorType w) as (message & ->).
  apply consistent_same; reflexivity.
Qed.

Lemma consistent_processFiles files : forall w,
  consistent w -> consistent (snd (processFiles files w)).
Proof.
  intros w. rewrite processFiles_forEach. revert w.
  induction files as [|file files IH]; intros w Hw; [exact Hw|].
  rewrite forEach_cons_run. apply IH. cbv zeta.
  destruct (valid (validateFile file)) eqn:Hvalid.
  - apply consistent_uploadFile; assumption.
  - apply consistent_showFileError, Hw.
Qed.

Lemma consistent_pasteHandler file w :
  consistent w -> consistent (snd (pasteHandler (Some file) w)).
Proof.
  intros Hw. cbn [pasteHandler]. cbv zeta.
  destruct (valid (validateFile file)) eqn:Hvalid.
  - apply consistent_uploadFile; assumption.
  - apply consistent_showFileError, Hw.
Qed.

Lemma consistent_settled file uploadId outcome w :
  consistent w ->
  consistent (snd (_executeUpload_settled file uploadId outcome w)).
Proof.
  intros (Hreq & Hreg & Hmax & Hcount).
  destruct (settled_frame file uploadId outcome w) as (Hr & Hu & _).
  pose proof (settled_uploads file uploadId outcome w) as Hup.
  unfold consistent. rewrite Hr, Hu, Hup.
  split; [exact Hreq|]. split; [|split; assumption].
  intros uploadId' record Hin.
  apply lookup_delete_Some in Hin as (_ & Hin). exact (Hreg _ _ Hin).
Qed.

Lemma reachable_consistent w : reachable w -> consistent w.
Proof.
  induction 1 as [e now|w files _ IH|w items _ IH|w files _ IH|w e _ IH
                  |w file uploadId response _ IH _].
  - unfold consistent, worldOf. cbn [requests uploads uploadCounter length].
    split; [constructor|]. split.
    { intros uploadId record. rewrite lookup_empty. discriminate. }
    split; [vm_compute; discriminate|]. intros _.
    split; [reflexivity|]. intros k r. rewrite lookup_nil. discriminate.
  - destruct files as [files|]; [|exact IH].
    rewrite dropEvent_processFiles. apply consistent_processFiles, IH.
  - unfold pasteEvent. destruct (getFileFromClipboard items) as [file|];
      [|exact IH].
    rewrite then_ret. apply consistent_pasteHandler, IH.
  - destruct files as [files|]; [|exact IH].
    rewrite fileInputChange_processFiles.
    apply consistent_processFiles, IH.
  - revert IH. apply consistent_same; reflexivity.
  - apply consistent_settled, IH.
Qed.

(** X12. In every world the script can get into, by any sequence of
    drops, pastes, choices in the file chooser, edits of the user and
    ends of transfers: each transfer that was started is for a file that
    passed validation (a supported type, at most 20MB) and runs under an
    id made of digits and [-]; and each entry of the registry belongs to
    a transfer that was started, is active, and holds the placeholder
    that was written for that file. *)
Theorem reachable_transfers_validated w :
  reachable w ->
  (forall file uploadId, In (file, uploadId) (requests w) ->
     valid (validateFile file) = true /\ plainId uploadId = true) /\
  (forall uploadId record, uploads w !! uploadId = Some record ->
     exists file, In (file, uploadId) (requests w) /\
       placeholderText record = getPlaceholderText file uploadId /\
       active record = true).
Proof.
  intros Hw. destruct (reachable_consistent w Hw) as (Hreq & Hreg & _).
  split; [|exact Hreg].
  intros file uploadId Hin. rewrite Forall_forall in Hreq.
  apply (Hreq (file, uploadId)), list_elem_of_In, Hin.
Qed.

Lemma reachable_transfers_validated_witness :
  valid (validateFile {| fileName := js "a.png"; mimeType := js "image/png";
                         fileSize := 1%N |}) = true /\
  plainId (js "1000-1") = true.
Proof.
  refine (proj1 (reachable_transfers_validated
                   (snd (pasteEvent
                      (Some [{| kind := js "file";
                                getAsFile :=
                                  Some {| fileName := js "a.png";
                                          mimeType := js "image/png";
                                          fileSize := 1%N |} |}])
                      (worldOf (editorOf (js "hello") 5)
                               (fun _ => 1000%N)))) _) _ _ _).
  - apply reachable_paste, reachable_start.
  - vm_compute. left. reflexivity.
Defined.

(** X13. In every world the script can get into, as long as the counter
    still counts exactly (it is below 2^53), the counter is the number of
    transfers started so far and no two of them run under the same id. *)
Theorem reachable_ids_distinct w :
  reachable w ->
  (uploadCounter w < MAX_EXACT)%N ->
  uploadCounter w = N.of_nat (length (requests w)) /\
  NoDup (map snd (requests w)).
Proof.
  intros Hw Hlt.
  destruct (reachable_consistent w Hw) as (_ & _ & _ & Hcount).
  destruct (Hcount Hlt) as (Hn & Hk). split; [exact Hn|].
  change (map snd (requests w)) with (snd <$> requests w).
  apply NoDup_alt. intros i j uploadId.
  rewrite !list_lookup_fmap.
  destruct (requests w !! i) as [r1|] eqn:E1; [|discriminate].
  destruct (requests w !! j) as [r2|] eqn:E2; [|discriminate].
  cbn [fmap option_fmap option_map]. intros [= H1] [= H2].
  pose proof (Hk _ _ E1) as C1. pose proof (Hk _ _ E2) as C2.
  rewrite H1 in C1. rewrite H2 in C2.
  apply lookup_lt_Some in E1. apply lookup_lt_Some in E2.
  lia.
Qed.

Lemma reachable_ids_distinct_witness :
  NoDup (map snd (requests (snd (dropEvent
    (Some [{| fileName := js "a.png"; mimeType := js "image/png";
              fileSize := 1%N |};
           {| fileName := js "b.png"; mimeType := js "image/png";
              fileSize := 1%N |}])
    (worldOf (editorOf (js "hello") 5) (fun _ => 1000%N)))))).
Proof.
  refine (proj2 (reachable_ids_distinct _ _ _)).
  - apply reachable_drop, reachable_start.
  - vm_compute. reflexivity.
Defined.

(** A text the lookup accepts lies within one line, so a buffer without
    a match on either side of a newline has none. *)
Lemma findPlaceholder_lines a b uploadId :
  plainId uploadId = true ->
  findPlaceholder a uploadId = None ->
  findPlaceholder b uploadId = None ->
  findPlaceholder (a ++ LF :: b) uploadId = None.
Proof.
  intros Hid Ha Hb. apply findPlaceholder_None_iff.
  intros j t Hform (u & v & Heq & _).
  pose proof (findPlaceholder_None _ _ Ha) as Hna.
  pose proof (findPlaceholder_None _ _ Hb) as Hnb.
  rewrite app_assoc in Heq.
  apply app_eq_inv in Heq as [(k & Hk & _)|(k & Hk & Hv)].
  - apply (Hna (length u) t Hform). exists u, k.
    rewrite Hk, <- app_assoc. auto.
  - apply app_eq_inv in Hk as [(k' & Hu & Ht)|(k' & Hu & Ht)].
    + (* the match begins at the newline or after it *)
      subst k. destruct k' as [|c k'].
      * destruct t as [|c t'].
        -- destruct Hform as (bang & ? & ? & ? & ? & _ & _ & _ & _ & _ & E).
           destruct bang; discriminate E.
        -- injection Hv as <- _.
           apply (placeholderForm_no_LF_inside uploadId (LF :: t') [] t'
                    Hid Hform). reflexivity.
      * injection Hv as <- Hv.
        apply (Hnb (length k') t Hform). exists k', v.
        rewrite Hv, <- app_assoc. auto.
    + (* the match begins inside [a] *)
      destruct k as [|c k].
      * rewrite app_nil_r in Ht. subst k'.
        apply (Hna (length u) t Hform). exists u, [].
        rewrite app_nil_r. auto.
      * injection Hv as <- _.
        exact (placeholderForm_no_LF_inside _ _ _ _ Hid Hform Ht).
Qed.

Lemma findPlaceholder_nil uploadId : findPlaceholder [] uploadId = None.
Proof.
  apply findPlaceholder_None_iff. intros j t Hform (u & v & Heq & _).
  destruct Hform as (bang & ? & ? & ? & ? & _ & _ & _ & _ & _ & ->).
  destruct u; [|discriminate Heq]. destruct bang; discriminate Heq.
Qed.

(** A text without the character [中] holds nothing the lookup accepts. *)
Lemma findPlaceholder_needs_zhong buffer uploadId :
  Forall (fun c => c <> ch "中") buffer ->
  findPlaceholder buffer uploadId = None.
Proof.
  intros Hno. apply findPlaceholder_None_iff.
  intros j t Hform (u & v & -> & _).
  destruct Hform as (bang & x & y & z & suffix & _ & _ & _ & _ & _ & ->).
  apply Forall_app in Hno as (_ & Hno).
  apply Forall_app in Hno as (Hno & _).
  apply Forall_app in Hno as (_ & Hno).
  apply Forall_app in Hno as (Hno & _).
  rewrite Forall_forall in Hno. apply (Hno (ch "中")); [|reflexivity].
  jsnorm. repeat constructor.
Qed.

Lemma categorizeError_range error :
  In (_categorizeError error) [NETWORK; PERMISSION; SERVER; FORMAT; UNKNOWN].
Proof.
  rewrite categorizeError_unfold. cbv zeta.
  destruct (networkPhrase _); [left; reflexivity|].
  destruct (permissionPhrase _); [right; left; reflexivity|].
  destruct (serverPhrase _); [right; right; left; reflexivity|].
  destruct (formatPhrase _); [right; right; right; left; reflexivity|].
  right; right; right; right; left; reflexivity.
Qed.

Lemma plainId_no_zhong uploadId :
  plainId uploadId = true -> Forall (fun c => c <> ch "中") uploadId.
Proof.
  intros Hid. apply Forall_forall. intros c Hc ->.
  unfold plainId in Hid. rewrite forallb_forall in Hid.
  apply list_elem_of_In in Hc. specialize (Hid _ Hc).
  vm_compute in Hid. discriminate Hid.
Qed.

(** The marker of a failed transfer holds nothing the lookup accepts. *)
Lemma failure_marker_no_match uploadId error otherId :
  plainId uploadId = true ->
  findPlaceholder (getFailureText uploadId (_categorizeError error)) otherId
  = None.
Proof.
  intros Hid. apply findPlaceholder_needs_zhong.
  pose proof (plainId_no_zhong _ Hid) as Hno.
  destruct (getFailureText_taxonomy uploadId)
    as (E1 & E2 & E3 & E4 & _ & _ & E7).
  assert (forall s, forallb (fun c => negb (c =? ch "中")%N) s = true ->
                    Forall (fun c => c <> ch "中") s) as Hclosed.
  { intros s Hs. apply Forall_forall. intros c Hc ->.
    rewrite forallb_forall in Hs. apply list_elem_of_In in Hc.
    specialize (Hs _ Hc). rewrite N.eqb_refl in Hs. discriminate Hs. }
  destruct (categorizeError_range error)
    as [<-|[<-|[<-|[<-|[<-|[]]]]]].
  - rewrite E1. repeat apply Forall_app_2; try exact Hno;
      apply Hclosed; vm_compute; reflexivity.
  - rewrite E3. repeat apply Forall_app_2; try exact Hno;
      apply Hclosed; vm_compute; reflexivity.
  - rewrite E2. repeat apply Forall_app_2; try exact Hno;
      apply Hclosed; vm_compute; reflexivity.
  - rewrite E4. repeat apply Forall_app_2; try exact Hno;
      apply Hclosed; vm_compute; reflexivity.
  - rewrite E7. repeat apply Forall_app_2; try exact Hno;
      apply Hclosed; vm_compute; reflexivity.
Qed.

(** X14. The marker of a failed upload is never taken for a placeholder
    that is still waiting.  After a file was put in at the cursor and its
    transfer has failed, the buffer holds, for no id at all, a text that
    the lookup accepts, unless the text before or after the cursor held
    one already: no transfer that ends later, under this id or another,
    replaces the marker or a part of it. *)
Theorem failed_upload_not_pending file error otherId w :
  let e := editor w in
  let c := selectionStart e in
  let uploadId := fst (generateUploadId w) in
  let before := substring (value e) 0 c in
  let rest := substringFrom (value e) c in
  (0 <= c <= jslength (value e))%Z ->
  findPlaceholder before uploadId = None ->
  plainId otherId = true ->
  findPlaceholder before otherId = None ->
  findPlaceholder rest otherId = None ->
  let w1 := snd (uploadFile file w) in
  let w2 := snd (_executeUpload_settled file uploadId (Rejected error) w1) in
  findPlaceholder (value (editor w2)) otherId = None.
Proof.
  intros e c uploadId before rest Hc Hnone Hother Hb Hr w1 w2. subst w2.
  destruct (uploadFile_in_place file w Hc) as (Hv & Hs & He).
  fold w1 in Hv, Hs, He. clearbody w1.
  destruct (settled_in_place file uploadId (Rejected error) w1 _ _ _
              (generateUploadId_plain w)
              (getPlaceholderText_form file uploadId) Hnone Hv Hs He)
    as (Hvalue & _).
  rewrite Hvalue. cbn [replacementText app].
  apply findPlaceholder_lines; [exact Hother | exact Hb |].
  rewrite <- app_assoc. cbn [app].
  apply findPlaceholder_lines; [exact Hother | |].
  - apply failure_marker_no_match, generateUploadId_plain.
  - apply (findPlaceholder_lines [] rest otherId Hother);
      [apply findPlaceholder_nil | exact Hr].
Qed.

Lemma failed_upload_not_pending_witness :
  findPlaceholder
    (value (editor
      (snd (_executeUpload_settled
              {| fileName := js "cat.png"; mimeType := js "image/png";
                 fileSize := 1%N |}
              (js "1000-1") (Rejected (ErrString (js "HTTP错误: 403")))
              (snd (uploadFile
                      {| fileName := js "cat.png";
                         mimeType := js "image/png"; fileSize := 1%N |}
                      (worldOf (editorOf (js "hello world") 5)
                               (fun _ => 1000%N)))))))) (js "1000-1")
  = None.
Proof.
  refine (failed_upload_not_pending
            {| fileName := js "cat.png"; mimeType := js "image/png";
               fileSize := 1%N |}
            (ErrString (js "HTTP错误: 403")) (js "1000-1")
            (worldOf (editorOf (js "hello world") 5) (fun _ => 1000%N))
            _ _ _ _ _).
  - vm_compute. split; discriminate.
  - vm_compute. reflexivity.
  - vm_compute. reflexivity.
  - vm_compute. reflexivity.
  - vm_compute. reflexivity.
Defined.

(** The world after a transfer has ended: the textarea is changed, one
    input event is sent, the id leaves the registry. *)
Lemma settled_world file uploadId outcome w :
  let w' := snd (_executeUpload_settled file uploadId outcome w) in
  w' = {| editor := editor w';
          uploads := delete uploadId (uploads w);
          uploadCounter := uploadCounter w;
          clock := clock w;
          ticks := ticks w;
          inputEvents := S (inputEvents w);
          alerts := alerts w;
          requests := requests w |}.
Proof.
  destruct outcome as [url|error];
    cbv [_executeUpload_settled replacePlaceholder bind saveEditorState
         getEditor ret log savedValue];
    match goal with
    | |- context [findPlaceholder ?b ?i] => destruct (findPlaceholder b i)
    end;
    cbv [_adjustCursorPosition _appendToEditor bind getEditor ret focus];
    repeat match goal with
    | |- context [if ?c then _ else _] => destruct c
    end; reflexivity.
Qed.

(** A transfer ends while its placeholder stands on a line of its own and
    the selection starts after it. *)
Lemma settled_at file uploadId outcome w a placeholder b :
  plainId uploadId = true ->
  placeholderForm uploadId placeholder ->
  findPlaceholder a uploadId = None ->
  value (editor w) = a ++ [LF] ++ placeholder ++ b ->
  (jslength (a ++ [LF] ++ placeholder) < selectionStart (editor w))%Z ->
  let replacement := replacementText file uploadId outcome in
  let shift := (jslength replacement - jslength placeholder)%Z in
  editor (snd (_executeUpload_settled file uploadId outcome w))
  = {| value := a ++ [LF] ++ replacement ++ b;
       selectionStart := (selectionStart (editor w) + shift)%Z;
       selectionEnd := (selectionEnd (editor w) + shift)%Z;
       scrollTop := scrollTop (editor w) |}.
Proof.
  intros Hid Hform Hnone Hv Hs replacement shift.
  assert (findPlaceholder (value (editor w)) uploadId
          = Some {| start := Z.of_nat (length a) + 1;
                    end_ := Z.of_nat (length a) + 1 + jslength placeholder;
                    text := placeholder |}) as Hfind.
  { rewrite Hv. apply findPlaceholder_after_newline; assumption. }
  rewrite settled_replacement.
  rewrite (replacePlaceholder_found _ _ _ _ _
             (removeUpload_keepsEditor uploadId) Hfind).
  cbn [value selectionStart selectionEnd scrollTop start end_].
  assert (value (editor w) = (a ++ [LF]) ++ placeholder ++ b) as Hv'.
  { rewrite Hv, <- !app_assoc. reflexivity. }
  destruct (substring_span (value (editor w)) (a ++ [LF]) placeholder b Hv')
    as (Hsub1 & Hsub2).
  assert (Z.of_nat (length a) + 1 = Z.of_nat (length (a ++ [LF])))%Z as E1.
  { rewrite length_app. cbn [length]. lia. }
  assert (Z.of_nat (length (a ++ [LF])) + jslength placeholder
          = Z.of_nat (length (a ++ [LF]) + length placeholder))%Z as E2.
  { unfold jslength. lia. }
  rewrite E1, E2, Hsub1, Hsub2.
  assert ((selectionStart (editor w) <? Z.of_nat (length (a ++ [LF])))%Z
          = false) as ->.
  { apply Z.ltb_ge. unfold jslength in Hs. rewrite !length_app in Hs.
    rewrite length_app. cbn [length] in *. lia. }
  assert ((selectionStart (editor w)
           <=? Z.of_nat (length (a ++ [LF]) + length placeholder))%Z
          = false) as ->.
  { apply Z.leb_gt. unfold jslength in Hs. rewrite !length_app in Hs.
    rewrite length_app. cbn [length] in *. lia. }
  fold replacement. unfold shift, jslength.
  f_equal; [rewrite <- !app_assoc; reflexivity | lia | lia].
Qed.

Lemma settled_inputEvents file uploadId outcome w :
  inputEvents (snd (_executeUpload_settled file uploadId outcome w))
  = S (inputEvents w).
Proof.
  pose proof (settled_world file uploadId outcome w) as H. cbv zeta in H.
  rewrite H. reflexivity.
Qed.

(** The placeholder of one id holds nothing the lookup accepts for
    another id. *)
Lemma other_placeholder_no_match id1 id2 placeholder :
  plainId id1 = true -> plainId id2 = true -> id1 <> id2 ->
  placeholderForm id1 placeholder ->
  findPlaceholder placeholder id2 = None.
Proof.
  intros H1 H2 Hne Hform. apply findPlaceholder_None_iff.
  intros j t Ht (u & v & Heq & _).
  assert ([] ++ placeholder ++ [] = u ++ t ++ v) as Heq'.
  { rewrite app_nil_r. exact Heq. }
  assert (length placeholder = length (u ++ t ++ v)) as Hlen
    by (rewrite <- Heq; reflexivity).
  rewrite !length_app in Hlen.
  assert (t <> []) as Hnonempty.
  { destruct Ht as (bang & ? & ? & ? & ? & _ & _ & _ & _ & _ & ->).
    destruct bang; discriminate. }
  destruct (forms_disjoint id1 id2 placeholder t [] [] u v H1 H2 Hne Hform Ht
              Heq') as [(m & ->)|(m & Hm)].
  - rewrite !length_app in Hlen. destruct t; [congruence|].
    cbn [length] in Hlen. lia.
  - destruct u; [|discriminate Hm]. destruct t; [congruence|].
    discriminate Hm.
Qed.

(** X15. Two transfers of a batch may end in either order.  When the
    placeholders of two uploads stand one after the other as a batch puts
    them in, with the cursor after them, and the first upload's result
    holds nothing the lookup would take for the second one's placeholder,
    ending the first transfer and then the second leaves the very same
    world (buffer, selection, registry, events) as ending the second and
    then the first: both results stand in the places of their
    placeholders. *)
Theorem settlements_commute file1 file2 id1 id2 outcome1 outcome2 w a q :
  let block1 := formatContent (getPlaceholderText file1 id1) in
  let block2 := formatContent (getPlaceholderText file2 id2) in
  let result1 := replacementText file1 id1 outcome1 in
  let result2 := replacementText file2 id2 outcome2 in
  let settle1 := _executeUpload_settled file1 id1 outcome1 in
  let settle2 := _executeUpload_settled file2 id2 outcome2 in
  plainId id1 = true -> plainId id2 = true -> id1 <> id2 ->
  value (editor w) = a ++ block1 ++ block2 ++ q ->
  (jslength (a ++ block1 ++ block2) <= selectionStart (editor w))%Z ->
  findPlaceholder a id1 = None -> findPlaceholder a id2 = None ->
  findPlaceholder result1 id2 = None ->
  snd (settle2 (snd (settle1 w))) = snd (settle1 (snd (settle2 w))) /\
  value (editor (snd (settle2 (snd (settle1 w)))))
  = a ++ formatContent result1 ++ formatContent result2 ++ q.
Proof.
  intros block1 block2 result1 result2 settle1 settle2
    Hid1 Hid2 Hne Hv Hs Ha1 Ha2 Hr1.
  set (p1 := getPlaceholderText file1 id1) in *.
  set (p2 := getPlaceholderText file2 id2) in *.
  pose proof (getPlaceholderText_form file1 id1) as Hf1. fold p1 in Hf1.
  pose proof (getPlaceholderText_form file2 id2) as Hf2. fold p2 in Hf2.
  unfold block1, block2, formatContent, BEFORE, AFTER in Hv, Hs.
  unfold jslength in Hs. rewrite !length_app in Hs. cbn [length] in Hs.
  assert (findPlaceholder [LF] id2 = None) as Hlf.
  { apply (findPlaceholder_lines [] [] id2 Hid2);
      apply findPlaceholder_nil. }
  (* the first transfer ends first *)
  set (w1 := snd (settle1 w)).
  assert (editor w1
          = {| value := a ++ [LF] ++ result1
                        ++ ([LF; LF] ++ [LF] ++ p2 ++ [LF; LF] ++ q);
               selectionStart := (selectionStart (editor w)
                 + (jslength result1 - jslength p1))%Z;
               selectionEnd := (selectionEnd (editor w)
                 + (jslength result1 - jslength p1))%Z;
               scrollTop := scrollTop (editor w) |}) as He1.
  { apply settled_at; try assumption.
    - rewrite Hv, <- !app_assoc. reflexivity.
    - unfold jslength. rewrite !length_app. cbn [length]. lia. }
  set (w12 := snd (settle2 w1)).
  assert (editor w12
          = {| value := (a ++ [LF] ++ result1 ++ [LF; LF]) ++ [LF] ++ result2
                        ++ ([LF; LF] ++ q);
               selectionStart := (selectionStart (editor w1)
                 + (jslength result2 - jslength p2))%Z;
               selectionEnd := (selectionEnd (editor w1)
                 + (jslength result2 - jslength p2))%Z;
               scrollTop := scrollTop (editor w1) |}) as He12.
  { apply settled_at; try assumption.
    - apply findPlaceholder_lines; [assumption..|].
      apply (findPlaceholder_lines result1 [LF]); assumption.
    - rewrite He1. cbn [value]. rewrite <- !app_assoc. reflexivity.
    - rewrite He1. cbn [selectionStart]. unfold jslength.
      rewrite !length_app. cbn [length]. lia. }
  (* the second transfer ends first *)
  set (w2 := snd (settle2 w)).
  assert (editor w2
          = {| value := (a ++ [LF] ++ p1 ++ [LF; LF]) ++ [LF] ++ result2
                        ++ ([LF; LF] ++ q);
               selectionStart := (selectionStart (editor w)
                 + (jslength result2 - jslength p2))%Z;
               selectionEnd := (selectionEnd (editor w)
                 + (jslength result2 - jslength p2))%Z;
               scrollTop := scrollTop (editor w) |}) as He2.
  { apply settled_at; try assumption.
    - apply findPlaceholder_lines; [assumption..|].
      apply (findPlaceholder_lines p1 [LF]); [assumption| |assumption].
      apply (other_placeholder_no_match id1 id2); assumption.
    - rewrite Hv, <- !app_assoc. reflexivity.
    - unfold jslength. rewrite !length_app. cbn [length]. lia. }
  set (w21 := snd (settle1 w2)).
  assert (editor w21
          = {| value := a ++ [LF] ++ result1
                        ++ ([LF; LF] ++ [LF] ++ result2 ++ [LF; LF] ++ q);
               selectionStart := (selectionStart (editor w2)
                 + (jslength result1 - jslength p1))%Z;
               selectionEnd := (selectionEnd (editor w2)
                 + (jslength result1 - jslength p1))%Z;
               scrollTop := scrollTop (editor w2) |}) as He21.
  { apply settled_at; try assumption.
    - rewrite He2. cbn [value]. rewrite <- !app_assoc. reflexivity.
    - rewrite He2. cbn [selectionStart]. unfold jslength.
      rewrite !length_app. cbn [length]. lia. }
  split.
  - pose proof (settled_world file2 id2 outcome2 w1) as H12.
    pose proof (settled_world file1 id1 outcome1 w2) as H21.
    cbv zeta in H12, H21. fold settle1 settle2 in H12, H21.
    fold w12 in H12. fold w21 in H21. rewrite H12, H21.
    destruct (settled_frame file1 id1 outcome1 w) as (F1 & F2 & F3 & F4 & F5).
    destruct (settled_frame file2 id2 outcome2 w) as (G1 & G2 & G3 & G4 & G5).
    fold settle1 in F1, F2, F3, F4, F5. fold w1 in F1, F2, F3, F4, F5.
    fold settle2 in G1, G2, G3, G4, G5. fold w2 in G1, G2, G3, G4, G5.
    rewrite F1, F2, F3, F4, F5, G1, G2, G3, G4, G5.
    assert (uploads w1 = delete id1 (uploads w)) as U1
      by apply settled_uploads.
    assert (uploads w2 = delete id2 (uploads w)) as U2
      by apply settled_uploads.
    assert (inputEvents w1 = S (inputEvents w)) as I1
      by apply settled_inputEvents.
    assert (inputEvents w2 = S (inputEvents w)) as I2
      by apply settled_inputEvents.
    rewrite U1, U2, I1, I2.
    rewrite (delete_delete _ id2 id1).
    f_equal.
    rewrite He12, He21, He1, He2.
    cbn [selectionStart selectionEnd scrollTop].
    f_equal; [rewrite <- !app_assoc; reflexivity | lia | lia].
  - fold w1 w12. rewrite He12. cbn [value].
    unfold formatContent, BEFORE, AFTER. rewrite <- !app_assoc. reflexivity.
Qed.

Lemma settlements_commute_witness :
  snd (_executeUpload_settled
         {| fileName := js "b.pdf"; mimeType := js "application/pdf";
            fileSize := 1%N |}
         (js "1000-2") (Rejected (ErrString (js "HTTP错误: 500")))
         (snd (_executeUpload_settled
                 {| fileName := js "a.png"; mimeType := js "image/png";
                    fileSize := 1%N |}
                 (js "1000-1") (Resolved (js "https://h1.appinn.me/f/a.png"))
                 (snd (processFiles
                         [{| fileName := js "a.png";
                             mimeType := js "image/png"; fileSize := 1%N |};
                          {| fileName := js "b.pdf";
                             mimeType := js "application/pdf";
                             fileSize := 1%N |}]
                         (worldOf (editorOf (js "xy") 1)
                                  (fun _ => 1000%N)))))))
  = snd (_executeUpload_settled
           {| fileName := js "a.png"; mimeType := js "image/png";
              fileSize := 1%N |}
           (js "1000-1") (Resolved (js "https://h1.appinn.me/f/a.png"))
           (snd (_executeUpload_settled
                   {| fileName := js "b.pdf";
                      mimeType := js "application/pdf"; fileSize := 1%N |}
                   (js "1000-2") (Rejected (ErrString (js "HTTP错误: 500")))
                   (snd (processFiles
                           [{| fileName := js "a.png";
                               mimeType := js "image/png";
                               fileSize := 1%N |};
                            {| fileName := js "b.pdf";
                               mimeType := js "application/pdf";
                               fileSize := 1%N |}]
                           (worldOf (editorOf (js "xy") 1)
                                    (fun _ => 1000%N))))))).
Proof.
  refine (proj1 (settlements_commute _ _ _ _ _ _ _ (js "x") (js "y")
                   _ _ _ _ _ _ _ _)).
  - vm_compute. reflexivity.
  - vm_compute. reflexivity.
  - intros H. vm_compute in H. discriminate H.
  - vm_compute. reflexivity.
  - vm_compute. discriminate.
  - vm_compute. reflexivity.
  - vm_compute. reflexivity.
  - vm_compute. reflexivity.
Defined.

(** X16. The script announces every change it makes to the buffer with
    exactly one [input] event, so that the page can follow: a batch of
    files sends one event for each file it accepts and none for a file it
    turns down, and a transfer that ends sends one, whether its result
    replaces the placeholder or is appended. *)
Theorem input_event_per_change files file uploadId outcome w :
  inputEvents (snd (processFiles files w))
  = (inputEvents w
     + length (List.filter (fun f => valid (validateFile f)) files))%nat /\
  inputEvents (snd (_executeUpload_settled file uploadId outcome w))
  = S (inputEvents w).
Proof.
  split; [|apply settled_inputEvents].
  rewrite processFiles_forEach. revert w.
  induction files as [|f files IH]; intros w.
  - cbn [List.filter length forEach]. unfold ret. cbn [snd]. lia.
  - rewrite forEach_cons_run, IH. cbv zeta. cbn [List.filter].
    destruct (valid (validateFile f)).
    + rewrite uploadFile_run. cbn [inputEvents length]. lia.
    + destruct (showFileError_run f (error (validateFile f)) w)
        as (message & ->).
      cbn [alert snd inputEvents]. lia.
Qed.

Lemma numberInc_le (n : N) : (n <= numberInc n)%N.
Proof. unfold numberInc. destruct (n <? MAX_EXACT)%N; lia. Qed.

(** The counter never goes down. *)
Lemma processFiles_counter_le files : forall w,
  (uploadCounter w <= uploadCounter (snd (processFiles files w)))%N.
Proof.
  intros w. rewrite processFiles_forEach. revert w.
  induction files as [|file files IH]; intros w; [reflexivity|].
  rewrite forEach_cons_run. etransitivity; [|apply IH]. cbv zeta.
  destruct (valid (validateFile file)).
  - rewrite uploadFile_run. cbn [uploadCounter]. apply numberInc_le.
  - destruct (showFileError_run file (error (validateFile file)) w)
      as (message & ->).
    reflexivity.
Qed.

Lemma pasteHandler_counter_le file w :
  (uploadCounter w <= uploadCounter (snd (pasteHandler (Some file) w)))%N.
Proof.
  cbn [pasteHandler]. cbv zeta. destruct (valid (validateFile file)).
  - rewrite uploadFile_run. cbn [uploadCounter]. apply numberInc_le.
  - destruct (showFileError_run file (error (validateFile file)) w)
      as (message & ->).
    reflexivity.
Qed.

Lemma handle_counter_le event w :
  (uploadCounter w <= uploadCounter (snd (handle event w)))%N.
Proof.
  destruct event as [files|items|files|e|file uploadId outcome];
    cbn [handle].
  - rewrite then_ret. cbn [snd]. destruct files as [files|]; [|reflexivity].
    rewrite dropEvent_processFiles. apply processFiles_counter_le.
  - rewrite then_ret. cbn [snd]. unfold pasteEvent.
    destruct (getFileFromClipboard items) as [file|]; [|reflexivity].
    rewrite then_ret. apply pasteHandler_counter_le.
  - destruct files as [files|]; [|reflexivity].
    rewrite fileInputChange_processFiles. apply processFiles_counter_le.
  - reflexivity.
  - destruct (settled_frame file uploadId outcome w) as (_ & -> & _).
    reflexivity.
Qed.

Lemma run_counter_le events : forall w,
  (uploadCounter w <= uploadCounter (snd (run events w)))%N.
Proof.
  induction events as [|event events IH]; intros w; [reflexivity|].
  unfold run. rewrite forEach_cons_run. fold (run events).
  etransitivity; [apply handle_counter_le | apply IH].
Qed.

Lemma run_app events1 events2 w :
  snd (run (events1 ++ events2) w) = snd (run events2 (snd (run events1 w))).
Proof.
  revert w. induction events1 as [|event events1 IH]; intros w;
    [reflexivity|].
  unfold run in *. cbn [app]. rewrite !forEach_cons_run. apply IH.
Qed.

(** Whatever happens keeps the registry, the counter and the transfers
    consistent. *)
Lemma consistent_handle event w :
  consistent w -> consistent (snd (handle event w)).
Proof.
  intros Hw.
  destruct event as [files|items|files|e|file uploadId outcome];
    cbn [handle].
  - rewrite then_ret. cbn [snd]. destruct files as [files|]; [|exact Hw].
    rewrite dropEvent_processFiles. apply consistent_processFiles, Hw.
  - rewrite then_ret. cbn [snd]. unfold pasteEvent.
    destruct (getFileFromClipboard items) as [file|]; [|exact Hw].
    rewrite then_ret. apply consistent_pasteHandler, Hw.
  - destruct files as [files|]; [|exact Hw].
    rewrite fileInputChange_processFiles.
    apply consistent_processFiles, Hw.
  - revert Hw. apply consistent_same; reflexivity.
  - apply consistent_settled, Hw.
Qed.

Lemma consistent_run events : forall w,
  consistent w -> consistent (snd (run events w)).
Proof.
  induction events as [|event events IH]; intros w Hw; [exact Hw|].
  unfold run. rewrite forEach_cons_run. apply IH, consistent_handle, Hw.
Qed.

Lemma consistent_start e now : consistent (worldOf e now).
Proof. apply reachable_consistent, reachable_start. Qed.

(** A new upload never takes the id of a transfer that was started
    before, so it does not bring an entry of the registry back. *)
Lemma uploadFile_keeps_ended file uploadId w :
  consistent w -> valid (validateFile file) = true ->
  (uploadCounter (snd (uploadFile file w)) < MAX_EXACT)%N ->
  In uploadId (map snd (requests w)) -> uploads w !! uploadId = None ->
  In uploadId (map snd (requests (snd (uploadFile file w)))) /\
  uploads (snd (uploadFile file w)) !! uploadId = None.
Proof.
  intros Hw Hvalid Hlt Hin Hnone.
  pose proof (consistent_uploadFile file w Hvalid Hw) as (_ & _ & _ & Hcount).
  destruct (Hcount Hlt) as (_ & Hk). clear Hcount.
  rewrite uploadFile_run in Hk |- *. cbn [requests uploads map snd] in *.
  split; [right; exact Hin|].
  apply in_map_iff in Hin as (r & Hr & Hin).
  apply list_elem_of_In, list_elem_of_lookup in Hin as (k & Hlook).
  pose proof (Hk 0%nat _ eq_refl) as H0. cbn [snd length] in H0.
  pose proof (Hk (S k) r Hlook) as H1. cbn [length] in H1.
  apply lookup_lt_Some in Hlook.
  rewrite lookup_insert_ne; [exact Hnone|].
  intros Heq. rewrite Heq, <- Hr, H1 in H0. lia.
Qed.

Lemma processFiles_keeps_ended files uploadId : forall w,
  consistent w ->
  (uploadCounter (snd (processFiles files w)) < MAX_EXACT)%N ->
  In uploadId (map snd (requests w)) -> uploads w !! uploadId = None ->
  In uploadId (map snd (requests (snd (processFiles files w)))) /\
  uploads (snd (processFiles files w)) !! uploadId = None.
Proof.
  induction files as [|file files IH]; intros w Hw Hlt Hin Hnone;
    [split; assumption|].
  pose proof (processFiles_counter_le files) as Hle.
  rewrite processFiles_forEach in Hlt |- *.
  rewrite forEach_cons_run in Hlt |- *. cbv zeta in Hlt |- *.
  rewrite <- processFiles_forEach in Hlt |- *.
  destruct (valid (validateFile file)) eqn:Hvalid.
  - specialize (Hle (snd (uploadFile file w))).
    destruct (uploadFile_keeps_ended file uploadId w Hw Hvalid)
      as (Hin' & Hnone'); [lia|assumption..|].
    apply IH; [apply consistent_uploadFile|..]; assumption.
  - destruct (showFileError_run file (error (validateFile file)) w)
      as (message & Hrun).
    rewrite Hrun in Hlt |- *.
    apply IH; [|exact Hlt|exact Hin|exact Hnone].
    revert Hw. apply consistent_same; reflexivity.
Qed.

Lemma handle_keeps_ended event uploadId w :
  consistent w ->
  (uploadCounter (snd (handle event w)) < MAX_EXACT)%N ->
  In uploadId (map snd (requests w)) -> uploads w !! uploadId = None ->
  In uploadId (map snd (requests (snd (handle event w)))) /\
  uploads (snd (handle event w)) !! uploadId = None.
Proof.
  intros Hw Hlt Hin Hnone.
  destruct event as [files|items|files|e|file id outcome];
    cbn [handle] in *.
  - rewrite then_ret in *. cbn [snd] in *.
    destruct files as [files|]; [|split; assumption].
    rewrite dropEvent_processFiles in *. cbn [snd] in *.
    apply processFiles_keeps_ended; assumption.
  - rewrite then_ret in *. cbn [snd] in *. unfold pasteEvent in *.
    destruct (getFileFromClipboard items) as [file|]; [|split; assumption].
    rewrite then_ret in *. cbn [snd] in *.
    cbn [pasteHandler] in *. cbv zeta in *.
    destruct (valid (validateFile file)) eqn:Hvalid.
    + apply uploadFile_keeps_ended; assumption.
    + destruct (showFileError_run file (error (validateFile file)) w)
        as (message & ->).
      split; assumption.
  - destruct files as [files|]; [|split; assumption].
    rewrite fileInputChange_processFiles in *.
    apply processFiles_keeps_ended; assumption.
  - split; assumption.
  - destruct (settled_frame file id outcome w) as (-> & _).
    split; [exact Hin|]. rewrite settled_uploads.
    destruct (decide (id = uploadId)) as [->|Hne].
    + apply lookup_delete_eq.
    + rewrite lookup_delete_ne by exact Hne. exact Hnone.
Qed.

Lemma run_keeps_ended events uploadId : forall w,
  consistent w ->
  (uploadCounter (snd (run events w)) < MAX_EXACT)%N ->
  In uploadId (map snd (requests w)) -> uploads w !! uploadId = None ->
  uploads (snd (run events w)) !! uploadId = None.
Proof.
  induction events as [|event events IH]; intros w Hw Hlt Hin Hnone;
    [exact Hnone|].
  pose proof (run_counter_le events (snd (handle event w))) as Hle.
  unfold run in *. rewrite forEach_cons_run in Hlt |- *.
  destruct (handle_keeps_ended event uploadId w Hw) as (Hin' & Hnone');
    [lia|assumption..|].
  apply IH; [apply consistent_handle|..]; assumption.
Qed.

(** X17. The registry does not leak.  The script starts with an empty
    registry, and things happen one after the other: files are dropped,
    pasted or chosen, the user edits, transfers end with whatever
    outcome.  If by the end each transfer that was started has ended at
    some time after it was started, the registry is empty (as long as the
    counter still counts exactly, so that no id is given twice). *)
Theorem registry_empties e now events :
  let w := snd (run events (worldOf e now)) in
  (uploadCounter w < MAX_EXACT)%N ->
  (forall file uploadId, In (file, uploadId) (requests w) ->
     exists earlier outcome later,
       events = earlier ++ TransferEnds file uploadId outcome :: later /\
       In (file, uploadId) (requests (snd (run earlier (worldOf e now))))) ->
  uploads w = ∅.
Proof.
  intros w Hlt Hall. apply map_empty. intros uploadId.
  destruct (uploads w !! uploadId) as [record|] eqn:E; [|reflexivity].
  pose proof (consistent_run events _ (consistent_start e now))
    as (_ & Hreg & _).
  fold w in Hreg. destruct (Hreg _ _ E) as (file & Hin & _).
  destruct (Hall _ _ Hin) as (earlier & outcome & later & Hev & Hstarted).
  assert (uploads w !! uploadId = None) as Hnone; [|congruence].
  unfold w in Hlt |- *. rewrite Hev in Hlt |- *.
  rewrite run_app in Hlt |- *.
  set (w1 := snd (run earlier (worldOf e now))) in *.
  assert (consistent w1) as Hw1
    by apply consistent_run, consistent_start.
  unfold run at 1. unfold run at 1 in Hlt.
  rewrite forEach_cons_run in Hlt |- *.
  fold (run later) in Hlt |- *. cbn [handle] in Hlt |- *.
  apply run_keeps_ended.
  - apply consistent_settled, Hw1.
  - exact Hlt.
  - destruct (settled_frame file uploadId outcome w1) as (-> & _).
    apply in_map_iff. exists (file, uploadId). auto.
  - rewrite settled_uploads. apply lookup_delete_eq.
Qed.

(** X17 on an ordinary day: a file is dropped and its transfer ends, then
    a second one is dropped and its transfer fails. *)
Lemma registry_empties_witness :
  uploads (snd (run
    [FilesDropped
       (Some [{| fileName := js "a.png"; mimeType := js "image/png";
                 fileSize := 1%N |}]);
     TransferEnds
       {| fileName := js "a.png"; mimeType := js "image/png";
          fileSize := 1%N |}
       (js "1000-1") (Resolved (js "https://h1.appinn.me/f/a.png"));
     FilesDropped
       (Some [{| fileName := js "b.pdf"; mimeType := js "application/pdf";
                 fileSize := 1%N |}]);
     TransferEnds
       {| fileName := js "b.pdf"; mimeType := js "application/pdf";
          fileSize := 1%N |}
       (js "1000-2") (Rejected (ErrString (js "HTTP错误: 500")))]
    (worldOf (editorOf (js "xy") 1) (fun _ => 1000%N))))
  = ∅.
Proof.
  refine (registry_empties _ _ _ _ _).
  - vm_compute. reflexivity.
  - intros file uploadId.
    match goal with
    | |- In _ (requests ?w) -> _ =>
      replace (requests w)
        with [({| fileName := js "b.pdf"; mimeType := js "application/pdf";
                  fileSize := 1%N |}, js "1000-2");
              ({| fileName := js "a.png"; mimeType := js "image/png";
                  fileSize := 1%N |}, js "1000-1")]
        by (vm_compute; reflexivity)
    end.
    intros [H|[H|[]]]; injection H as <- <-.
    + exists
        [FilesDropped
           (Some [{| fileName := js "a.png"; mimeType := js "image/png";
                     fileSize := 1%N |}]);
         TransferEnds
           {| fileName := js "a.png"; mimeType := js "image/png";
              fileSize := 1%N |}
           (js "1000-1") (Resolved (js "https://h1.appinn.me/f/a.png"));
         FilesDropped
           (Some [{| fileName := js "b.pdf";
                     mimeType := js "application/pdf";
                     fileSize := 1%N |}])],
        (Rejected (ErrString (js "HTTP错误: 500"))), [].
      split; [reflexivity|]. vm_compute. left. reflexivity.
    + exists
        [FilesDropped
           (Some [{| fileName := js "a.png"; mimeType := js "image/png";
                     fileSize := 1%N |}])],
        (Resolved (js "https://h1.appinn.me/f/a.png")),
        [FilesDropped
           (Some [{| fileName := js "b.pdf";
                     mimeType := js "application/pdf";
                     fileSize := 1%N |}]);
         TransferEnds
           {| fileName := js "b.pdf"; mimeType := js "application/pdf";
              fileSize := 1%N |}
           (js "1000-2") (Rejected (ErrString (js "HTTP错误: 500")))].
      split; [reflexivity|]. vm_compute. left. reflexivity.
Defined.
